(** * MDP solvers: a shallow embedding of [mdp.py], [value_iterations.py],
    [policy_iteration.py] and [q_learning.py]

    Conventions of the embedding.
    - Python [int] values that are actions or indices are [Z].
    - Python numbers that hold values, rewards and probabilities are exact
      rationals in canonical form ([Qc]): [1/3] is the rational one third,
      [0.9] is nine tenths.  Rounding of IEEE doubles is not modelled.
    - A raised exception is the [Raise] result; a [while True] loop that has
      not reached its [break] within the given number of iterations is
      [OutOfFuel].
    - The global [random] module is an explicit generator state [Rng]: an
      arbitrary infinite tape of raw draws and a cursor.
    - A method that mutates its object is a computation [M S A] over the
      mutable state [S]; the state survives a raised exception, as the
      attributes of a Python object do.
    - A Python [dict] is an insertion-ordered association list without
      duplicate keys ([values()] iterates in insertion order). *)

From Stdlib Require Import ZArith QArith Qcanon Lia String Ascii DecimalString.
From stdpp Require Import base decidable option list sets numbers strings.

Open Scope Z_scope.

(** ** The fragment of the Python runtime used by the sources *)

Inductive exn : Type :=
  | InvalidAction      (* [raise Exception(...)] in the two [step] methods *)
  | IndexError
  | KeyError
  | ValueError
  | ZeroDivisionError.

Inductive res (A : Type) : Type :=
  | Ok (a : A)
  | Raise (e : exn)
  | OutOfFuel.
Arguments Ok {A} a.
Arguments Raise {A} e.
Arguments OutOfFuel {A}.

#[global] Instance res_ret : MRet res := fun A a => Ok a.
#[global] Instance res_bind : MBind res := fun A B f m =>
  match m with
  | Ok a => f a
  | Raise e => Raise e
  | OutOfFuel => OutOfFuel
  end.

(** [for x in l: acc = body(acc, x)] with exceptions. *)
Fixpoint for_each {A B : Type} (l : list A) (acc : B) (body : B -> A -> res B) : res B :=
  match l with
  | [] => Ok acc
  | x :: l' => acc' ← body acc x; for_each l' acc' body
  end.

(** [[f(x) for x in l]] with exceptions. *)
Fixpoint comprehension {A B : Type} (f : A -> res B) (l : list A) : res (list B) :=
  match l with
  | [] => Ok []
  | x :: l' => y ← f x; ys ← comprehension f l'; Ok (y :: ys)
  end.

(** Numbers. *)
Definition py_lt (x y : Qc) : bool := bool_decide (x < y)%Qc.
Definition py_eq (x y : Qc) : bool := bool_decide (x = y).

(** [abs(x)] *)
Definition py_abs (x : Qc) : Qc := if py_lt x 0%Qc then (- x)%Qc else x.

(** [max(a, b)]: the first argument unless the second is strictly larger. *)
Definition py_max2 (a b : Qc) : Qc := if py_lt a b then b else a.

(** [max(l)]: the first maximal element; [ValueError] on an empty list. *)
Definition py_max (l : list Qc) : res Qc :=
  match l with
  | [] => Raise ValueError
  | x :: l' => Ok (foldl py_max2 x l')
  end.

(** [l.index(x)]: the first position holding a value equal to [x]. *)
Fixpoint py_index (x : Qc) (l : list Qc) : res Z :=
  match l with
  | [] => Raise ValueError
  | y :: l' => if py_eq y x then Ok 0 else i ← py_index x l'; Ok (1 + i)
  end.

(** [sum(l)] *)
Definition py_sum (l : list Qc) : Qc := foldl Qcplus 0%Qc l.

(** [x / n] for an integer length [n]. *)
Definition py_div_len (x : Qc) (n : nat) : res Qc :=
  match n with
  | O => Raise ZeroDivisionError
  | S _ => Ok (x / Qc_of_Z (Z.of_nat n))%Qc
  end.

(** [l[i]] with Python's negative indices. *)
Definition py_getitem {A : Type} (l : list A) (i : Z) : res A :=
  let n := Z.of_nat (length l) in
  let j := if i <? 0 then n + i else i in
  if (j <? 0) || (n <=? j) then Raise IndexError
  else match l !! Z.to_nat j with
       | Some x => Ok x
       | None => Raise IndexError
       end.

(** [l[i] = v] with Python's negative indices. *)
Definition py_setitem {A : Type} (l : list A) (i : Z) (v : A) : res (list A) :=
  let n := Z.of_nat (length l) in
  let j := if i <? 0 then n + i else i in
  if (j <? 0) || (n <=? j) then Raise IndexError
  else Ok (<[Z.to_nat j := v]> l).

(** *** Dictionaries *)

Definition dict (K V : Type) : Type := list (K * V).

Section Dict.
Context {K V : Type} `{EqDecision K}.

Fixpoint dict_get (k : K) (d : dict K V) : option V :=
  match d with
  | [] => None
  | (k', v) :: d' => if decide (k' = k) then Some v else dict_get k d'
  end.

(** [d[k] = v]: an existing key keeps its position, a new key goes last. *)
Fixpoint dict_set (k : K) (v : V) (d : dict K V) : dict K V :=
  match d with
  | [] => [(k, v)]
  | (k', v') :: d' =>
      if decide (k' = k) then (k', v) :: d' else (k', v') :: dict_set k v d'
  end.

(** [d[k]] *)
Definition dict_getitem (k : K) (d : dict K V) : res V :=
  match dict_get k d with
  | Some v => Ok v
  | None => Raise KeyError
  end.

Definition dict_values (d : dict K V) : list V := map snd d.
End Dict.

(** *** Stateful computations that may raise *)

Definition M (S A : Type) : Type := S -> res A * S.

Definition ret {S A : Type} (a : A) : M S A := fun s => (Ok a, s).

Definition bind {S A B : Type} (m : M S A) (k : A -> M S B) : M S B :=
  fun s =>
    match m s with
    | (Ok a, s') => k a s'
    | (Raise e, s') => (Raise e, s')
    | (OutOfFuel, s') => (OutOfFuel, s')
    end.

Notation "x <- m ; k" := (bind m (fun x => k))
  (at level 20, m at level 100, k at level 200, only parsing).
Notation "' pat <- m ; k" := (bind m (fun x => match x with pat => k end))
  (at level 20, pat pattern, m at level 100, k at level 200, only parsing).
Notation "'do' m ; k" := (bind m (fun _ => k))
  (at level 20, m at level 100, k at level 200, only parsing).

Definition raise {S A : Type} (e : exn) : M S A := fun s => (Raise e, s).
Definition out_of_fuel {S A : Type} : M S A := fun s => (OutOfFuel, s).
Definition get {S : Type} : M S S := fun s => (Ok s, s).
Definition put {S : Type} (s : S) : M S unit := fun _ => (Ok tt, s).
Definition lift {S A : Type} (r : res A) : M S A := fun s => (r, s).

(** Run a computation on the first or the second component of a pair. *)
Definition on_fst {S T A : Type} (m : M S A) : M (S * T) A :=
  fun st => let '(r, s') := m st.1 in (r, (s', st.2)).
Definition on_snd {S T A : Type} (m : M T A) : M (S * T) A :=
  fun st => let '(r, t') := m st.2 in (r, (st.1, t')).

(** *** The [random] module *)

Record Rng : Type := { tape : nat -> N; cursor : nat }.

Definition draw : M Rng N :=
  fun g => (Ok (tape g (cursor g)), {| tape := tape g; cursor := S (cursor g) |}).

(** [random.random()]: a 53-bit fraction in [0, 1). *)
Definition random_random : M Rng Qc :=
  r <- draw ; ret (Q2Qc (Z.of_N (r mod 2 ^ 53)%N # 2 ^ 53)).

(** [random.randint(a, b)]: uniform in [a, b]; [ValueError] on an empty range. *)
Definition random_randint (a b : Z) : M Rng Z :=
  if b <? a then raise ValueError
  else r <- draw ; ret (a + Z.of_N r mod (b - a + 1)).

(** [random.choice(l)]: [IndexError] on an empty list. *)
Definition random_choice {A : Type} (l : list A) : M Rng A :=
  match l with
  | [] => raise IndexError
  | _ :: _ => r <- draw ; lift (py_getitem l (Z.of_N r mod Z.of_nat (length l)))
  end.

(** ** The [MDP] interface

    [reset] and [step] act on the environment object and, for [step], on the
    random generator. *)

Class MDP (Env State : Type) : Type := {
  mdp_state_eq :: EqDecision State;
  get_allowed_states_and_actions : Env -> res (list State * list Z);
  get_terminal_states : Env -> list State;
  get_transition_prob : Env -> State -> Z -> State -> res Qc;
  get_reward : Env -> State -> Z -> State -> Qc;
  reset : M Env (State * Qc * bool);
  step : Z -> M (Env * Rng) (State * Qc * bool)
}.

(** ** [class TomAndJerry(MDP)] *)

Module TomAndJerry.

Definition State : Type := Z * Z.

(** [self.tom], [self.cheeze], [self.traps] and [self.allowed_actions] are
    assigned once in [__init__] and never again: they are constants here,
    and the object is its one mutable attribute. *)
Record t : Type := { jerry : State }.

Definition tom : State := (1, 3).
Definition cheeze : State := (2, 3).
Definition traps : list State := [(2, 2); (3, 0)].
(** [set([0,1,2,3])]; [list(...)] of it enumerates in increasing order. *)
Definition allowed_actions : list Z := [0; 1; 2; 3].

Definition init : t := {| jerry := (0, 0) |}.

Definition get_allowed_states_and_actions (self : t) : res (list State * list Z) :=
  let allowed_states :=
    foldl (fun acc r =>
      foldl (fun acc c =>
        if bool_decide ((r, c) ∉ traps) then acc ++ [(r, c)] else acc)
        acc (seqZ 0 4))
      [] (seqZ 0 4) in
  Ok (allowed_states, allowed_actions).

Definition get_terminal_states (self : t) : list State := [tom; cheeze].

Definition dx : list Z := [-1; 0; 1; 0].
Definition dy : list Z := [0; 1; 0; -1].

(** [0 <= new_x <= 3 and 0 <= new_y <= 3] *)
Definition in_grid (x y : Z) : bool :=
  (0 <=? x) && (x <=? 3) && (0 <=? y) && (y <=? 3).

Definition get_transition_prob (self : t) (state : State) (action : Z)
    (next_state : State) : res Qc :=
  if (state.1 <? 0) || (state.1 >? 3) || (state.2 <? 0) || (state.2 >? 3)
  then Ok 0%Qc
  else if bool_decide (action ∉ allowed_actions) then Ok 0%Qc
  else if bool_decide (state ∈ get_terminal_states self) then Ok 0%Qc
  else
    let possible_actions :=
      (if action mod 2 =? 0 then [1; 3] else [0; 2]) ++ [action] in
    possible_next_states ←
      for_each possible_actions [] (fun possible_next_states a =>
        ddx ← py_getitem dx a;
        ddy ← py_getitem dy a;
        let new_x := state.1 + ddx in
        let new_y := state.2 + ddy in
        if bool_decide ((new_x, new_y) ∉ traps) && in_grid new_x new_y
        then Ok (possible_next_states ++ [(new_x, new_y)])
        else Ok possible_next_states);
    if bool_decide (next_state ∈ possible_next_states)
    then Ok (Q2Qc (1 # 3))
    else Ok 0%Qc.

Definition get_reward (self : t) (state : State) (action : Z)
    (next_state : State) : Qc :=
  if bool_decide (next_state = tom) then (- 1)%Qc
  else if bool_decide (next_state = cheeze) then 1%Qc
  else 0%Qc.

Definition reset : M t (State * Qc * bool) :=
  do put {| jerry := (0, 0) |} ;
  self <- get ;
  ret (jerry self, 0%Qc, false).

Definition step (action : Z) : M (t * Rng) (State * Qc * bool) :=
  if bool_decide (action ∉ allowed_actions) then raise InvalidAction else
  self <- on_fst get ;
  if bool_decide (jerry self ∈ get_terminal_states self)
  then ret (jerry self, 0%Qc, true) else
  action <- (if action mod 2 =? 0
             then on_snd (random_choice ([action] ++ [1; 3]))
             else on_snd (random_choice ([action] ++ [0; 2]))) ;
  ddx <- lift (py_getitem dx action) ;
  ddy <- lift (py_getitem dy action) ;
  let new_x := (jerry self).1 + ddx in
  let new_y := (jerry self).2 + ddy in
  let reward := 0%Qc in
  let episode_end := false in
  if bool_decide ((new_x, new_y) ∉ traps) && in_grid new_x new_y
  then
    let reward :=
      (reward + get_reward self (jerry self) action (new_x, new_y))%Qc in
    do on_fst (put {| jerry := (new_x, new_y) |}) ;
    let episode_end :=
      if bool_decide (reward ≠ 0%Qc) then true else episode_end in
    self <- on_fst get ;
    ret (jerry self, reward, episode_end)
  else ret (jerry self, reward, episode_end).

End TomAndJerry.

#[global] Instance TomAndJerry_mdp : MDP TomAndJerry.t TomAndJerry.State := {|
  get_allowed_states_and_actions := TomAndJerry.get_allowed_states_and_actions;
  get_terminal_states := TomAndJerry.get_terminal_states;
  get_transition_prob := TomAndJerry.get_transition_prob;
  get_reward := TomAndJerry.get_reward;
  reset := TomAndJerry.reset;
  step := TomAndJerry.step
|}.

(** ** [class BitStrings(MDP)] *)

(** [s[i]] on a string, with Python's negative indices. *)
Definition py_str_getitem (s : string) (i : Z) : res ascii :=
  let n := Z.of_nat (String.length s) in
  let j := if i <? 0 then n + i else i in
  if (j <? 0) || (n <=? j) then Raise IndexError
  else match String.get (Z.to_nat j) s with
       | Some c => Ok c
       | None => Raise IndexError
       end.

(** [s[i:j]] for [0 <= i] and [0 <= j], clamped to the string as Python does. *)
Definition py_slice (s : string) (i j : Z) : string :=
  String.substring (Z.to_nat i) (Z.to_nat (j - i)) s.

(** [s[i:]] for [0 <= i]. *)
Definition py_slice_from (s : string) (i : Z) : string :=
  String.substring (Z.to_nat i) (String.length s - Z.to_nat i) s.

(** [int(c)] on a one-character string: a decimal digit, else [ValueError]. *)
Definition py_int (c : ascii) : res Z :=
  let n := Z.of_nat (nat_of_ascii c) in
  if (48 <=? n) && (n <=? 57) then Ok (n - 48) else Raise ValueError.

(** [str(z)] *)
Definition py_str (z : Z) : string := NilZero.string_of_int (Z.to_int z).

Module BitStrings.

Definition State : Type := string.

(** The two lists of terminal states are assigned once in [__init__];
    [self.state] is the one mutable attribute. *)
Record t : Type := { state : State }.

Definition positive_terminal_states : list State := ["010101010"; "101010101"]%string.
Definition negative_terminal_states : list State := ["111111111"]%string.

Definition init : t := {| state := "000000000"%string |}.

(** The recursion of [__generate_allowed_states] is bounded by [depth]
    nested calls; the accumulator list is passed and returned. *)
Fixpoint generate_allowed_states (depth : nat) (state : string)
    (allowed_states : list State) : res (list State) :=
  match depth with
  | O => OutOfFuel
  | S depth' =>
      if Nat.eqb (String.length state) 9
      then Ok (allowed_states ++ [state])
      else
        allowed_states ← generate_allowed_states depth' (state ++ "1")%string allowed_states;
        generate_allowed_states depth' (state ++ "0")%string allowed_states
  end.

(** Ten nested calls reach every string of length nine from the empty one. *)
Definition get_allowed_states_and_actions (self : t) : res (list State * list Z) :=
  allowed_states ← generate_allowed_states 10 EmptyString [];
  let allowed_actions := seqZ 0 9 in
  Ok (allowed_states, allowed_actions).

Definition get_terminal_states (self : t) : list State :=
  positive_terminal_states ++ negative_terminal_states.

(** [state[0:action] + str(1 - int(state[action])) + state[action+1:]] *)
Definition flip (state : string) (action : Z) : res string :=
  c ← py_str_getitem state action;
  bit ← py_int c;
  let new_bit_value := 1 - bit in
  Ok (py_slice state 0 action ++ py_str new_bit_value
        ++ py_slice_from state (action + 1))%string.

Definition get_transition_prob (self : t) (state : State) (action : Z)
    (next_state : State) : res Qc :=
  if (action <? 0) || (action >? 8) then Ok 0%Qc
  else if bool_decide (state ∈ get_terminal_states self) then Ok 0%Qc
  else
    let possible_next_states : list State := [] in
    s1 ← flip state action;
    let possible_next_states := possible_next_states ++ [s1] in
    possible_next_states ←
      (if action <? 8
       then let action := action + 1 in
            s2 ← flip state action;
            Ok (possible_next_states ++ [s2])
       else Ok possible_next_states);
    if bool_decide (next_state ∈ possible_next_states)
    then Ok (Q2Qc (1 # 2))
    else Ok 0%Qc.

Definition get_reward (self : t) (state : State) (action : Z)
    (next_state : State) : Qc :=
  if bool_decide (next_state ∈ negative_terminal_states) then (- 2)%Qc
  else if bool_decide (next_state ∈ positive_terminal_states) then 1%Qc
  else 0%Qc.

Definition reset : M t (State * Qc * bool) :=
  do put {| state := "000000000"%string |} ;
  self <- get ;
  ret (state self, 0%Qc, false).

Definition step (action : Z) : M (t * Rng) (State * Qc * bool) :=
  if (action <? 0) || (action >? 8) then raise InvalidAction else
  self <- on_fst get ;
  if bool_decide (state self ∈ get_terminal_states self)
  then ret (state self, 0%Qc, true) else
  action <- (if action <? 8
             then on_snd (random_choice [action; action + 1])
             else ret action) ;
  next_state <- lift (flip (state self) action) ;
  let reward := get_reward self (state self) action next_state in
  do on_fst (put {| state := next_state |}) ;
  let episode_end := false in
  let episode_end := if bool_decide (reward ≠ 0%Qc) then true else episode_end in
  self <- on_fst get ;
  ret (state self, reward, episode_end).

End BitStrings.

#[global] Instance BitStrings_mdp : MDP BitStrings.t BitStrings.State := {|
  get_allowed_states_and_actions := BitStrings.get_allowed_states_and_actions;
  get_terminal_states := BitStrings.get_terminal_states;
  get_transition_prob := BitStrings.get_transition_prob;
  get_reward := BitStrings.get_reward;
  reset := BitStrings.reset;
  step := BitStrings.step
|}.

(** ** [class ValueIteration] *)

Module ValueIteration.
Section Solver.
Context {Env State : Type} `{MDP Env State}.

Record t : Type := {
mdp : Env;
gamma : Qc;
eps : Qc;
V : dict State Qc;
policy : dict State Z;
allowed_states : list State;
allowed_actions : list Z
}.

(** [self.V = V'] and [self.policy = p'] *)
Definition with_V (self : t) (V' : dict State Qc) : t :=
{| mdp := mdp self; gamma := gamma self; eps := eps self; V := V';
   policy := policy self; allowed_states := allowed_states self;
   allowed_actions := allowed_actions self |}.
Definition with_policy (self : t) (p' : dict State Z) : t :=
{| mdp := mdp self; gamma := gamma self; eps := eps self; V := V self;
   policy := p'; allowed_states := allowed_states self;
   allowed_actions := allowed_actions self |}.

Definition __init__ (mdp : Env) (gamma epsilon : Qc) : res t :=
'(allowed_states, allowed_actions) ← get_allowed_states_and_actions mdp;
let V := foldl (fun V s => dict_set s 0%Qc V) [] allowed_states in
Ok {| mdp := mdp; gamma := gamma; eps := epsilon; V := V; policy := [];
      allowed_states := allowed_states; allowed_actions := allowed_actions |}.

Definition __get_mean_V (self : t) : res Qc :=
py_div_len (py_sum (dict_values (V self))) (length (V self)).

Definition __Q (self : t) (s : State) (a : Z) : res Qc :=
for_each (allowed_states self) 0%Qc (fun Q_s_a s_prime =>
  p ← get_transition_prob (mdp self) s a s_prime;
  let r := get_reward (mdp self) s a s_prime in
  v ← dict_getitem s_prime (V self);
  Ok (Q_s_a + p * (r + gamma self * v))%Qc).

(** One pass of [for s in self.allowed_states] inside the [while] loop;
  returns the object and [delta]. *)
Definition sweep (self : t) : res (t * Qc) :=
for_each (allowed_states self) (self, 0%Qc) (fun '(self, delta) s =>
  old_v ← dict_getitem s (V self);
  Q_s ← comprehension (__Q self s) (allowed_actions self);
  m ← py_max Q_s;
  let self := with_V self (dict_set s m (V self)) in
  v ← dict_getitem s (V self);
  Ok (self, py_max2 delta (py_abs (old_v - v)%Qc))).

(** The [while True] loop, at most [fuel] sweeps. *)
Fixpoint loop (fuel : nat) (self : t) (mean_state_values : list Qc)
  : res (t * list Qc) :=
match fuel with
| O => OutOfFuel
| S fuel' =>
    '(self, delta) ← sweep self;
    m ← __get_mean_V self;
    let mean_state_values := mean_state_values ++ [m] in
    if py_lt delta (eps self) then Ok (self, mean_state_values)
    else loop fuel' self mean_state_values
end.

(** [Q_s = [...]; self.policy[s] = Q_s.index(max(Q_s))] for every state. *)
Definition derive_policy (self : t) : res t :=
for_each (allowed_states self) self (fun self s =>
  Q_s ← comprehension (__Q self s) (allowed_actions self);
  m ← py_max Q_s;
  i ← py_index m Q_s;
  Ok (with_policy self (dict_set s i (policy self)))).

Definition __call__ (fuel : nat) (self : t) : res (t * (dict State Z * list Qc)) :=
m0 ← __get_mean_V self;
let mean_state_values := [m0] in
'(self, mean_state_values) ← loop fuel self mean_state_values;
self ← derive_policy self;
Ok (self, (policy self, mean_state_values)).

End Solver.
Arguments t : clear implicits.
End ValueIteration.

(** ** [class PolicyIteration] *)

Module PolicyIteration.
Section Solver.
Context {Env State : Type} `{MDP Env State}.

Record t : Type := {
mdp : Env;
gamma : Qc;
eps : Qc;
allowed_states : list State;
allowed_actions : list Z;
V : dict State Qc;
policy : dict State Z
}.

Definition with_V (self : t) (V' : dict State Qc) : t :=
{| mdp := mdp self; gamma := gamma self; eps := eps self;
   allowed_states := allowed_states self;
   allowed_actions := allowed_actions self; V := V'; policy := policy self |}.
Definition with_policy (self : t) (p' : dict State Z) : t :=
{| mdp := mdp self; gamma := gamma self; eps := eps self;
   allowed_states := allowed_states self;
   allowed_actions := allowed_actions self; V := V self; policy := p' |}.

(** The constructor draws the initial policy from the [random] module. *)
Definition __init__ (mdp : Env) (gamma epsilon : Qc) : M Rng t :=
'(allowed_states, allowed_actions) <- lift (get_allowed_states_and_actions mdp) ;
let self := {| mdp := mdp; gamma := gamma; eps := epsilon;
               allowed_states := allowed_states;
               allowed_actions := allowed_actions; V := []; policy := [] |} in
(fix init_policy (l : list State) (self : t) : M Rng t :=
   match l with
   | [] => ret self
   | s :: l' =>
       a <- random_choice (allowed_actions) ;
       init_policy l' (with_policy self (dict_set s a (policy self)))
   end) allowed_states self.

Definition __Q (self : t) (s : State) (a : Z) : res Qc :=
for_each (allowed_states self) 0%Qc (fun Q_s_a s_prime =>
  p ← get_transition_prob (mdp self) s a s_prime;
  let r := get_reward (mdp self) s a s_prime in
  v ← dict_getitem s_prime (V self);
  Ok (Q_s_a + p * (r + gamma self * v))%Qc).

(** One pass of [for s in self.allowed_states] of [__evaluate_policy]. *)
Definition evaluate_sweep (self : t) : res (t * Qc) :=
for_each (allowed_states self) (self, 0%Qc) (fun '(self, delta) s =>
  old_v ← dict_getitem s (V self);
  a ← dict_getitem s (policy self);
  q ← __Q self s a;
  let self := with_V self (dict_set s q (V self)) in
  v ← dict_getitem s (V self);
  Ok (self, py_max2 delta (py_abs (old_v - v)%Qc))).

Fixpoint evaluate_loop (fuel : nat) (self : t) : res t :=
match fuel with
| O => OutOfFuel
| S fuel' =>
    '(self, delta) ← evaluate_sweep self;
    if py_lt delta (eps self) then Ok self else evaluate_loop fuel' self
end.

Definition __evaluate_policy (fuel : nat) (self : t) : res t :=
let self :=
  foldl (fun self s => with_V self (dict_set s 0%Qc (V self)))
        self (allowed_states self) in
evaluate_loop fuel self.

Definition __policy_update (self : t) : res (t * Qc) :=
let total_policy_change := 0 in
'(self, total_policy_change) ←
  for_each (allowed_states self) (self, total_policy_change)
    (fun '(self, total_policy_change) s =>
      old_a ← dict_getitem s (policy self);
      Q_s ← comprehension (__Q self s) (allowed_actions self);
      m ← py_max Q_s;
      i ← py_index m Q_s;
      let self := with_policy self (dict_set s i (policy self)) in
      new_a ← dict_getitem s (policy self);
      Ok (self, total_policy_change + Z.abs (old_a - new_a)));
mean ← py_div_len (Qc_of_Z total_policy_change) (length (allowed_states self));
Ok (self, mean).

(** The outer [while True] loop: at most [fuel] rounds, each evaluation
  with at most [fuel] sweeps. *)
Fixpoint loop (fuel rounds : nat) (self : t) (mean_policy_changes : list Qc)
  : res (t * list Qc) :=
match rounds with
| O => OutOfFuel
| S rounds' =>
    self ← __evaluate_policy fuel self;
    '(self, mean_change) ← __policy_update self;
    let mean_policy_changes := mean_policy_changes ++ [mean_change] in
    if py_eq mean_change 0%Qc then Ok (self, mean_policy_changes)
    else loop fuel rounds' self mean_policy_changes
end.

Definition __call__ (fuel : nat) (self : t)
  : res (t * (dict State Z * list Qc * dict State Qc)) :=
let mean_policy_changes := [] in
'(self, mean_policy_changes) ← loop fuel fuel self mean_policy_changes;
Ok (self, (policy self, mean_policy_changes, V self)).

End Solver.
Arguments t : clear implicits.
End PolicyIteration.

(** ** [class QLearning] *)

Module QLearning.
Section Solver.
Context {Env State : Type} `{MDP Env State}.

Record t : Type := {
mdp : Env;
alpha : Qc;
gamma : Qc;
eps : Qc;
Q : dict State (list Qc);
allowed_states : list State;
allowed_actions : list Z
}.

Definition with_mdp (self : t) (e : Env) : t :=
{| mdp := e; alpha := alpha self; gamma := gamma self; eps := eps self;
   Q := Q self; allowed_states := allowed_states self;
   allowed_actions := allowed_actions self |}.
Definition with_eps (self : t) (e : Qc) : t :=
{| mdp := mdp self; alpha := alpha self; gamma := gamma self; eps := e;
   Q := Q self; allowed_states := allowed_states self;
   allowed_actions := allowed_actions self |}.
Definition with_Q (self : t) (Q' : dict State (list Qc)) : t :=
{| mdp := mdp self; alpha := alpha self; gamma := gamma self; eps := eps self;
   Q := Q'; allowed_states := allowed_states self;
   allowed_actions := allowed_actions self |}.

Definition __init__ (mdp : Env) (alpha gamma eps : Qc) : res t :=
'(allowed_states, allowed_actions) ← get_allowed_states_and_actions mdp;
let Q := foldl (fun Q s => dict_set s (replicate (length allowed_actions) 0%Qc) Q)
               [] allowed_states in
Ok {| mdp := mdp; alpha := alpha; gamma := gamma; eps := eps; Q := Q;
      allowed_states := allowed_states; allowed_actions := allowed_actions |}.

(** The solver object together with the [random] module. *)
Definition world : Type := t * Rng.

(** [self.mdp.reset()] and [self.mdp.step(a)] on the environment the
  solver holds. *)
Definition mdp_reset : M world (State * Qc * bool) :=
fun w =>
  let '(r, e) := reset (mdp w.1) in (r, (with_mdp w.1 e, w.2)).
Definition mdp_step (a : Z) : M world (State * Qc * bool) :=
fun w =>
  let '(r, (e, g)) := step a (mdp w.1, w.2) in (r, (with_mdp w.1 e, g)).

Definition __select_action (s : State) : M world Z :=
p <- on_snd random_random ;
self <- on_fst get ;
if py_lt p (eps self)
then on_snd (random_randint 0 (Z.of_nat (length (allowed_actions self)) - 1))
else
  row <- lift (dict_getitem s (Q self)) ;
  m <- lift (py_max row) ;
  lift (py_index m row).

Definition __get_V (self : t) : res (dict State Qc) :=
for_each (allowed_states self) [] (fun V s =>
  row ← dict_getitem s (Q self);
  m ← py_max row;
  Ok (dict_set s m V)).

(** [sum(self.__get_V().values())/len(self.allowed_states)] *)
Definition mean_V (self : t) : res Qc :=
V ← __get_V self;
py_div_len (py_sum (dict_values V)) (length (allowed_states self)).

(** [self.Q[s][a] = self.Q[s][a]
    + self.alpha * (r + self.gamma * max(self.Q[s_prime]) - self.Q[s][a])] *)
Definition td_update (self : t) (s : State) (a : Z) (s_prime : State) (r : Qc)
  : res t :=
row ← dict_getitem s (Q self);
q ← py_getitem row a;
row' ← dict_getitem s_prime (Q self);
m ← py_max row';
row ← dict_getitem s (Q self);
q' ← py_getitem row a;
let v := (q + alpha self * (r + gamma self * m - q'))%Qc in
row ← dict_getitem s (Q self);
row ← py_setitem row a v;
Ok (with_Q self (dict_set s row (Q self))).

(** The body of [while not episode_end]. *)
Definition transition (s : State) (mean_state_values : list Qc)
  : M world (State * bool * list Qc) :=
a <- __select_action s ;
'(s_prime, r, episode_end) <- mdp_step a ;
self <- on_fst get ;
self <- lift (td_update self s a s_prime r) ;
do on_fst (put self) ;
let s := s_prime in
m <- lift (mean_V self) ;
ret (s, episode_end, mean_state_values ++ [m]).

(** [while not episode_end], at most [fuel] transitions. *)
Fixpoint episode (fuel : nat) (s : State) (episode_end : bool)
  (mean_state_values : list Qc) : M world (list Qc) :=
if episode_end then ret mean_state_values
else match fuel with
     | O => out_of_fuel
     | S fuel' =>
         '(s, episode_end, mean_state_values) <- transition s mean_state_values ;
         episode fuel' s episode_end mean_state_values
     end.

(** [for episode in range(num_episodes)] *)
Fixpoint episodes (fuel : nat) (range : list Z) (mean_state_values : list Qc)
  : M world (list Qc) :=
match range with
| [] => ret mean_state_values
| _ :: range' =>
    self <- on_fst get ;
    do on_fst (put (with_eps self (Q2Qc (9995 # 10000) * eps self)%Qc)) ;
    '(s, _, episode_end) <- mdp_reset ;
    mean_state_values <- episode fuel s episode_end mean_state_values ;
    episodes fuel range' mean_state_values
end.

Definition derive_policy (self : t) : res (dict State Z) :=
for_each (allowed_states self) [] (fun policy s =>
  row ← dict_getitem s (Q self);
  m ← py_max row;
  i ← py_index m row;
  Ok (dict_set s i policy)).

Definition __call__ (fuel : nat) (num_episodes : Z)
  : M world (dict State Z * list Qc) :=
self <- on_fst get ;
m0 <- lift (mean_V self) ;
let mean_state_values := [m0] in
mean_state_values <- episodes fuel (seqZ 0 num_episodes) mean_state_values ;
self <- on_fst get ;
policy <- lift (derive_policy self) ;
ret (policy, mean_state_values).

End Solver.
Arguments t : clear implicits.
Arguments world : clear implicits.
End QLearning.

(** ** Vocabulary of the properties *)

(** The declared allowed states and actions of an environment. *)
Definition declared_states {Env State : Type} `{MDP Env State} (e : Env) : list State :=
  match get_allowed_states_and_actions e with
  | Ok (sts, _) => sts
  | _ => []
  end.
Definition declared_actions {Env State : Type} `{MDP Env State} (e : Env) : list Z :=
  match get_allowed_states_and_actions e with
  | Ok (_, acts) => acts
  | _ => []
  end.

(** The sum of [get_transition_prob(state, action, s')] over every allowed
    state [s']. *)
Definition transition_prob_sum {Env State : Type} `{MDP Env State}
    (e : Env) (state : State) (action : Z) : res Qc :=
  '(sts, _) ← get_allowed_states_and_actions e;
  for_each sts 0%Qc (fun acc next_state =>
    p ← get_transition_prob e state action next_state;
    Ok (acc + p)%Qc).

(** The states an environment object can be in: the constructed object, and
    what [reset] and [step] leave behind (whatever [step] returned). *)
Inductive reachable {Env State : Type} `{MDP Env State} (init : Env) : Env -> Prop :=
  | reachable_init : reachable init init
  | reachable_reset (e : Env) :
      reachable init e -> reachable init (reset e).2
  | reachable_step (e : Env) (a : Z) (g : Rng) :
      reachable init e -> reachable init (step a (e, g)).2.1.

(** [step] called once for each action of a list, in order; the results are
    collected. *)
Fixpoint step_each {Env State : Type} `{MDP Env State} (l : list Z) (w : Env * Rng)
    : list (res (State * Qc * bool)) * (Env * Rng) :=
  match l with
  | [] => ([], w)
  | a :: l' =>
      let '(r, w') := step a w in
      let '(rs, w'') := step_each l' w' in
      (r :: rs, w'')
  end.

(** [Q(s, a)]: the sum over the allowed states [s'] of
    [P(s, a, s') * (R(s, a, s') + gamma * V(s'))]. *)
Definition action_value {Env State : Type} `{MDP Env State}
    (e : Env) (sts : list State) (gamma : Qc) (V : dict State Qc)
    (s : State) (a : Z) : res Qc :=
  for_each sts 0%Qc (fun acc s_prime =>
    p ← get_transition_prob e s a s_prime;
    v ← dict_getitem s_prime V;
    Ok (acc + p * (get_reward e s a s_prime + gamma * v))%Qc).

(** [i] is the first position of a maximal element of [qs]. *)
Definition first_argmax (qs : list Qc) (i : Z) : Prop :=
  0 <= i /\
  exists q, qs !! Z.to_nat i = Some q /\
    (forall j q', qs !! j = Some q' -> (q' <= q)%Qc) /\
    (forall j q', (j < Z.to_nat i)%nat -> qs !! j = Some q' -> (q' < q)%Qc).

(** Entry [Q(s, k)] of an action-value table. *)
Definition Q_entry {State : Type} `{EqDecision State}
    (Qt : dict State (list Qc)) (s : State) (k : nat) : option Qc :=
  match dict_get s Qt with
  | Some row => row !! k
  | None => None
  end.

(** Every allowed state has an entry in the policy, and it is an allowed
    action. *)
Definition policy_in_actions {State : Type} `{EqDecision State}
    (sts : list State) (acts : list Z) (policy : dict State Z) : Prop :=
  forall s, s ∈ sts -> exists a, dict_get s policy = Some a /\ a ∈ acts.

(** *** An environment that records the calls it receives *)

Module Logged.

Inductive call : Type := ResetCall | StepCall (a : Z).

Record t (Env : Type) : Type := { inner : Env; calls : list call }.
Arguments inner {Env} _.
Arguments calls {Env} _.

Section Wrap.
Context {Env State : Type} `{MDP Env State}.

Definition log (c : call) (e : t Env) : t Env :=
  {| inner := inner e; calls := calls e ++ [c] |}.

Definition logged_reset : M (t Env) (State * Qc * bool) :=
  fun e =>
    let e := log ResetCall e in
    let '(r, i) := reset (inner e) in
    (r, {| inner := i; calls := calls e |}).

Definition logged_step (a : Z) : M (t Env * Rng) (State * Qc * bool) :=
  fun w =>
    let e := log (StepCall a) w.1 in
    let '(r, (i, g)) := step a (inner e, w.2) in
    (r, ({| inner := i; calls := calls e |}, g)).

#[global] Instance mdp : MDP (t Env) State := {|
  get_allowed_states_and_actions e := get_allowed_states_and_actions (inner e);
  get_terminal_states e := get_terminal_states (inner e);
  get_transition_prob e := get_transition_prob (inner e);
  get_reward e := get_reward (inner e);
  reset := logged_reset;
  step := logged_step
|}.
End Wrap.

End Logged.

(** *** Value Iteration: the sweeps of a run *)

Section ValueIterationSweeps.
Context {Env State : Type} `{MDP Env State}.
Import ValueIteration.

(** The object after [k] sweeps. *)
Fixpoint after_sweeps (k : nat) (self : t Env State) : res (t Env State) :=
  match k with
  | O => Ok self
  | S k' => '(self, _) ← sweep self; after_sweeps k' self
  end.

(** The number of sweeps the [while True] loop performs before its [break]. *)
Fixpoint sweeps_performed (fuel : nat) (self : t Env State) : res nat :=
  match fuel with
  | O => OutOfFuel
  | S fuel' =>
      '(self, delta) ← sweep self;
      if py_lt delta (eps self) then Ok 1%nat
      else n ← sweeps_performed fuel' self; Ok (S n)
  end.
End ValueIterationSweeps.

(** *** What Q-Learning needs of an environment

    [Inv] holds of the environment during an episode, [Pre] between episodes;
    [sts] and [acts] are the declared states and actions. *)

Record MDPLaws {Env State : Type} `{MDP Env State}
    (Pre Inv : Env -> Prop) (sts : list State) (acts : list Z) : Prop := {
  law_declared : forall e, get_allowed_states_and_actions e = Ok (sts, acts);
  law_states : sts <> [];
  law_actions : acts <> [];
  law_indices : forall i, 0 <= i < Z.of_nat (length acts) -> i ∈ acts;
  law_inv_pre : forall e, Inv e -> Pre e;
  law_reset : forall e, Pre e ->
    exists s r d e', reset e = (Ok (s, r, d), e') /\ Inv e' /\ s ∈ sts;
  law_step : forall e g a, Inv e -> a ∈ acts ->
    exists s r d e' g', step a (e, g) = (Ok (s, r, d), (e', g')) /\ Inv e' /\ s ∈ sts
}.

(** The solver object is well formed for [sts] and [acts]: one row per
    allowed state, one cell per allowed action. *)
Definition QL_wf {Env State : Type} `{MDP Env State}
    (sts : list State) (acts : list Z) (self : QLearning.t Env State) : Prop :=
  QLearning.allowed_states self = sts /\
  QLearning.allowed_actions self = acts /\
  forall s, s ∈ sts ->
    exists row, dict_get s (QLearning.Q self) = Some row /\ length row = length acts.

(** The declared states and actions of the two environments. *)
Definition TomAndJerry_states : list TomAndJerry.State :=
  declared_states TomAndJerry.init.
Definition BitStrings_states : list BitStrings.State :=
  declared_states BitStrings.init.
Definition BitStrings_actions : list Z := seqZ 0 9.

Definition advance (g : Rng) : Rng := {| tape := tape g; cursor := S (cursor g) |}.

(** What no method of a dynamic-programming solver changes. *)
Definition VI_frame {Env State : Type} (self self' : ValueIteration.t Env State) : Prop :=
  ValueIteration.allowed_states self' = ValueIteration.allowed_states self /\
  ValueIteration.allowed_actions self' = ValueIteration.allowed_actions self.

Definition PI_frame {Env State : Type} (self self' : PolicyIteration.t Env State) : Prop :=
  PolicyIteration.mdp self' = PolicyIteration.mdp self /\
  PolicyIteration.gamma self' = PolicyIteration.gamma self /\
  PolicyIteration.eps self' = PolicyIteration.eps self /\
  PolicyIteration.allowed_states self' = PolicyIteration.allowed_states self /\
  PolicyIteration.allowed_actions self' = PolicyIteration.allowed_actions self.

(** The entry of [s] in [p] is the first position of a maximal [Q(s, a)],
    with [Q] computed from the value function [Vf]. *)
Definition PI_greedy_at {Env State : Type} `{MDP Env State}
    (self : PolicyIteration.t Env State) (Vf : dict State Qc) (p : dict State Z)
    (s : State) : Prop :=
  exists Q_s i,
    comprehension
      (action_value (PolicyIteration.mdp self) (PolicyIteration.allowed_states self)
                    (PolicyIteration.gamma self) Vf s)
      (PolicyIteration.allowed_actions self) = Ok Q_s /\
    dict_get s p = Some i /\ first_argmax Q_s i.

(** The solver and its environment inside an episode and between episodes. *)
Definition QL_during {Env State : Type} `{MDP Env State}
    (sts : list State) (acts : list Z) (Inv : Env -> Prop)
    (w : QLearning.world Env State) : Prop :=
  QL_wf sts acts w.1 /\ Inv (QLearning.mdp w.1).
Definition QL_between {Env State : Type} `{MDP Env State}
    (sts : list State) (acts : list Z) (Pre : Env -> Prop)
    (w : QLearning.world Env State) : Prop :=
  QL_wf sts acts w.1 /\ Pre (QLearning.mdp w.1).

(** The object the Q-Learning constructor builds for [sts] and [acts]. *)
Definition QL_fresh {Env State : Type} `{MDP Env State}
    (sts : list State) (acts : list Z) (e : Env) (alpha gamma eps : Qc)
    : QLearning.t Env State :=
  {| QLearning.mdp := e; QLearning.alpha := alpha; QLearning.gamma := gamma;
     QLearning.eps := eps;
     QLearning.Q :=
       foldl (fun Q s => dict_set s (replicate (length acts) 0%Qc) Q) [] sts;
     QLearning.allowed_states := sts; QLearning.allowed_actions := acts |}.

(** A result that is not a raised exception. *)
Definition never_raises {A : Type} (r : res A) : Prop :=
  match r with
  | Raise _ => False
  | _ => True
  end.

(** Every [step] call in a log was given one of the actions [acts]. *)
Definition steps_within (acts : list Z) (calls : list Logged.call) : Prop :=
  forall a, Logged.StepCall a ∈ calls -> a ∈ acts.

(** *** Concrete inputs *)

Definition tape_zero : Rng := {| tape := fun _ => 0%N; cursor := 0 |}.

(** Draws that take Jerry right, right, right and down into Tom. *)
Definition tape_to_tom : Rng :=
  {| tape := fun n => nth n [0; 1; 0; 0; 1; 0; 0; 1; 0; 0; 2; 0]%N 0%N; cursor := 0 |}.

Definition default_gamma : Qc := Q2Qc (9 # 10).
Definition default_epsilon : Qc := Q2Qc (1 # 10000).
Definition default_alpha : Qc := Q2Qc (1 # 100).

(** ** Vocabulary of the further properties *)

(** A string of the characters ['0'] and ['1'] only. *)
Definition is_bits (s : string) : Prop :=
  Forall (fun c => c = "0"%char \/ c = "1"%char) (list_ascii_of_string s).

(** A generator whose every draw is [k]. *)
Definition tape_const (k : N) : Rng := {| tape := fun _ => k; cursor := 0 |}.

(** [delta] at the end of the sweep that follows the first [k] sweeps of
    Value Iteration. *)
Definition sweep_delta {Env State : Type} `{MDP Env State}
    (k : nat) (self : ValueIteration.t Env State) : res Qc :=
  self_k ← after_sweeps k self;
  '(_, delta) ← ValueIteration.sweep self_k;
  Ok delta.

(** What a sweep of Value Iteration leaves alone. *)
Definition VI_keeps {Env State : Type} (self self' : ValueIteration.t Env State) : Prop :=
  ValueIteration.mdp self' = ValueIteration.mdp self /\
  ValueIteration.gamma self' = ValueIteration.gamma self /\
  ValueIteration.eps self' = ValueIteration.eps self /\
  ValueIteration.policy self' = ValueIteration.policy self /\
  ValueIteration.allowed_states self' = ValueIteration.allowed_states self /\
  ValueIteration.allowed_actions self' = ValueIteration.allowed_actions self.

(** [eps] after [k] executions of [self.eps = 0.9995 * self.eps]. *)
Definition decayed (k : nat) (eps : Qc) : Qc :=
  Nat.iter k (Qcmult (Q2Qc (9995 # 10000))) eps.

(** What a run of Q-Learning leaves alone in the solver object. *)
Definition QL_keeps {Env State : Type}
    (self self' : QLearning.t Env State) : Prop :=
  QLearning.alpha self' = QLearning.alpha self /\
  QLearning.gamma self' = QLearning.gamma self /\
  QLearning.allowed_states self' = QLearning.allowed_states self /\
  QLearning.allowed_actions self' = QLearning.allowed_actions self.

(** The last entry of the sequence of means is the mean of the object's
    current state values. *)
Definition last_is_mean {Env State : Type} `{MDP Env State}
    (msv : list Qc) (self : QLearning.t Env State) : Prop :=
  exists m, last msv = Some m /\ QLearning.mean_V self = Ok m.

(** The numbers of [reset] and of [step] calls in a record of calls. *)
Fixpoint count_resets (calls : list Logged.call) : nat :=
  match calls with
  | [] => 0
  | Logged.ResetCall :: calls' => S (count_resets calls')
  | Logged.StepCall _ :: calls' => count_resets calls'
  end.

Fixpoint count_steps (calls : list Logged.call) : nat :=
  match calls with
  | [] => 0
  | Logged.ResetCall :: calls' => count_steps calls'
  | Logged.StepCall _ :: calls' => S (count_steps calls')
  end.

(** A solver object of Value Iteration set up for the environment [e] with
    the states [sts] and the actions [acts]: [V] has an entry for every
    state. *)
Definition VI_ready {Env State : Type} `{MDP Env State}
    (e : Env) (sts : list State) (acts : list Z)
    (self : ValueIteration.t Env State) : Prop :=
  ValueIteration.mdp self = e /\
  ValueIteration.allowed_states self = sts /\
  ValueIteration.allowed_actions self = acts /\
  forall s, s ∈ sts -> exists v, dict_get s (ValueIteration.V self) = Some v.

(** The same for Policy Iteration: the policy has an entry for every
    state. *)
Definition PI_ready {Env State : Type} `{MDP Env State}
    (e : Env) (sts : list State) (acts : list Z)
    (self : PolicyIteration.t Env State) : Prop :=
  PolicyIteration.mdp self = e /\
  PolicyIteration.allowed_states self = sts /\
  PolicyIteration.allowed_actions self = acts /\
  forall s, s ∈ sts -> exists a, dict_get s (PolicyIteration.policy self) = Some a.

(** [V] has an entry for every allowed state. *)
Definition PI_evaluated {Env State : Type} `{MDP Env State}
    (self : PolicyIteration.t Env State) : Prop :=
  forall s, s ∈ PolicyIteration.allowed_states self ->
    exists v, dict_get s (PolicyIteration.V self) = Some v.

(** A result that is a returned value satisfying [P], or a loop that is
    still running; not a raised exception. *)
Definition returns_or_runs {A : Type} (P : A -> Prop) (r : res A) : Prop :=
  match r with
  | Ok a => P a
  | Raise _ => False
  | OutOfFuel => True
  end.

(** *** Concrete inputs

    A minimal implementation of the [MDP] interface, for runs on
    environments that declare no state or no action: the object is the pair
    of lists it declares, every probability and reward is 0, and an episode
    is over at once. *)
Definition declaring_mdp : MDP (list Z * list Z) Z := {|
  get_allowed_states_and_actions e := Ok e;
  get_terminal_states _ := [];
  get_transition_prob _ _ _ _ := Ok 0%Qc;
  get_reward _ _ _ _ := 0%Qc;
  reset := fun e => (Ok (0, 0%Qc, true), e);
  step _ := fun w => (Ok (0, 0%Qc, true), w)
|}.

(** On the grid, the cell one step from [s] in direction [c] is on the board
    and not a trap: the test of [get_transition_prob] and of [step]. *)
Definition TomAndJerry_open (s : TomAndJerry.State) (c : Z) : bool :=
  match py_getitem TomAndJerry.dx c, py_getitem TomAndJerry.dy c with
  | Ok ddx, Ok ddy =>
      bool_decide ((s.1 + ddx, s.2 + ddy) ∉ TomAndJerry.traps)
      && TomAndJerry.in_grid (s.1 + ddx) (s.2 + ddy)
  | _, _ => false
  end.

(** The directions [get_transition_prob] and [step] consider for an action:
    the two perpendicular ones and the action itself. *)
Definition TomAndJerry_candidates (a : Z) : list Z :=
  (if a mod 2 =? 0 then [1; 3] else [0; 2]) ++ [a].

(** *** Proof automation *)

Ltac run_monad :=
  unfold bind, on_fst, on_snd, get, put, ret, lift, raise, out_of_fuel; simpl.

(** Case analysis on membership in an explicit list. *)
Ltac elem_cases H :=
  repeat first
    [ apply elem_of_cons in H as [-> | H]
    | apply elem_of_nil in H; destruct H ].

(** Closed equations between results that hold rationals. *)
Ltac qc_compute :=
  vm_compute;
  repeat match goal with
         | |- Ok _ = Ok _ => f_equal
         | |- (_, _) = (_, _) => f_equal
         | |- _ :: _ = _ :: _ => f_equal
         end;
  try reflexivity; apply Qc_is_canon; reflexivity.

(** Split a hypothesis [x ← m; k = Ok r] on the result of [m]. *)
Ltac bind_inv H :=
  cbv beta in H;
  repeat match type of H with
         | mbind _ ?m = Ok _ =>
             let E := fresh "E" in
             destruct m eqn:E; cbn [mbind res_bind] in H; try discriminate H
         end.

(** * Properties *)

(** ** The runtime fragment *)

Lemma py_getitem_ok {A : Type} (l : list A) (i : Z) :
  0 <= i < Z.of_nat (length l) ->
  exists x, py_getitem l i = Ok x /\ l !! Z.to_nat i = Some x.
Proof.
  intros Hi. unfold py_getitem.
  destruct (Z.ltb_spec i 0); [lia|].
  destruct (Z.ltb_spec i 0); [lia|].
  destruct (Z.leb_spec (Z.of_nat (length l)) i); [lia|]. simpl.
  destruct (l !! Z.to_nat i) as [x|] eqn:E; [eauto|].
  apply lookup_ge_None in E. lia.
Qed.

Lemma random_choice_spec {A : Type} (l : list A) (g : Rng) :
  l <> [] ->
  exists x, x ∈ l /\ random_choice l g = (Ok x, advance g).
Proof.
  intros Hl. destruct l as [|y l]; [done|].
  unfold random_choice, bind, draw, lift.
  set (i := Z.of_N (tape g (cursor g)) mod Z.of_nat (length (y :: l))).
  destruct (py_getitem_ok (y :: l) i) as (x & Hx & Hlook).
  { subst i. apply Z.mod_pos_bound. simpl. lia. }
  exists x. rewrite Hx. split; [|reflexivity].
  eapply list_elem_of_lookup_2; eauto.
Qed.

(** ** C9, C2: the invalid-action error *)

Lemma TomAndJerry_declared (e : TomAndJerry.t) :
  get_allowed_states_and_actions e
  = Ok (TomAndJerry_states, TomAndJerry.allowed_actions).
Proof. reflexivity. Qed.

Lemma BitStrings_declared (e : BitStrings.t) :
  get_allowed_states_and_actions e = Ok (BitStrings_states, BitStrings_actions).
Proof. vm_compute. reflexivity. Qed.

Lemma TomAndJerry_declared_actions (e : TomAndJerry.t) :
  declared_actions e = TomAndJerry.allowed_actions.
Proof. reflexivity. Qed.

Lemma BitStrings_declared_actions (e : BitStrings.t) :
  declared_actions e = BitStrings_actions.
Proof. unfold declared_actions. rewrite BitStrings_declared. reflexivity. Qed.

Lemma TomAndJerry_step_invalid (e : TomAndJerry.t) (g : Rng) (a : Z) :
  a ∉ TomAndJerry.allowed_actions ->
  TomAndJerry.step a (e, g) = (Raise InvalidAction, (e, g)).
Proof.
  intros Ha. unfold TomAndJerry.step.
  rewrite bool_decide_eq_true_2 by done. reflexivity.
Qed.

Lemma BitStrings_range (a : Z) :
  (a <? 0) || (a >? 8) = false <-> a ∈ BitStrings_actions.
Proof.
  unfold BitStrings_actions. rewrite elem_of_seqZ, orb_false_iff. lia.
Qed.

Lemma BitStrings_step_invalid (e : BitStrings.t) (g : Rng) (a : Z) :
  a ∉ BitStrings_actions ->
  BitStrings.step a (e, g) = (Raise InvalidAction, (e, g)).
Proof.
  intros Ha. unfold BitStrings.step.
  destruct ((a <? 0) || (a >? 8)) eqn:E; [reflexivity|].
  apply BitStrings_range in E. contradiction.
Qed.

(** C9. When [step] is given an action outside the declared action set it
    raises the invalid-action error and leaves the environment object (and
    the random generator) exactly as they were, in both environments. *)
Theorem step_invalid_action_keeps_environment :
  (forall (e : TomAndJerry.t) (g : Rng) (a : Z),
      a ∉ declared_actions e -> step a (e, g) = (Raise InvalidAction, (e, g))) /\
  (forall (e : BitStrings.t) (g : Rng) (a : Z),
      a ∉ declared_actions e -> step a (e, g) = (Raise InvalidAction, (e, g))).
Proof.
  split; intros e g a Ha.
  - apply TomAndJerry_step_invalid. by rewrite <- (TomAndJerry_declared_actions e).
  - apply BitStrings_step_invalid. by rewrite <- (BitStrings_declared_actions e).
Qed.

Lemma step_invalid_action_keeps_environment_witness :
  (7 ∉ declared_actions TomAndJerry.init) /\
  step 7 (TomAndJerry.init, tape_zero)
    = (Raise InvalidAction, (TomAndJerry.init, tape_zero)) /\
  ((-1) ∉ declared_actions {| BitStrings.state := "010000000" |}) /\
  step (-1) ({| BitStrings.state := "010000000" |}, tape_zero)
    = (Raise InvalidAction, ({| BitStrings.state := "010000000" |}, tape_zero)).
Proof.
  assert (H7 : 7 ∉ declared_actions TomAndJerry.init) by compute_done.
  assert (H1 : (-1) ∉ declared_actions {| BitStrings.state := "010000000" |}).
  { rewrite BitStrings_declared_actions. compute_done. }
  split; [exact H7|]. split.
  - exact (proj1 step_invalid_action_keeps_environment _ tape_zero 7 H7).
  - split; [exact H1|].
    exact (proj2 step_invalid_action_keeps_environment _ tape_zero (-1) H1).
Defined.

(** ** The grid environment, step by step *)

Lemma TomAndJerry_step_terminal (e : TomAndJerry.t) (g : Rng) (a : Z) :
  a ∈ TomAndJerry.allowed_actions ->
  TomAndJerry.jerry e ∈ TomAndJerry.get_terminal_states e ->
  TomAndJerry.step a (e, g) = (Ok (TomAndJerry.jerry e, 0%Qc, true), (e, g)).
Proof.
  intros Ha Ht. unfold TomAndJerry.step.
  rewrite bool_decide_eq_false_2 by (intros Hn; contradiction).
  run_monad. rewrite bool_decide_eq_true_2 by done. reflexivity.
Qed.

Lemma TomAndJerry_cell (x y : Z) :
  TomAndJerry.in_grid x y = true -> (x, y) ∉ TomAndJerry.traps ->
  (x, y) ∈ TomAndJerry_states.
Proof.
  unfold TomAndJerry.in_grid. rewrite !andb_true_iff, !Z.leb_le.
  intros [[[Hx0 Hx3] Hy0] Hy3] Htrap.
  assert (Hx : x = 0 \/ x = 1 \/ x = 2 \/ x = 3) by lia.
  assert (Hy : y = 0 \/ y = 1 \/ y = 2 \/ y = 3) by lia.
  destruct Hx as [-> | [-> | [-> | ->]]], Hy as [-> | [-> | [-> | ->]]];
    first [ compute_done | exfalso; apply Htrap; compute_done ].
Qed.

Lemma TomAndJerry_chosen (a : Z) :
  a ∈ TomAndJerry.allowed_actions ->
  forall c, c ∈ (if a mod 2 =? 0 then [a; 1; 3] else [a; 0; 2]) ->
  exists ddx ddy,
    py_getitem TomAndJerry.dx c = Ok ddx /\ py_getitem TomAndJerry.dy c = Ok ddy.
Proof.
  unfold TomAndJerry.allowed_actions. intros Ha c Hc.
  elem_cases Ha; cbn in Hc; elem_cases Hc; vm_compute; eauto.
Qed.

Lemma TomAndJerry_reward_nonzero (e : TomAndJerry.t) (s : TomAndJerry.State)
    (a : Z) (s' : TomAndJerry.State) :
  (0 + TomAndJerry.get_reward e s a s')%Qc <> 0%Qc ->
  s' ∈ TomAndJerry.get_terminal_states e.
Proof.
  rewrite Qcplus_0_l. unfold TomAndJerry.get_reward, TomAndJerry.get_terminal_states.
  repeat case_bool_decide; subst; set_solver.
Qed.

Lemma TomAndJerry_step_valid (e : TomAndJerry.t) (g : Rng) (a : Z) :
  a ∈ TomAndJerry.allowed_actions ->
  exists r d e' g',
    TomAndJerry.step a (e, g) = (Ok (TomAndJerry.jerry e', r, d), (e', g')) /\
    (TomAndJerry.jerry e ∈ TomAndJerry_states ->
     TomAndJerry.jerry e' ∈ TomAndJerry_states) /\
    (d = true -> TomAndJerry.jerry e' ∈ TomAndJerry.get_terminal_states e').
Proof.
  intros Ha.
  destruct (decide (TomAndJerry.jerry e ∈ TomAndJerry.get_terminal_states e)) as [Ht|Ht].
  { rewrite TomAndJerry_step_terminal by done. eauto 10. }
  unfold TomAndJerry.step.
  rewrite bool_decide_eq_false_2 by (intros Hn; contradiction).
  unfold bind at 1. unfold on_fst at 1, get at 1. cbn [fst snd].
  rewrite bool_decide_eq_false_2 by done.
  assert (Hch : exists c,
    c ∈ (if a mod 2 =? 0 then [a; 1; 3] else [a; 0; 2]) /\
    (if a mod 2 =? 0 then on_snd (random_choice ([a] ++ [1; 3]))
     else on_snd (random_choice ([a] ++ [0; 2]))) (e, g) = (Ok c, (e, advance g))).
  { destruct (a mod 2 =? 0); unfold on_snd; cbn [fst snd app];
      [destruct (random_choice_spec [a; 1; 3] g) as (c & Hc & ->); [done|]
      |destruct (random_choice_spec [a; 0; 2] g) as (c & Hc & ->); [done|]];
      eauto. }
  destruct Hch as (c & Hc & Hrun).
  destruct (TomAndJerry_chosen a Ha c Hc) as (ddx & ddy & Hdx & Hdy).
  unfold bind at 1. rewrite Hrun.
  unfold bind at 1, lift at 1. rewrite Hdx.
  unfold bind at 1, lift at 1. rewrite Hdy.
  destruct (bool_decide (((TomAndJerry.jerry e).1 + ddx, (TomAndJerry.jerry e).2 + ddy)
                           ∉ TomAndJerry.traps)
            && TomAndJerry.in_grid ((TomAndJerry.jerry e).1 + ddx)
                                   ((TomAndJerry.jerry e).2 + ddy)) eqn:Hmove.
  - unfold bind, on_fst, put, get, ret. cbn [fst snd].
    do 4 eexists. split; [reflexivity|]. cbn [TomAndJerry.jerry].
    apply andb_true_iff in Hmove as [Htrap Hgrid].
    apply bool_decide_eq_true_1 in Htrap.
    split; [intros _; by apply TomAndJerry_cell|].
    case_bool_decide as Hr; [intros _|discriminate].
    by apply TomAndJerry_reward_nonzero in Hr.
  - unfold ret. do 4 eexists. split; [reflexivity|]. split; [done|discriminate].
Qed.

(** ** The bit-string environment, step by step *)

(** The bound on the recursion depth of [__generate_allowed_states] does not
    matter once it is large enough: ten nested calls suffice. *)
Lemma generate_allowed_states_deeper (depth : nat) (state : string)
    (acc l : list string) :
  BitStrings.generate_allowed_states depth state acc = Ok l ->
  BitStrings.generate_allowed_states (S depth) state acc = Ok l.
Proof.
  revert state acc l. induction depth as [|depth IH]; intros state acc l; [discriminate|].
  intros Hrun. cbn [BitStrings.generate_allowed_states] in Hrun.
  change (BitStrings.generate_allowed_states (S (S depth)) state acc)
    with (if Nat.eqb (String.length state) 9 then Ok (acc ++ [state])
          else acc1 ← BitStrings.generate_allowed_states (S depth) (state ++ "1")%string acc;
               BitStrings.generate_allowed_states (S depth) (state ++ "0")%string acc1).
  destruct (Nat.eqb (String.length state) 9); [exact Hrun|].
  destruct (BitStrings.generate_allowed_states depth (state ++ "1")%string acc)
    as [acc1| |] eqn:E1; try discriminate.
  cbn [mbind res_bind] in Hrun. rewrite (IH _ _ _ E1). cbn [mbind res_bind].
  by apply IH.
Qed.

Lemma generate_allowed_states_enough (k : nat) :
  BitStrings.generate_allowed_states (10 + k) EmptyString [] = Ok BitStrings_states.
Proof.
  induction k as [|k IH].
  - vm_compute. reflexivity.
  - replace (10 + S k)%nat with (S (10 + k)) by lia.
    by apply generate_allowed_states_deeper.
Qed.

(** Every flip of a declared bit string at a declared action succeeds and
    gives a declared bit string: checked by enumeration. *)
Lemma flips_stay_declared :
  forallb (fun s =>
    forallb (fun c =>
      match BitStrings.flip s c with
      | Ok s' => bool_decide (s' ∈ BitStrings_states)
      | _ => false
      end) BitStrings_actions) BitStrings_states = true.
Proof. vm_compute. reflexivity. Qed.

Lemma BitStrings_flip_closed (s : string) (c : Z) :
  s ∈ BitStrings_states -> c ∈ BitStrings_actions ->
  exists s', BitStrings.flip s c = Ok s' /\ s' ∈ BitStrings_states.
Proof.
  intros Hs Hc. pose proof flips_stay_declared as H.
  rewrite forallb_forall in H. apply list_elem_of_In in Hs. specialize (H s Hs).
  cbv beta in H.
  rewrite forallb_forall in H. apply list_elem_of_In in Hc. specialize (H c Hc).
  cbv beta in H.
  destruct (BitStrings.flip s c) as [s'| |]; try discriminate.
  exists s'. split; [reflexivity|]. by apply bool_decide_eq_true_1 in H.
Qed.

Lemma BitStrings_step_terminal (e : BitStrings.t) (g : Rng) (a : Z) :
  a ∈ BitStrings_actions ->
  BitStrings.state e ∈ BitStrings.get_terminal_states e ->
  BitStrings.step a (e, g) = (Ok (BitStrings.state e, 0%Qc, true), (e, g)).
Proof.
  intros Ha Ht. unfold BitStrings.step.
  apply BitStrings_range in Ha. rewrite Ha.
  unfold bind at 1, on_fst at 1, get at 1. cbn [fst snd].
  rewrite bool_decide_eq_true_2 by done. reflexivity.
Qed.

Lemma BitStrings_reward_nonzero (e : BitStrings.t) (s : string) (a : Z) (s' : string) :
  BitStrings.get_reward e s a s' <> 0%Qc ->
  s' ∈ BitStrings.get_terminal_states e.
Proof.
  unfold BitStrings.get_reward, BitStrings.get_terminal_states.
  repeat case_bool_decide; rewrite elem_of_app; auto. done.
Qed.

(** What a call of [step] that returns has done. *)
Lemma BitStrings_step_returns (e : BitStrings.t) (g : Rng) (a : Z)
    (s : string) (r : Qc) (d : bool) (e' : BitStrings.t) (g' : Rng) :
  BitStrings.step a (e, g) = (Ok (s, r, d), (e', g')) ->
  s = BitStrings.state e' /\
  (d = true -> BitStrings.state e' ∈ BitStrings.get_terminal_states e').
Proof.
  unfold BitStrings.step.
  destruct ((a <? 0) || (a >? 8)) eqn:Hrange; [discriminate|].
  unfold bind at 1, on_fst at 1, get at 1. cbn [fst snd].
  case_bool_decide as Ht.
  { unfold ret. intros [= <- <- <- <- <-]. done. }
  assert (Hch : exists c w,
    (if a <? 8 then on_snd (random_choice [a; a + 1]) else ret a) (e, g)
      = (Ok c, (e, w))).
  { destruct (a <? 8); unfold on_snd, ret; cbn [fst snd]; [|eauto].
    destruct (random_choice_spec [a; a + 1] g) as (c & Hc & ->); [done|]. eauto. }
  destruct Hch as (c & w & Hrun).
  unfold bind at 1. rewrite Hrun.
  unfold bind at 1, lift at 1.
  destruct (BitStrings.flip (BitStrings.state e) c) as [next| |]; try discriminate.
  unfold bind, on_fst, put, get, ret. cbn [fst snd].
  intros [= <- <- <- <- <-]. cbn [BitStrings.state]. split; [done|].
  case_bool_decide as Hr; [intros _|discriminate].
  by apply BitStrings_reward_nonzero in Hr.
Qed.

Lemma BitStrings_step_valid (e : BitStrings.t) (g : Rng) (a : Z) :
  a ∈ BitStrings_actions ->
  BitStrings.state e ∈ BitStrings_states ->
  exists r d e' g',
    BitStrings.step a (e, g) = (Ok (BitStrings.state e', r, d), (e', g')) /\
    BitStrings.state e' ∈ BitStrings_states.
Proof.
  intros Ha Hs.
  destruct (decide (BitStrings.state e ∈ BitStrings.get_terminal_states e)) as [Ht|Ht].
  { rewrite BitStrings_step_terminal by done. eauto 10. }
  unfold BitStrings.step.
  pose proof Ha as Hrange. apply BitStrings_range in Hrange. rewrite Hrange.
  unfold bind at 1, on_fst at 1, get at 1. cbn [fst snd].
  rewrite bool_decide_eq_false_2 by done.
  assert (Hch : exists c w, c ∈ BitStrings_actions /\
    (if a <? 8 then on_snd (random_choice [a; a + 1]) else ret a) (e, g)
      = (Ok c, (e, w))).
  { unfold BitStrings_actions in *. rewrite elem_of_seqZ in Ha.
    destruct (Z.ltb_spec a 8); unfold on_snd, ret; cbn [fst snd].
    - destruct (random_choice_spec [a; a + 1] g) as (c & Hc & ->); [done|].
      exists c, (advance g). split; [|done].
      rewrite elem_of_seqZ. elem_cases Hc; lia.
    - exists a, g. split; [|done]. rewrite elem_of_seqZ. lia. }
  destruct Hch as (c & w & Hc & Hrun).
  unfold bind at 1. rewrite Hrun.
  destruct (BitStrings_flip_closed _ c Hs Hc) as (next & Hflip & Hnext).
  unfold bind at 1, lift at 1. rewrite Hflip.
  unfold bind, on_fst, put, get, ret. cbn [fst snd].
  do 4 eexists. split; [reflexivity|]. done.
Qed.

Lemma TomAndJerry_step_returns (e : TomAndJerry.t) (g : Rng) (a : Z)
    (s : TomAndJerry.State) (r : Qc) (d : bool) (e' : TomAndJerry.t) (g' : Rng) :
  TomAndJerry.step a (e, g) = (Ok (s, r, d), (e', g')) ->
  s = TomAndJerry.jerry e' /\
  (d = true -> TomAndJerry.jerry e' ∈ TomAndJerry.get_terminal_states e').
Proof.
  intros Hstep.
  destruct (decide (a ∈ TomAndJerry.allowed_actions)) as [Ha|Ha].
  - destruct (TomAndJerry_step_valid e g a Ha) as (r0 & d0 & e0 & g0 & Heq & _ & Hd).
    rewrite Heq in Hstep. injection Hstep as <- <- <- <- <-. done.
  - rewrite TomAndJerry_step_invalid in Hstep by done. discriminate.
Qed.

Lemma BitStrings_reachable (e : BitStrings.t) :
  reachable BitStrings.init e -> BitStrings.state e ∈ BitStrings_states.
Proof.
  induction 1 as [|e _ IH|e a g _ IH].
  - compute_done.
  - compute_done.
  - destruct (decide (a ∈ BitStrings_actions)) as [Ha|Ha].
    + destruct (BitStrings_step_valid e g a Ha IH) as (r & d & e' & g' & Heq & He').
      change (@step _ _ BitStrings_mdp a (e, g)) with (BitStrings.step a (e, g)).
      rewrite Heq. done.
    + change (@step _ _ BitStrings_mdp a (e, g)) with (BitStrings.step a (e, g)).
      rewrite BitStrings_step_invalid by done. done.
Qed.

(** C2. In both environments, on every state the environment object can
    reach, [step] returns for every declared action and raises the
    invalid-action error for every other action: it raises exactly when the
    action is outside the declared set. *)
Theorem step_raises_exactly_on_undeclared_actions :
  (forall (e : TomAndJerry.t) (g : Rng) (a : Z),
      reachable TomAndJerry.init e ->
      (a ∈ declared_actions e -> exists out, (step a (e, g)).1 = Ok out) /\
      (a ∉ declared_actions e -> (step a (e, g)).1 = Raise InvalidAction)) /\
  (forall (e : BitStrings.t) (g : Rng) (a : Z),
      reachable BitStrings.init e ->
      (a ∈ declared_actions e -> exists out, (step a (e, g)).1 = Ok out) /\
      (a ∉ declared_actions e -> (step a (e, g)).1 = Raise InvalidAction)).
Proof.
  split; intros e g a Hreach.
  - rewrite TomAndJerry_declared_actions. split; intros Ha.
    + destruct (TomAndJerry_step_valid e g a Ha) as (r & d & e' & g' & Heq & _).
      change (@step _ _ TomAndJerry_mdp a (e, g)) with (TomAndJerry.step a (e, g)).
      rewrite Heq. eauto.
    + change (@step _ _ TomAndJerry_mdp a (e, g)) with (TomAndJerry.step a (e, g)).
      by rewrite TomAndJerry_step_invalid.
  - rewrite BitStrings_declared_actions. apply BitStrings_reachable in Hreach.
    split; intros Ha.
    + destruct (BitStrings_step_valid e g a Ha Hreach) as (r & d & e' & g' & Heq & _).
      change (@step _ _ BitStrings_mdp a (e, g)) with (BitStrings.step a (e, g)).
      rewrite Heq. eauto.
    + change (@step _ _ BitStrings_mdp a (e, g)) with (BitStrings.step a (e, g)).
      by rewrite BitStrings_step_invalid.
Qed.

Lemma step_raises_exactly_on_undeclared_actions_witness :
  reachable BitStrings.init (step 3 (BitStrings.init, tape_zero)).2.1 /\
  (exists out, (step 8 ((step 3 (BitStrings.init, tape_zero)).2.1, tape_zero)).1 = Ok out) /\
  (step 9 ((step 3 (BitStrings.init, tape_zero)).2.1, tape_zero)).1 = Raise InvalidAction.
Proof.
  assert (Hreach : reachable BitStrings.init (step 3 (BitStrings.init, tape_zero)).2.1)
    by (apply reachable_step, reachable_init).
  split; [exact Hreach|].
  pose proof (proj2 step_raises_exactly_on_undeclared_actions _ tape_zero 8 Hreach) as H8.
  pose proof (proj2 step_raises_exactly_on_undeclared_actions _ tape_zero 9 Hreach) as H9.
  rewrite BitStrings_declared_actions in H8, H9.
  split; [apply H8|apply H9]; compute_done.
Defined.

(** ** C6: stepping an ended episode *)

Lemma step_each_noop {Env State : Type} `{MDP Env State}
    (acts : list Z) (e : Env) (out : State * Qc * bool) :
  (forall a g, a ∈ acts -> step a (e, g) = (Ok out, (e, g))) ->
  forall (l : list Z) (g : Rng),
    Forall (fun a => a ∈ acts) l ->
    step_each l (e, g) = (replicate (length l) (Ok out), (e, g)).
Proof.
  intros Hnoop l g Hl. induction Hl as [|a l Ha _ IH]; [reflexivity|].
  cbn [step_each length replicate]. rewrite Hnoop by done. rewrite IH. reflexivity.
Qed.

(** C6. In both environments, once a call of [step] has returned
    [done = True] with state [s], every further call with a declared action,
    however many and whatever the random draws, returns [(s, 0, True)] and
    leaves the environment object and the generator untouched. *)
Theorem step_after_done_is_noop :
  (forall (e : TomAndJerry.t) (g : Rng) (a : Z) s r e1 g1,
      step a (e, g) = (Ok (s, r, true), (e1, g1)) ->
      forall (l : list Z) (g' : Rng),
        Forall (fun a' => a' ∈ declared_actions e1) l ->
        step_each l (e1, g') = (replicate (length l) (Ok (s, 0%Qc, true)), (e1, g'))) /\
  (forall (e : BitStrings.t) (g : Rng) (a : Z) s r e1 g1,
      step a (e, g) = (Ok (s, r, true), (e1, g1)) ->
      forall (l : list Z) (g' : Rng),
        Forall (fun a' => a' ∈ declared_actions e1) l ->
        step_each l (e1, g') = (replicate (length l) (Ok (s, 0%Qc, true)), (e1, g'))).
Proof.
  split; intros e g a s r e1 g1 Hstep l g' Hl.
  - apply TomAndJerry_step_returns in Hstep as [-> Hterm].
    apply (step_each_noop (declared_actions e1)); [|done].
    intros a' g2 Ha'. by apply TomAndJerry_step_terminal; [|apply Hterm].
  - apply BitStrings_step_returns in Hstep as [-> Hterm].
    apply (step_each_noop (declared_actions e1)); [|done].
    intros a' g2 Ha'. rewrite BitStrings_declared_actions in Ha'.
    by apply BitStrings_step_terminal; [|apply Hterm].
Qed.

Lemma step_after_done_is_noop_witness :
  step 1 ({| TomAndJerry.jerry := (1, 2) |}, tape_zero)
    = (Ok ((1, 3), (- 1)%Qc, true), ({| TomAndJerry.jerry := (1, 3) |}, advance tape_zero)) /\
  Forall (fun a' => a' ∈ declared_actions {| TomAndJerry.jerry := (1, 3) |}) [2; 0; 3] /\
  step_each [2; 0; 3] ({| TomAndJerry.jerry := (1, 3) |}, tape_to_tom)
    = ([Ok ((1, 3), 0%Qc, true); Ok ((1, 3), 0%Qc, true); Ok ((1, 3), 0%Qc, true)],
       ({| TomAndJerry.jerry := (1, 3) |}, tape_to_tom)).
Proof.
  assert (Hstep : step 1 ({| TomAndJerry.jerry := (1, 2) |}, tape_zero)
    = (Ok ((1, 3), (- 1)%Qc, true), ({| TomAndJerry.jerry := (1, 3) |}, advance tape_zero))).
  { vm_compute. reflexivity. }
  assert (Hl : Forall (fun a' => a' ∈ declared_actions {| TomAndJerry.jerry := (1, 3) |})
                 [2; 0; 3]).
  { repeat constructor; compute_done. }
  split; [exact Hstep|]. split; [exact Hl|].
  exact (proj1 step_after_done_is_noop _ _ _ _ _ _ _ Hstep [2; 0; 3] tape_to_tom Hl).
Defined.

(** ** C1: the transition probabilities of one state and action *)

(** For a terminal state every transition probability is 0, and so is the
    sum: this half of the sentence holds. *)
Lemma transition_prob_sum_zero {Env State : Type} `{MDP Env State}
    (e : Env) (sts : list State) (acts : list Z) (state : State) (action : Z) :
  get_allowed_states_and_actions e = Ok (sts, acts) ->
  (forall next_state, get_transition_prob e state action next_state = Ok 0%Qc) ->
  transition_prob_sum e state action = Ok 0%Qc.
Proof.
  intros He Hzero. unfold transition_prob_sum. rewrite He. cbn [mbind res_bind].
  induction sts as [|s l IH] in |- *; [reflexivity|].
  cbn [for_each]. rewrite Hzero. cbn [mbind res_bind]. rewrite Qcplus_0_r. exact IH.
Qed.

Lemma TomAndJerry_terminal_prob (e : TomAndJerry.t) (state next_state : TomAndJerry.State)
    (action : Z) :
  state ∈ TomAndJerry.get_terminal_states e ->
  TomAndJerry.get_transition_prob e state action next_state = Ok 0%Qc.
Proof.
  intros Ht. unfold TomAndJerry.get_transition_prob.
  destruct ((state.1 <? 0) || (state.1 >? 3) || (state.2 <? 0) || (state.2 >? 3));
    [reflexivity|].
  case_bool_decide; [reflexivity|]. by rewrite bool_decide_eq_true_2.
Qed.

Lemma BitStrings_terminal_prob (e : BitStrings.t) (state next_state : string) (action : Z) :
  state ∈ BitStrings.get_terminal_states e ->
  BitStrings.get_transition_prob e state action next_state = Ok 0%Qc.
Proof.
  intros Ht. unfold BitStrings.get_transition_prob.
  destruct ((action <? 0) || (action >? 8)); [reflexivity|].
  by rewrite bool_decide_eq_true_2.
Qed.

Lemma terminal_transition_prob_sum :
  (forall (e : TomAndJerry.t) state action,
      state ∈ get_terminal_states e -> transition_prob_sum e state action = Ok 0%Qc) /\
  (forall (e : BitStrings.t) state action,
      state ∈ get_terminal_states e -> transition_prob_sum e state action = Ok 0%Qc).
Proof.
  split; intros e state action Ht.
  - eapply transition_prob_sum_zero; [apply TomAndJerry_declared|].
    intros next_state. by apply TomAndJerry_terminal_prob.
  - eapply transition_prob_sum_zero; [apply BitStrings_declared|].
    intros next_state. by apply BitStrings_terminal_prob.
Qed.

(** C1, evaluated where it fails.  From the start state of the grid, action
    1 (right) has probability 1/3 for each of [(1,0)] and [(0,1)] and 0 for
    every other allowed state, [(0,0)] included, so the sum is 2/3; [step]
    does stay at [(0,0)] when the drift upwards is drawn.  In the bit-string
    environment, action 8 on the start state has probability 1/2 for
    ["000000001"] and 0 elsewhere, so the sum is 1/2; [step] flips bit 8
    whatever is drawn. *)
Theorem transition_prob_sum_is_not_one :
  ((0, 0) ∈ declared_states TomAndJerry.init /\
   ((0, 0) ∉ get_terminal_states TomAndJerry.init) /\
   1 ∈ declared_actions TomAndJerry.init /\
   transition_prob_sum TomAndJerry.init (0, 0) 1 = Ok (Q2Qc (2 # 3)) /\
   get_transition_prob TomAndJerry.init (0, 0) 1 (0, 0) = Ok 0%Qc /\
   step 1 (TomAndJerry.init, {| tape := fun _ => 1%N; cursor := 0 |})
     = (Ok ((0, 0), 0%Qc, false),
        (TomAndJerry.init, {| tape := fun _ => 1%N; cursor := 1 |}))) /\
  ("000000000"%string ∈ declared_states BitStrings.init /\
   ("000000000"%string ∉ get_terminal_states BitStrings.init) /\
   8 ∈ declared_actions BitStrings.init /\
   transition_prob_sum BitStrings.init "000000000"%string 8 = Ok (Q2Qc (1 # 2)) /\
   get_transition_prob BitStrings.init "000000000"%string 8 "000000001"%string
     = Ok (Q2Qc (1 # 2)) /\
   forall g : Rng,
     step 8 (BitStrings.init, g)
       = (Ok ("000000001"%string, 0%Qc, false),
          ({| BitStrings.state := "000000001" |}, g))).
Proof.
  split.
  - repeat split; try compute_done; qc_compute.
  - repeat split; try compute_done; try qc_compute.
Qed.

(** ** Dictionaries, [max] and [index] *)

Section DictFacts.
Context {K V : Type} `{EqDecision K}.
Implicit Types (d : dict K V) (k : K) (v : V).

Lemma dict_get_set_eq d k v : dict_get k (dict_set k v d) = Some v.
Proof.
  induction d as [|[k' v'] d IH]; simpl.
  - by rewrite decide_True.
  - destruct (decide (k' = k)) as [->|Hne]; simpl.
    + by rewrite decide_True.
    + by rewrite decide_False.
Qed.

Lemma dict_get_set_ne d k k' v :
  k <> k' -> dict_get k' (dict_set k v d) = dict_get k' d.
Proof.
  intros Hne. induction d as [|[k0 v0] d IH]; simpl.
  - by rewrite decide_False.
  - destruct (decide (k0 = k)) as [->|Hne0]; simpl.
    + by rewrite !decide_False.
    + destruct (decide (k0 = k')); [done|exact IH].
Qed.

Lemma dict_getitem_Ok d k v : dict_getitem k d = Ok v <-> dict_get k d = Some v.
Proof.
  unfold dict_getitem. destruct (dict_get k d); split; congruence.
Qed.

Lemma dict_values_set d k v (P : V -> Prop) :
  Forall P (dict_values d) -> P v -> Forall P (dict_values (dict_set k v d)).
Proof.
  intros Hd Hv. induction d as [|[k' v'] d IH]; simpl.
  - by constructor.
  - inversion Hd; subst. destruct (decide (k' = k)); simpl; constructor; auto.
Qed.

(** The dictionary filled by [for k in l: d[k] = v]. *)
Lemma dict_get_fill_other (l : list K) v d k :
  k ∉ l -> dict_get k (foldl (fun d k => dict_set k v d) d l) = dict_get k d.
Proof.
  revert d. induction l as [|k0 l IH]; intros d Hk; [done|].
  apply not_elem_of_cons in Hk as [Hne Hk]. simpl.
  rewrite IH by done. by apply dict_get_set_ne.
Qed.

Lemma dict_get_fill (l : list K) v d k :
  k ∈ l -> dict_get k (foldl (fun d k => dict_set k v d) d l) = Some v.
Proof.
  revert d. induction l as [|k0 l IH]; intros d Hk; [by apply elem_of_nil in Hk|].
  simpl. destruct (decide (k ∈ l)) as [Hin|Hnin]; [by apply IH|].
  apply elem_of_cons in Hk as [->|]; [|done].
  rewrite dict_get_fill_other by done. apply dict_get_set_eq.
Qed.

Lemma dict_values_fill (l : list K) v d (P : V -> Prop) :
  Forall P (dict_values d) -> P v ->
  Forall P (dict_values (foldl (fun d k => dict_set k v d) d l)).
Proof.
  revert d. induction l as [|k0 l IH]; intros d Hd Hv; [done|].
  simpl. apply IH; [|done]. by apply dict_values_set.
Qed.
End DictFacts.

(** [max] and [index] on lists of numbers. *)

Lemma py_lt_spec (x y : Qc) : py_lt x y = true <-> (x < y)%Qc.
Proof. unfold py_lt. by rewrite bool_decide_eq_true. Qed.

Lemma py_eq_spec (x y : Qc) : py_eq x y = true <-> x = y.
Proof. unfold py_eq. by rewrite bool_decide_eq_true. Qed.

Lemma py_max2_cases (a b : Qc) :
  (py_max2 a b = a /\ (b <= a)%Qc) \/ (py_max2 a b = b /\ (a < b)%Qc).
Proof.
  unfold py_max2. destruct (py_lt a b) eqn:E.
  - right. by apply py_lt_spec in E.
  - left. split; [done|]. apply Qcnot_lt_le. intros Hlt.
    apply py_lt_spec in Hlt. congruence.
Qed.

Lemma foldl_max_spec (l : list Qc) (x : Qc) :
  foldl py_max2 x l ∈ x :: l /\
  forall y, y ∈ x :: l -> (y <= foldl py_max2 x l)%Qc.
Proof.
  revert x. induction l as [|z l IH]; intros x; simpl.
  - split; [by left|]. intros y Hy. apply list_elem_of_singleton in Hy as ->.
    apply Qcle_refl.
  - destruct (IH (py_max2 x z)) as [Hin Hge]. split.
    + apply elem_of_cons in Hin as [Heq|Hin]; [|by do 2 right].
      rewrite Heq. destruct (py_max2_cases x z) as [[-> _]|[-> _]];
        [by left|right; by left].
    + intros y Hy.
      assert (Hxz : (x <= py_max2 x z)%Qc /\ (z <= py_max2 x z)%Qc).
      { destruct (py_max2_cases x z) as [[-> Hle]|[-> Hlt]]; split;
          auto using Qcle_refl, Qclt_le_weak. }
      destruct Hxz as [Hx Hz].
      assert (Hm : (py_max2 x z <= foldl py_max2 (py_max2 x z) l)%Qc)
        by (apply Hge; by left).
      apply elem_of_cons in Hy as [->|Hy]; [by eapply Qcle_trans|].
      apply elem_of_cons in Hy as [->|Hy]; [by eapply Qcle_trans|].
      apply Hge. by right.
Qed.

Lemma py_max_spec (l : list Qc) (m : Qc) :
  py_max l = Ok m -> m ∈ l /\ forall y, y ∈ l -> (y <= m)%Qc.
Proof.
  destruct l as [|x l]; [discriminate|]. intros [= <-]. apply foldl_max_spec.
Qed.

Lemma py_max_nonempty (l : list Qc) : l <> [] -> exists m, py_max l = Ok m.
Proof. destruct l; [done|]. simpl. eauto. Qed.

Lemma py_index_spec (x : Qc) (l : list Qc) (i : Z) :
  py_index x l = Ok i ->
  0 <= i < Z.of_nat (length l) /\ l !! Z.to_nat i = Some x /\
  forall j y, (j < Z.to_nat i)%nat -> l !! j = Some y -> y <> x.
Proof.
  revert i. induction l as [|y l IH]; intros i; simpl; [discriminate|].
  destruct (py_eq y x) eqn:E.
  - intros [= <-]. apply py_eq_spec in E as ->. simpl.
    split; [lia|]. split; [done|]. intros j z Hj. lia.
  - destruct (py_index x l) as [i'| |]; simpl; try discriminate. intros [= <-].
    destruct (IH i' eq_refl) as (Hi & Hlook & Hfirst).
    split; [lia|].
    replace (Z.to_nat (1 + i')) with (S (Z.to_nat i')) by lia. simpl.
    split; [done|]. intros [|j] z Hj; simpl.
    + intros [= <-] Heq. apply py_eq_spec in Heq. congruence.
    + apply Hfirst. lia.
Qed.

Lemma py_index_found (x : Qc) (l : list Qc) :
  x ∈ l -> exists i, py_index x l = Ok i.
Proof.
  induction l as [|y l IH]; intros Hx; [by apply elem_of_nil in Hx|]. simpl.
  destruct (py_eq y x) eqn:E; [eauto|].
  apply elem_of_cons in Hx as [->|Hx].
  - assert (Hyy : py_eq y y = true) by by apply py_eq_spec. congruence.
  - destruct (IH Hx) as [i ->]. simpl. eauto.
Qed.

(** [l.index(max(l))] is the first position of a maximal element. *)
Lemma argmax_first (l : list Qc) (m : Qc) (i : Z) :
  py_max l = Ok m -> py_index m l = Ok i -> first_argmax l i.
Proof.
  intros Hm Hi. apply py_max_spec in Hm as [Hin Hge].
  apply py_index_spec in Hi as (Hi & Hlook & Hfirst).
  split; [lia|]. exists m. split; [done|]. split.
  - intros j q Hq. apply Hge. by eapply list_elem_of_lookup_2.
  - intros j q Hj Hq.
    assert (Hle : (q <= m)%Qc) by (apply Hge; by eapply list_elem_of_lookup_2).
    apply Qcle_lt_or_eq in Hle as [Hlt|Heq]; [exact Hlt|].
    by apply (Hfirst j q Hj) in Hq.
Qed.

Lemma argmax_exists (l : list Qc) :
  l <> [] -> exists m i, py_max l = Ok m /\ py_index m l = Ok i.
Proof.
  intros Hl. destruct (py_max_nonempty l Hl) as [m Hm].
  destruct (py_index_found m l) as [i Hi]; [by apply py_max_spec in Hm as [? _]|].
  eauto.
Qed.

(** Comprehensions and loops. *)

Lemma comprehension_spec {A B : Type} (f : A -> res B) (l : list A) (ys : list B) :
  comprehension f l = Ok ys ->
  length ys = length l /\
  forall j x, l !! j = Some x -> exists y, f x = Ok y /\ ys !! j = Some y.
Proof.
  revert ys. induction l as [|x l IH]; intros ys; simpl.
  - intros [= <-]. split; [done|]. intros j x Hx. by destruct j.
  - destruct (f x) as [y| |] eqn:Ey; simpl; try discriminate.
    destruct (comprehension f l) as [ys'| |]; simpl; try discriminate.
    intros [= <-]. destruct (IH ys' eq_refl) as [Hlen Hall].
    split; [simpl; congruence|]. intros [|j] x' Hx'; simpl in *.
    + injection Hx' as <-. eauto.
    + by apply Hall.
Qed.

Lemma comprehension_ext {A B : Type} (f f' : A -> res B) (l : list A) :
  (forall x, f x = f' x) -> comprehension f l = comprehension f' l.
Proof.
  intros Hf. induction l as [|x l IH]; simpl; [done|]. by rewrite Hf, IH.
Qed.

Lemma for_each_ext {A B : Type} (l : list A) (acc : B) (f f' : B -> A -> res B) :
  (forall b x, f b x = f' b x) -> for_each l acc f = for_each l acc f'.
Proof.
  intros Hf. revert acc. induction l as [|x l IH]; intros acc; simpl; [done|].
  rewrite Hf. destruct (f' acc x); simpl; auto.
Qed.

(** An invariant of a loop that returns holds of what it returns. *)
Lemma for_each_invariant {A B : Type} (I : list A -> B -> Prop)
    (l : list A) (acc : B) (body : B -> A -> res B) (out : B) :
  I [] acc ->
  (forall done x b b', I done b -> body b x = Ok b' -> I (done ++ [x]) b') ->
  for_each l acc body = Ok out ->
  I l out.
Proof.
  intros Hinit Hstep.
  assert (Hgen : forall done acc,
    I done acc -> for_each l acc body = Ok out -> I (done ++ l) out).
  { clear Hinit acc. induction l as [|x l IH]; intros done acc Hacc; simpl.
    - intros [= <-]. by rewrite app_nil_r.
    - destruct (body acc x) as [b'| |] eqn:Eb; simpl; try discriminate.
      intros Hrest. replace (done ++ x :: l) with ((done ++ [x]) ++ l)
        by (by rewrite <- app_assoc).
      eapply IH; [|exact Hrest]. eapply Hstep; eauto. }
  intros Hrun. exact (Hgen [] acc Hinit Hrun).
Qed.

(** ** C3: the mean state values of Value Iteration *)

Section ValueIterationFacts.
Context {Env State : Type} `{MDP Env State}.
Import ValueIteration.
Implicit Types (self : t Env State) (msv : list Qc).

Lemma after_sweeps_S (k : nat) self self1 (delta : Qc) :
  sweep self = Ok (self1, delta) ->
  after_sweeps (S k) self = after_sweeps k self1.
Proof. intros Hs. simpl. rewrite Hs. reflexivity. Qed.

Lemma loop_spec (fuel : nat) self msv self' msv' :
  loop fuel self msv = Ok (self', msv') ->
  exists n : nat,
    sweeps_performed fuel self = Ok n /\
    (1 <= n)%nat /\
    after_sweeps n self = Ok self' /\
    length msv' = (length msv + n)%nat /\
    (forall k, (k < length msv)%nat -> msv' !! k = msv !! k) /\
    (forall k, (1 <= k <= n)%nat ->
       exists self_k m,
         after_sweeps k self = Ok self_k /\
         __get_mean_V self_k = Ok m /\
         msv' !! (length msv + k - 1)%nat = Some m).
Proof.
  revert self msv. induction fuel as [|fuel IH]; intros self msv; [discriminate|].
  cbn [loop sweeps_performed].
  destruct (sweep self) as [[self1 delta]| |] eqn:Hsweep; try discriminate.
  cbn [mbind res_bind].
  destruct (__get_mean_V self1) as [m| |] eqn:Hmean; try discriminate.
  cbn [mbind res_bind].
  destruct (py_lt delta (eps self1)) eqn:Hstop.
  - intros [= <- <-]. exists 1%nat. split; [done|]. split; [lia|].
    split; [by rewrite (after_sweeps_S 0 _ _ _ Hsweep)|].
    split; [rewrite length_app; simpl; lia|].
    split; [intros k Hk; by rewrite lookup_app_l|].
    intros k Hk. assert (k = 1%nat) as -> by lia.
    exists self1, m. split; [by rewrite (after_sweeps_S 0 _ _ _ Hsweep)|].
    split; [done|].
    replace (length msv + 1 - 1)%nat with (length msv) by lia.
    by rewrite lookup_app_r, Nat.sub_diag.
  - intros Hloop.
    destruct (IH _ _ Hloop) as (n & Hn & Hn1 & Hafter & Hlen & Hpre & Hent).
    exists (S n). rewrite Hn. split; [done|]. split; [lia|].
    split; [by rewrite (after_sweeps_S n _ _ _ Hsweep)|].
    rewrite length_app in Hlen, Hpre, Hent. simpl in Hlen, Hpre, Hent.
    split; [lia|].
    split.
    { intros k Hk. rewrite Hpre by lia. by rewrite lookup_app_l. }
    intros k Hk. destruct (decide (k = 1%nat)) as [->|Hk1].
    + exists self1, m. split; [by rewrite (after_sweeps_S 0 _ _ _ Hsweep)|].
      split; [done|].
      replace (length msv + 1 - 1)%nat with (length msv) by lia.
      rewrite Hpre by lia. by rewrite lookup_app_r, Nat.sub_diag.
    + destruct (Hent (k - 1)%nat) as (self_k & mk & Hk_after & Hk_mean & Hk_look);
        [lia|].
      exists self_k, mk. split.
      { replace k with (S (k - 1)) by lia.
        by rewrite (after_sweeps_S _ _ _ _ Hsweep). }
      split; [done|].
      replace (length msv + k - 1)%nat with (length msv + 1 + (k - 1) - 1)%nat by lia.
      done.
Qed.

(** C3, as the code has it.  When Value Iteration returns, its sequence
    of mean state values has one entry more than the sweeps performed:
    entry 0 is the mean of [V] before the first sweep, and entry [k], for
    [k] from 1 to the number of sweeps, is the mean of [V] right after
    sweep [k]. *)
Theorem value_iteration_mean_state_values (fuel : nat) self self'
    (policy : dict State Z) msv :
  __call__ fuel self = Ok (self', (policy, msv)) ->
  exists n : nat,
    sweeps_performed fuel self = Ok n /\
    length msv = S n /\
    forall k, (k <= n)%nat ->
      exists self_k m,
        after_sweeps k self = Ok self_k /\
        __get_mean_V self_k = Ok m /\
        msv !! k = Some m.
Proof.
  unfold __call__.
  destruct (__get_mean_V self) as [m0| |] eqn:Hm0; try discriminate.
  cbn [mbind res_bind].
  destruct (loop fuel self [m0]) as [[self1 msv1]| |] eqn:Hloop; try discriminate.
  cbn [mbind res_bind].
  destruct (derive_policy self1) as [self2| |]; try discriminate.
  cbn [mbind res_bind]. intros [= <- <- <-].
  destruct (loop_spec _ _ _ _ _ Hloop) as (n & Hn & Hn1 & Hafter & Hlen & Hpre & Hent).
  exists n. split; [done|]. simpl in Hlen. split; [lia|].
  intros k Hk. destruct k as [|k].
  - exists self, m0. split; [done|]. split; [done|].
    rewrite Hpre by (simpl; lia). done.
  - destruct (Hent (S k)) as (self_k & m & H1 & H2 & H3); [lia|].
    exists self_k, m. split; [done|]. split; [done|].
    replace (length [m0] + S k - 1)%nat with (S k) in H3 by (simpl; lia). done.
Qed.
End ValueIterationFacts.

Lemma value_iteration_mean_state_values_witness :
  exists self,
    ValueIteration.__init__ TomAndJerry.init default_gamma default_epsilon = Ok self /\
    exists self' policy msv,
      ValueIteration.__call__ 20 self = Ok (self', (policy, msv)) /\
      exists n : nat,
        sweeps_performed 20 self = Ok n /\
        length msv = S n /\
        forall k, (k <= n)%nat ->
          exists self_k m,
            after_sweeps k self = Ok self_k /\
            ValueIteration.__get_mean_V self_k = Ok m /\
            msv !! k = Some m.
Proof.
  eexists. split; [vm_compute; reflexivity|].
  do 3 eexists.
  match goal with
  | |- ?lhs = ?rhs /\ _ => assert (Hcall : lhs = rhs) by (vm_compute; reflexivity)
  end.
  split; [exact Hcall|].
  exact (value_iteration_mean_state_values _ _ _ _ _ Hcall).
Defined.

(** The sentence as written fails.  On the grid with [gamma = 0.9] and
    [epsilon = 1] the first sweep changes only [V((3,3))], from 0 to 1/3, so
    the loop stops after one sweep; the sequence has the two entries 0 (the
    mean before the sweep) and 1/42 (the mean after it). *)
Lemma value_iteration_has_one_more_entry :
  exists self self' policy msv,
    ValueIteration.__init__ TomAndJerry.init default_gamma 1%Qc = Ok self /\
    ValueIteration.__call__ 5 self = Ok (self', (policy, msv)) /\
    sweeps_performed 5 self = Ok 1%nat /\
    msv = [0%Qc; Q2Qc (1 # 42)] /\
    length msv <> 1%nat.
Proof.
  do 4 eexists. split; [vm_compute; reflexivity|].
  split; [vm_compute; reflexivity|].
  split; [vm_compute; reflexivity|].
  split; [|vm_compute; discriminate].
  repeat f_equal; apply Qc_is_canon; reflexivity.
Qed.

(** ** C4: the policy of Policy Iteration *)

Section PolicyIterationFacts.
Context {Env State : Type} `{MDP Env State}.
Import PolicyIteration.
Implicit Types (self : t Env State).

Lemma Q_is_action_value self s a :
  __Q self s a
  = action_value (mdp self) (allowed_states self) (gamma self) (V self) s a.
Proof. reflexivity. Qed.

Lemma evaluate_sweep_frame self self' delta :
  evaluate_sweep self = Ok (self', delta) -> PI_frame self self'.
Proof.
  unfold evaluate_sweep. intros Hrun.
  apply (for_each_invariant (fun _ b => PI_frame self b.1)) in Hrun; [exact Hrun|done|].
  intros _ s [self1 d1] [self2 d2] Hf Hbody. cbn [fst] in *.
  bind_inv Hbody. injection Hbody as <- _. exact Hf.
Qed.

Lemma evaluate_loop_frame (fuel : nat) self self' :
  evaluate_loop fuel self = Ok self' -> PI_frame self self'.
Proof.
  revert self. induction fuel as [|fuel IH]; intros self; [discriminate|].
  cbn [evaluate_loop]. intros Hrun. bind_inv Hrun. destruct a as [self1 delta].
  apply evaluate_sweep_frame in E.
  destruct (py_lt delta (eps self1)).
  - injection Hrun as <-. exact E.
  - apply IH in Hrun. unfold PI_frame in *. intuition congruence.
Qed.

Lemma evaluate_policy_frame (fuel : nat) self self' :
  __evaluate_policy fuel self = Ok self' -> PI_frame self self'.
Proof.
  unfold __evaluate_policy. intros Hrun. apply evaluate_loop_frame in Hrun.
  assert (Hfill : forall l self0,
    PI_frame self0 (foldl (fun self s => with_V self (dict_set s 0%Qc (V self))) self0 l)).
  { induction l as [|s l IH]; intros self0; simpl; [done|].
    specialize (IH (with_V self0 (dict_set s 0%Qc (V self0)))).
    unfold PI_frame in *. simpl in IH. exact IH. }
  specialize (Hfill (allowed_states self) self).
  unfold PI_frame in *. intuition congruence.
Qed.

Lemma policy_update_spec self self' (mean : Qc) :
  __policy_update self = Ok (self', mean) ->
  PI_frame self self' /\ V self' = V self /\
  forall s, s ∈ allowed_states self -> PI_greedy_at self (V self) (policy self') s.
Proof.
  unfold __policy_update. intros Hrun. bind_inv Hrun. destruct a as [self1 total].
  bind_inv Hrun. injection Hrun as <- _.
  apply (for_each_invariant (fun done b =>
    PI_frame self b.1 /\ V b.1 = V self /\
    forall s, s ∈ done -> PI_greedy_at self (V self) (policy b.1) s)) in E.
  - cbn [fst] in E. destruct E as (Hf & HV & Hg). split; [done|]. split; [done|].
    exact Hg.
  - split; [done|]. split; [done|]. intros s Hs. by apply elem_of_nil in Hs.
  - intros done s [selfa ta] [selfb tb] (Hf & HV & Hg) Hbody. cbn [fst] in *.
    bind_inv Hbody. injection Hbody as <- _. cbn [policy V with_policy].
    rename a1 into Q_s, a2 into m, a3 into i, E2 into HQ, E3 into Hmax, E4 into Hi.
    split; [exact Hf|]. split; [exact HV|].
    intros s' Hs'. destruct (decide (s = s')) as [<-|Hne].
    + exists Q_s, i. split.
      * destruct Hf as (Hm & Hg' & _ & Hs & Ha).
        rewrite <- Ha, <- Hm, <- Hg', <- Hs, <- HV. exact HQ.
      * split; [apply dict_get_set_eq|]. by eapply argmax_first.
    + unfold PI_greedy_at in *. rewrite dict_get_set_ne by done. apply Hg.
      apply elem_of_app in Hs' as [Hs'|Hs']; [done|].
      apply list_elem_of_singleton in Hs'. congruence.
Qed.

(** The last round of the outer loop. *)
Lemma loop_last_round (fuel rounds : nat) self (mpc : list Qc) self' mpc' :
  loop fuel rounds self mpc = Ok (self', mpc') ->
  exists self0 self1 mean,
    PI_frame self self0 /\
    __evaluate_policy fuel self0 = Ok self1 /\
    __policy_update self1 = Ok (self', mean) /\ mean = 0%Qc.
Proof.
  revert self mpc. induction rounds as [|rounds IH]; intros self mpc; [discriminate|].
  cbn [loop]. intros Hrun. bind_inv Hrun. destruct a0 as [self2 mean].
  destruct (py_eq mean 0%Qc) eqn:Hstop.
  - injection Hrun as <- _. apply py_eq_spec in Hstop.
    exists self, a, mean. done.
  - destruct (IH _ _ Hrun) as (self0 & self1 & mean' & Hf & Hrest).
    exists self0, self1, mean'. split; [|exact Hrest].
    apply evaluate_policy_frame in E. apply policy_update_spec in E0 as [E0 _].
    unfold PI_frame in *. intuition congruence.
Qed.

(** C4. When Policy Iteration returns, the returned value function is the
    one its last evaluation pass left, and for every allowed state the
    returned policy holds the first action at which [Q(s, a)], computed
    from that value function, is maximal.  The declared actions are
    [0 .. n-1], as in both environments, so that positions are actions. *)
Theorem policy_iteration_policy_is_greedy (fuel : nat) self self'
    (pol : dict State Z) (changes : list Qc) (Vret : dict State Qc) (n : Z) :
  allowed_actions self = seqZ 0 n ->
  __call__ fuel self = Ok (self', (pol, changes, Vret)) ->
  (exists self0 self1 mean,
     __evaluate_policy fuel self0 = Ok self1 /\ V self1 = Vret /\
     __policy_update self1 = Ok (self', mean) /\ pol = policy self') /\
  forall s, s ∈ allowed_states self ->
    exists a q,
      dict_get s pol = Some a /\ a ∈ allowed_actions self /\
      action_value (mdp self) (allowed_states self) (gamma self) Vret s a = Ok q /\
      forall a', a' ∈ allowed_actions self ->
        exists q',
          action_value (mdp self) (allowed_states self) (gamma self) Vret s a' = Ok q' /\
          (q' <= q)%Qc /\ (a' < a -> (q' < q)%Qc).
Proof.
  intros Hacts. unfold __call__. intros Hrun. bind_inv Hrun.
  destruct a as [self2 mpc]. injection Hrun as <- <- <- <-.
  destruct (loop_last_round _ _ _ _ _ _ E) as (self0 & self1 & mean & Hf0 & Hev & Hup & _).
  pose proof (evaluate_policy_frame _ _ _ Hev) as Hf1.
  destruct (policy_update_spec _ _ _ Hup) as (Hf2 & HV & Hg).
  split; [exists self0, self1, mean; done|].
  assert (Hm : mdp self1 = mdp self) by (unfold PI_frame in *; intuition congruence).
  assert (Hga : gamma self1 = gamma self) by (unfold PI_frame in *; intuition congruence).
  assert (Hst : allowed_states self1 = allowed_states self)
    by (unfold PI_frame in *; intuition congruence).
  assert (Hac : allowed_actions self1 = seqZ 0 n)
    by (unfold PI_frame in *; intuition congruence).
  intros s Hs. rewrite <- Hst in Hs.
  destruct (Hg s Hs) as (Q_s & i & Hcomp & Hget & Hi0 & q & Hq & Hmax & Hfirst).
  rewrite Hm, Hga, Hst, Hac in Hcomp. rewrite HV.
  apply comprehension_spec in Hcomp as [Hlen Hall].
  assert (Hin : Z.of_nat (Z.to_nat i) < n).
  { apply lookup_lt_Some in Hq. rewrite Hlen, length_seqZ in Hq. lia. }
  exists i, q. split; [done|]. rewrite Hacts.
  split; [apply elem_of_seqZ; lia|]. split.
  - destruct (Hall (Z.to_nat i) i) as (y & Hy & Hylook).
    { rewrite lookup_seqZ. lia. }
    congruence.
  - intros a' Ha'. apply elem_of_seqZ in Ha'.
    destruct (Hall (Z.to_nat a') a') as (y & Hy & Hylook).
    { rewrite lookup_seqZ. lia. }
    exists y. split; [done|]. split; [by eapply Hmax|].
    intros Hlt. eapply Hfirst; [|exact Hylook]. lia.
Qed.
End PolicyIterationFacts.

(** ** C5: policies hold declared actions *)

(** The position of a maximal element is within the list. *)
Lemma argmax_index_bounds {A : Type} (f : A -> res Qc) (l : list A)
    (Q_s : list Qc) (m : Qc) (i : Z) :
  comprehension f l = Ok Q_s -> py_max Q_s = Ok m -> py_index m Q_s = Ok i ->
  0 <= i < Z.of_nat (length l).
Proof.
  intros Hc _ Hi. apply comprehension_spec in Hc as [Hlen _].
  apply py_index_spec in Hi as [Hi _]. lia.
Qed.

Section ValueIterationPolicy.
Context {Env State : Type} `{MDP Env State}.
Import ValueIteration.
Implicit Types (self : t Env State).

Lemma init_declared (e : Env) (gamma epsilon : Qc) self :
  __init__ e gamma epsilon = Ok self ->
  get_allowed_states_and_actions e = Ok (allowed_states self, allowed_actions self).
Proof.
  unfold __init__. intros Hrun. bind_inv Hrun. destruct a as [sts acts].
  by injection Hrun as <-.
Qed.

Lemma sweep_frame self self' (delta : Qc) :
  sweep self = Ok (self', delta) -> VI_frame self self'.
Proof.
  unfold sweep. intros Hrun.
  apply (for_each_invariant (fun _ b => VI_frame self b.1)) in Hrun; [exact Hrun|done|].
  intros _ s [self1 d1] [self2 d2] Hf Hbody. cbn [fst] in *.
  bind_inv Hbody. injection Hbody as <- _. exact Hf.
Qed.

Lemma loop_frame (fuel : nat) self (msv : list Qc) self' msv' :
  loop fuel self msv = Ok (self', msv') -> VI_frame self self'.
Proof.
  revert self msv. induction fuel as [|fuel IH]; intros self msv; [discriminate|].
  cbn [loop]. intros Hrun. bind_inv Hrun. destruct a as [self1 delta].
  bind_inv Hrun. apply sweep_frame in E. destruct (py_lt delta (eps self1)).
  - by injection Hrun as <- _.
  - apply IH in Hrun. unfold VI_frame in *. intuition congruence.
Qed.

Lemma derive_policy_spec self self' :
  derive_policy self = Ok self' ->
  forall s, s ∈ allowed_states self ->
    exists i, dict_get s (policy self') = Some i /\
              0 <= i < Z.of_nat (length (allowed_actions self)).
Proof.
  unfold derive_policy. intros Hrun.
  apply (for_each_invariant (fun done b =>
    VI_frame self b /\
    forall s, s ∈ done ->
      exists i, dict_get s (policy b) = Some i /\
                0 <= i < Z.of_nat (length (allowed_actions self)))) in Hrun.
  - exact (proj2 Hrun).
  - split; [done|]. intros s Hs. by apply elem_of_nil in Hs.
  - intros done s selfa selfb [Hf Hdone] Hbody. bind_inv Hbody.
    injection Hbody as <-. split; [exact Hf|]. cbn [policy with_policy].
    intros s' Hs'. destruct (decide (s = s')) as [<-|Hne].
    + exists a1. split; [apply dict_get_set_eq|].
      rewrite <- (proj2 Hf). by eapply argmax_index_bounds.
    + rewrite dict_get_set_ne by done. apply Hdone.
      apply elem_of_app in Hs' as [Hs'|Hs']; [done|].
      apply list_elem_of_singleton in Hs'. congruence.
Qed.

Lemma value_iteration_policy_indices (fuel : nat) self self'
    (pol : dict State Z) (msv : list Qc) :
  __call__ fuel self = Ok (self', (pol, msv)) ->
  forall s, s ∈ allowed_states self ->
    exists i, dict_get s pol = Some i /\
              0 <= i < Z.of_nat (length (allowed_actions self)).
Proof.
  unfold __call__. intros Hrun. bind_inv Hrun. destruct a0 as [self1 msv1].
  bind_inv Hrun. injection Hrun as <- <- <-.
  apply loop_frame in E0 as [Hst Hac]. rewrite <- Hst, <- Hac.
  by apply derive_policy_spec.
Qed.
End ValueIterationPolicy.

Section PolicyIterationPolicy.
Context {Env State : Type} `{MDP Env State}.
Import PolicyIteration.
Implicit Types (self : t Env State).

Lemma PolicyIteration_init_declared (e : Env) (gamma epsilon : Qc) (g g' : Rng) self :
  __init__ e gamma epsilon g = (Ok self, g') ->
  get_allowed_states_and_actions e = Ok (allowed_states self, allowed_actions self).
Proof.
  unfold __init__, bind, lift.
  destruct (get_allowed_states_and_actions e) as [[sts acts]| |]; try discriminate.
  set (self0 := {| mdp := e; gamma := gamma; eps := epsilon; allowed_states := sts;
                   allowed_actions := acts; V := []; policy := [] |}).
  assert (Hgen : forall l selfa g,
    allowed_states selfa = sts -> allowed_actions selfa = acts ->
    (fix init_policy (l : list State) (self : t Env State) {struct l} : M Rng (t Env State) :=
       match l with
       | [] => ret self
       | s :: l' =>
           fun s0 : Rng =>
             match random_choice acts s0 with
             | (Ok a, s') =>
                 init_policy l' (with_policy self (dict_set s a (policy self))) s'
             | (Raise e0, s') => (Raise e0, s')
             | (OutOfFuel, s') => (OutOfFuel, s')
             end
       end) l selfa g = (Ok self, g') ->
    allowed_states self = sts /\ allowed_actions self = acts).
  { induction l as [|s l IH]; intros selfa g0 Hs Ha.
    - unfold ret. by intros [= <- _].
    - destruct (random_choice acts g0) as [[a| |] g1]; try discriminate.
      apply IH; done. }
  intros Hrun. apply Hgen in Hrun as [-> ->]; done.
Qed.

Lemma policy_iteration_policy_indices (fuel : nat) self self'
    (pol : dict State Z) (changes : list Qc) (Vret : dict State Qc) :
  __call__ fuel self = Ok (self', (pol, changes, Vret)) ->
  forall s, s ∈ allowed_states self ->
    exists i, dict_get s pol = Some i /\
              0 <= i < Z.of_nat (length (allowed_actions self)).
Proof.
  unfold __call__. intros Hrun. bind_inv Hrun.
  destruct a as [self2 mpc]. injection Hrun as <- <- <- <-.
  destruct (loop_last_round _ _ _ _ _ _ E) as (self0 & self1 & mean & Hf0 & Hev & Hup & _).
  apply evaluate_policy_frame in Hev.
  destruct (policy_update_spec _ _ _ Hup) as (_ & _ & Hg).
  assert (Hst : allowed_states self1 = allowed_states self)
    by (unfold PI_frame in *; intuition congruence).
  assert (Hac : allowed_actions self1 = allowed_actions self)
    by (unfold PI_frame in *; intuition congruence).
  intros s Hs. rewrite <- Hst in Hs.
  destruct (Hg s Hs) as (Q_s & i & Hcomp & Hget & Hi0 & q & Hq & _).
  exists i. split; [done|].
  apply comprehension_spec in Hcomp as [Hlen _].
  apply lookup_lt_Some in Hq. rewrite Hlen, Hac in Hq. lia.
Qed.
End PolicyIterationPolicy.

(** ** Q-Learning: one transition *)

Lemma bind_Ok {S A B : Type} (m : M S A) (k : A -> M S B) (w w1 : S) (a : A) :
  m w = (Ok a, w1) -> bind m k w = k a w1.
Proof. intros Hm. unfold bind. by rewrite Hm. Qed.

Lemma bind_Ok_inv {S A B : Type} (m : M S A) (k : A -> M S B) (w w' : S) (r : B) :
  bind m k w = (Ok r, w') ->
  exists a w1, m w = (Ok a, w1) /\ k a w1 = (Ok r, w').
Proof.
  unfold bind. destruct (m w) as [[a| |] w1]; try discriminate. eauto.
Qed.

Lemma lift_Ok_inv {S A : Type} (r : res A) (w w' : S) (a : A) :
  lift r w = (Ok a, w') -> r = Ok a /\ w' = w.
Proof. unfold lift. by intros [= -> ->]. Qed.

Lemma py_getitem_nonneg {A : Type} (l : list A) (i : Z) (x : A) :
  0 <= i -> py_getitem l i = Ok x -> l !! Z.to_nat i = Some x.
Proof.
  intros Hi. unfold py_getitem. destruct (Z.ltb_spec i 0); [lia|].
  destruct ((i <? 0) || (Z.of_nat (length l) <=? i)); [discriminate|].
  destruct (l !! Z.to_nat i); [|discriminate]. by intros [= ->].
Qed.

Lemma py_setitem_nonneg {A : Type} (l l' : list A) (i : Z) (x : A) :
  0 <= i -> py_setitem l i x = Ok l' ->
  l' = <[Z.to_nat i := x]> l /\ (Z.to_nat i < length l)%nat.
Proof.
  intros Hi. unfold py_setitem. destruct (Z.ltb_spec i 0); [lia|].
  destruct (Z.ltb_spec i 0); [lia|].
  destruct (Z.leb_spec (Z.of_nat (length l)) i); simpl; [discriminate|].
  intros [= <-]. split; [done|lia].
Qed.

Lemma py_setitem_ok {A : Type} (l : list A) (i : Z) (x : A) :
  0 <= i < Z.of_nat (length l) -> py_setitem l i x = Ok (<[Z.to_nat i := x]> l).
Proof.
  intros Hi. unfold py_setitem. destruct (Z.ltb_spec i 0); [lia|].
  destruct (Z.ltb_spec i 0); [lia|].
  destruct (Z.leb_spec (Z.of_nat (length l)) i); [lia|]. reflexivity.
Qed.

Section QLearningFacts.
Context {Env State : Type} `{MDP Env State}.
Import QLearning.
Implicit Types (self : t Env State) (g : Rng) (s : State).

(** [__select_action] leaves the solver object alone and returns an index
    that is not negative. *)
Lemma select_action_inv s self g (a : Z) (w : world Env State) :
  __select_action s (self, g) = (Ok a, w) ->
  w.1 = self /\ 0 <= a.
Proof.
  unfold __select_action. intros Hrun.
  apply bind_Ok_inv in Hrun as (p & w1 & Hp & Hrun).
  unfold on_snd, random_random, bind, draw, ret in Hp. cbn [fst snd] in Hp.
  injection Hp as <- <-.
  apply bind_Ok_inv in Hrun as (self1 & w2 & Hget & Hrun).
  unfold on_fst, get in Hget. cbn [fst snd] in Hget. injection Hget as <- <-.
  destruct (py_lt _ (eps self)).
  - unfold on_snd, random_randint in Hrun. cbn [fst snd] in Hrun.
    destruct (Z.ltb_spec (Z.of_nat (length (allowed_actions self)) - 1) 0);
      [discriminate|].
    unfold bind, draw, ret in Hrun. cbn [fst snd] in Hrun.
    injection Hrun as <- <-. split; [done|].
    pose proof (Z.mod_pos_bound (Z.of_N (tape g (S (cursor g))))
                  (Z.of_nat (length (allowed_actions self)) - 1 - 0 + 1)).
    lia.
  - apply bind_Ok_inv in Hrun as (row & w3 & Hrow & Hrun).
    apply lift_Ok_inv in Hrow as [Hrow ->].
    apply bind_Ok_inv in Hrun as (m & w4 & Hm & Hrun).
    apply lift_Ok_inv in Hm as [Hm ->].
    apply lift_Ok_inv in Hrun as [Hi ->].
    split; [done|]. apply py_index_spec in Hi. lia.
Qed.

Lemma td_update_inv self s (a : Z) (s_prime : State) (r : Qc) self' :
  0 <= a ->
  td_update self s a s_prime r = Ok self' ->
  exists row q row' m,
    dict_get s (Q self) = Some row /\ row !! Z.to_nat a = Some q /\
    dict_get s_prime (Q self) = Some row' /\ py_max row' = Ok m /\
    self' = with_Q self
              (dict_set s (<[Z.to_nat a := (q + alpha self * (r + gamma self * m - q))%Qc]> row)
                        (Q self)).
Proof.
  intros Ha. unfold td_update. intros Hrun. bind_inv Hrun.
  rename a0 into row, a1 into q, a2 into row', a3 into m.
  apply dict_getitem_Ok in E, E1.
  apply py_getitem_nonneg in E0; [|done].
  apply py_setitem_nonneg in E3 as [-> _]; [|done].
  injection Hrun as <-. exists row, q, row', m. done.
Qed.

(** What one iteration of the [while] loop that completes has done. *)
Lemma transition_inv s (msv : list Qc) self g (s2 : State) (d : bool)
    (msv' : list Qc) self' g' :
  transition s msv (self, g) = (Ok (s2, d, msv'), (self', g')) ->
  exists (a : Z) (r : Qc) (g1 : Rng) (e1 : Env) row q row' m mv,
    __select_action s (self, g) = (Ok a, (self, g1)) /\
    step a (mdp self, g1) = (Ok (s2, r, d), (e1, g')) /\
    0 <= a /\
    dict_get s (Q self) = Some row /\ row !! Z.to_nat a = Some q /\
    dict_get s2 (Q self) = Some row' /\ py_max row' = Ok m /\
    self' = with_Q (with_mdp self e1)
              (dict_set s (<[Z.to_nat a := (q + alpha self * (r + gamma self * m - q))%Qc]> row)
                        (Q self)) /\
    mean_V self' = Ok mv /\ msv' = msv ++ [mv].
Proof.
  unfold transition. intros Hrun.
  apply bind_Ok_inv in Hrun as (a & [self1 g1] & Hsel & Hrun).
  destruct (select_action_inv _ _ _ _ _ Hsel) as [Hself Ha]. cbn [fst] in Hself.
  subst self1.
  apply bind_Ok_inv in Hrun as ([[s_prime r] episode_end] & [self2 g2] & Hstep & Hrun).
  unfold mdp_step in Hstep. cbn [fst snd] in Hstep.
  destruct (step a (mdp self, g1)) as [out [e1 g3]] eqn:Hst.
  injection Hstep as -> <- <-.
  apply bind_Ok_inv in Hrun as (self3 & w3 & Hget & Hrun).
  unfold on_fst, get in Hget. cbn [fst snd] in Hget. injection Hget as <- <-.
  apply bind_Ok_inv in Hrun as (self4 & w4 & Htd & Hrun).
  apply lift_Ok_inv in Htd as [Htd ->].
  apply bind_Ok_inv in Hrun as ([] & w5 & Hput & Hrun).
  unfold on_fst, put in Hput. cbn [fst snd] in Hput. injection Hput as <-.
  apply bind_Ok_inv in Hrun as (mv & w6 & Hmean & Hrun).
  apply lift_Ok_inv in Hmean as [Hmean ->].
  unfold ret in Hrun. injection Hrun as <- <- <- <- <-.
  apply td_update_inv in Htd as (row & q & row' & m & Hrow & Hq & Hrow' & Hm & ->);
    [|done].
  exists a, r, g1, e1, row, q, row', m, mv. done.
Qed.

Lemma Q_entry_update (Qt : dict State (list Qc)) s (k : nat) (row : list Qc) (v : Qc) :
  dict_get s Qt = Some row -> (k < length row)%nat ->
  Q_entry (dict_set s (<[k := v]> row) Qt) s k = Some v /\
  forall s0 k0, s0 <> s \/ k0 <> k ->
    Q_entry (dict_set s (<[k := v]> row) Qt) s0 k0 = Q_entry Qt s0 k0.
Proof.
  intros Hrow Hk. unfold Q_entry. split.
  - rewrite dict_get_set_eq. by apply list_lookup_insert_eq.
  - intros s0 k0 Hne. destruct (decide (s = s0)) as [<-|Hs].
    + rewrite dict_get_set_eq, Hrow. destruct Hne as [|Hk0]; [done|].
      by apply list_lookup_insert_ne.
    + by rewrite dict_get_set_ne.
Qed.

(** C8. On every transition the loop observes, from state [s] with the
    selected action [a], the returned next state [s2] and reward [r], the
    table after the iteration holds
    [Q(s,a) + alpha * (r + gamma * max(Q(s2,.)) - Q(s,a))] at [(s, a)],
    computed from the table before it, and every other entry is as
    before. *)
Theorem q_learning_td_update s (msv : list Qc) self g (s2 : State) (d : bool)
    (msv' : list Qc) self' g' :
  transition s msv (self, g) = (Ok (s2, d, msv'), (self', g')) ->
  exists (a : Z) (r : Qc) (g1 : Rng) (e1 : Env) (q m : Qc) (row' : list Qc),
    __select_action s (self, g) = (Ok a, (self, g1)) /\
    step a (mdp self, g1) = (Ok (s2, r, d), (e1, g')) /\
    0 <= a /\
    Q_entry (Q self) s (Z.to_nat a) = Some q /\
    dict_get s2 (Q self) = Some row' /\ py_max row' = Ok m /\
    Q_entry (Q self') s (Z.to_nat a)
      = Some (q + alpha self * (r + gamma self * m - q))%Qc /\
    forall s0 k, s0 <> s \/ k <> Z.to_nat a ->
      Q_entry (Q self') s0 k = Q_entry (Q self) s0 k.
Proof.
  intros Hrun.
  apply transition_inv in Hrun
    as (a & r & g1 & e1 & row & q & row' & m & mv & Hsel & Hstep & Ha & Hrow & Hq
        & Hrow' & Hm & -> & _).
  exists a, r, g1, e1, q, m, row'.
  split; [done|]. split; [done|]. split; [done|].
  split; [unfold Q_entry; by rewrite Hrow|]. split; [done|]. split; [done|].
  cbn [Q with_Q]. apply Q_entry_update; [done|]. by apply lookup_lt_Some in Hq.
Qed.
End QLearningFacts.

(** ** Q-Learning: the table keeps its shape *)

Section QLearningShape.
Context {Env State : Type} `{MDP Env State}.
Import QLearning.
Implicit Types (self : t Env State) (g : Rng) (s : State) (w : world Env State).
Variables (sts : list State) (acts : list Z).

Lemma init_spec (e : Env) (alpha gamma eps : Qc) :
  get_allowed_states_and_actions e = Ok (sts, acts) ->
  __init__ e alpha gamma eps
  = Ok {| mdp := e; alpha := alpha; gamma := gamma; eps := eps;
          Q := foldl (fun Q s => dict_set s (replicate (length acts) 0%Qc) Q) [] sts;
          allowed_states := sts; allowed_actions := acts |}.
Proof. intros He. unfold __init__. rewrite He. reflexivity. Qed.

Lemma init_wf (e : Env) (alpha gamma eps : Qc) self :
  get_allowed_states_and_actions e = Ok (sts, acts) ->
  __init__ e alpha gamma eps = Ok self ->
  QL_wf sts acts self /\ mdp self = e.
Proof.
  intros He Hinit. rewrite (init_spec _ _ _ _ He) in Hinit. injection Hinit as <-.
  split; [|done]. split; [done|]. split; [done|]. cbn [Q].
  intros s Hs. exists (replicate (length acts) 0%Qc).
  split; [by apply dict_get_fill|apply length_replicate].
Qed.

Lemma with_mdp_wf self (e : Env) : QL_wf sts acts self -> QL_wf sts acts (with_mdp self e).
Proof. done. Qed.

Lemma with_eps_wf self (x : Qc) : QL_wf sts acts self -> QL_wf sts acts (with_eps self x).
Proof. done. Qed.

Lemma update_wf self s (k : nat) (row : list Qc) (v : Qc) :
  QL_wf sts acts self -> dict_get s (Q self) = Some row ->
  QL_wf sts acts (with_Q self (dict_set s (<[k := v]> row) (Q self))).
Proof.
  intros (Hs & Ha & Hrows) Hrow. split; [done|]. split; [done|]. cbn [Q with_Q].
  intros s0 Hs0. destruct (decide (s = s0)) as [<-|Hne].
  - rewrite dict_get_set_eq. eexists. split; [done|]. rewrite length_insert.
    destruct (Hrows s Hs0) as (row0 & Hrow0 & Hlen). congruence.
  - rewrite dict_get_set_ne by done. by apply Hrows.
Qed.

Lemma transition_wf s (msv : list Qc) (w : world Env State) (out : State * bool * list Qc) w' :
  transition s msv w = (Ok out, w') -> QL_wf sts acts w.1 -> QL_wf sts acts w'.1.
Proof.
  destruct w as [self g], w' as [self' g'], out as [[s2 d] msv'].
  intros Hrun Hwf. apply transition_inv in Hrun
    as (a & r & g1 & e1 & row & q & row' & m & mv & _ & _ & _ & Hrow & _ & _ & _ & -> & _).
  by apply (update_wf (with_mdp self e1)).
Qed.

Lemma episode_wf (fuel : nat) s (d : bool) (msv : list Qc) w (msv' : list Qc) w' :
  episode fuel s d msv w = (Ok msv', w') -> QL_wf sts acts w.1 -> QL_wf sts acts w'.1.
Proof.
  revert s d msv w. induction fuel as [|fuel IH]; intros s d msv w; cbn [episode];
    destruct d; try (unfold ret; by intros [= <- <-]).
  intros Hrun Hwf.
  apply bind_Ok_inv in Hrun as ([[s2 d2] msv2] & w2 & Htr & Hrun).
  apply transition_wf in Htr; [|done]. by eapply IH.
Qed.

Lemma episodes_wf (fuel : nat) (range : list Z) (msv : list Qc) w (msv' : list Qc) w' :
  episodes fuel range msv w = (Ok msv', w') -> QL_wf sts acts w.1 -> QL_wf sts acts w'.1.
Proof.
  revert msv w. induction range as [|x range IH]; intros msv w; cbn [episodes].
  { unfold ret. by intros [= <- <-]. }
  intros Hrun Hwf.
  apply bind_Ok_inv in Hrun as (self1 & w1 & Hget & Hrun).
  unfold on_fst, get in Hget. cbn [fst snd] in Hget. injection Hget as <- <-.
  apply bind_Ok_inv in Hrun as ([] & w2 & Hput & Hrun).
  unfold on_fst, put in Hput. cbn [fst snd] in Hput. injection Hput as <-.
  apply bind_Ok_inv in Hrun as ([[s0 r0] d0] & w3 & Hreset & Hrun).
  unfold mdp_reset in Hreset. cbn [fst snd] in Hreset.
  destruct (reset (mdp (with_eps w.1 _))) as [out e1]. injection Hreset as -> <-.
  apply bind_Ok_inv in Hrun as (msv1 & w4 & Hep & Hrun).
  apply episode_wf in Hep; [|done]. by eapply IH.
Qed.

Lemma derive_policy_bounds self (pol : dict State Z) :
  QL_wf sts acts self -> derive_policy self = Ok pol ->
  forall s, s ∈ sts ->
    exists i, dict_get s pol = Some i /\ 0 <= i < Z.of_nat (length acts).
Proof.
  intros (Hs & Ha & Hrows). unfold derive_policy. rewrite Hs. intros Hrun s0 Hs0.
  eapply (for_each_invariant (fun done p =>
    forall s, s ∈ done -> s ∈ sts ->
      exists i, dict_get s p = Some i /\ 0 <= i < Z.of_nat (length acts)));
    [| |exact Hrun|exact Hs0|exact Hs0].
  - intros s Hin. by apply elem_of_nil in Hin.
  - intros done s pa pb Hdone Hbody. bind_inv Hbody. injection Hbody as <-.
    rename a into row, a0 into m, a1 into i.
    intros s' Hs' Hin. destruct (decide (s = s')) as [<-|Hne].
    + exists i. split; [apply dict_get_set_eq|].
      apply dict_getitem_Ok in E. destruct (Hrows s Hin) as (row0 & Hrow0 & Hlen).
      assert (row0 = row) as -> by congruence.
      apply py_index_spec in E1. lia.
    + rewrite dict_get_set_ne by done. apply Hdone; [|done].
      apply elem_of_app in Hs' as [Hs'|Hs']; [done|].
      apply list_elem_of_singleton in Hs'. congruence.
Qed.

Lemma q_learning_policy_indices (fuel : nat) (n : Z) self g
    (pol : dict State Z) (msv : list Qc) w' :
  QL_wf sts acts self ->
  __call__ fuel n (self, g) = (Ok (pol, msv), w') ->
  forall s, s ∈ sts ->
    exists i, dict_get s pol = Some i /\ 0 <= i < Z.of_nat (length acts).
Proof.
  intros Hwf. unfold __call__. intros Hrun.
  apply bind_Ok_inv in Hrun as (self1 & w1 & Hget & Hrun).
  unfold on_fst, get in Hget. cbn [fst snd] in Hget. injection Hget as <- <-.
  apply bind_Ok_inv in Hrun as (m0 & w2 & Hm0 & Hrun).
  apply lift_Ok_inv in Hm0 as [_ ->].
  apply bind_Ok_inv in Hrun as (msv1 & w3 & Hep & Hrun).
  apply episodes_wf in Hep; [|done].
  apply bind_Ok_inv in Hrun as (self3 & w4 & Hget & Hrun).
  unfold on_fst, get in Hget. cbn [fst snd] in Hget. injection Hget as <- <-.
  apply bind_Ok_inv in Hrun as (pol1 & w5 & Hpol & Hrun).
  apply lift_Ok_inv in Hpol as [Hpol ->].
  unfold ret in Hrun. injection Hrun as <- _ _.
  by eapply derive_policy_bounds.
Qed.
End QLearningShape.

(** The declared actions of both environments are their own positions. *)
Lemma TomAndJerry_indices (i : Z) :
  0 <= i < Z.of_nat (length TomAndJerry.allowed_actions) ->
  i ∈ TomAndJerry.allowed_actions.
Proof.
  simpl. intros Hi.
  assert (Hc : i = 0 \/ i = 1 \/ i = 2 \/ i = 3) by lia.
  destruct Hc as [-> | [-> | [-> | ->]]]; compute_done.
Qed.

Lemma BitStrings_indices (i : Z) :
  0 <= i < Z.of_nat (length BitStrings_actions) -> i ∈ BitStrings_actions.
Proof.
  unfold BitStrings_actions. rewrite length_seqZ, elem_of_seqZ. lia.
Qed.

(** C5. In both environments and for each of the three solvers, when the
    solver built by its constructor returns, its policy has an entry for
    every declared state and that entry is a declared action. *)
Theorem solver_policies_hold_declared_actions :
  (forall (e : TomAndJerry.t) gamma epsilon fuel self self' pol msv,
      ValueIteration.__init__ e gamma epsilon = Ok self ->
      ValueIteration.__call__ fuel self = Ok (self', (pol, msv)) ->
      policy_in_actions (declared_states e) (declared_actions e) pol) /\
  (forall (e : BitStrings.t) gamma epsilon fuel self self' pol msv,
      ValueIteration.__init__ e gamma epsilon = Ok self ->
      ValueIteration.__call__ fuel self = Ok (self', (pol, msv)) ->
      policy_in_actions (declared_states e) (declared_actions e) pol) /\
  (forall (e : TomAndJerry.t) gamma epsilon g g' fuel self self' pol changes Vret,
      PolicyIteration.__init__ e gamma epsilon g = (Ok self, g') ->
      PolicyIteration.__call__ fuel self = Ok (self', (pol, changes, Vret)) ->
      policy_in_actions (declared_states e) (declared_actions e) pol) /\
  (forall (e : BitStrings.t) gamma epsilon g g' fuel self self' pol changes Vret,
      PolicyIteration.__init__ e gamma epsilon g = (Ok self, g') ->
      PolicyIteration.__call__ fuel self = Ok (self', (pol, changes, Vret)) ->
      policy_in_actions (declared_states e) (declared_actions e) pol) /\
  (forall (e : TomAndJerry.t) alpha gamma eps fuel n g self pol msv w',
      QLearning.__init__ e alpha gamma eps = Ok self ->
      QLearning.__call__ fuel n (self, g) = (Ok (pol, msv), w') ->
      policy_in_actions (declared_states e) (declared_actions e) pol) /\
  (forall (e : BitStrings.t) alpha gamma eps fuel n g self pol msv w',
      QLearning.__init__ e alpha gamma eps = Ok self ->
      QLearning.__call__ fuel n (self, g) = (Ok (pol, msv), w') ->
      policy_in_actions (declared_states e) (declared_actions e) pol).
Proof.
  repeat split.
  - intros e gamma epsilon fuel self self' pol msv Hinit Hcall s Hs.
    apply init_declared in Hinit. unfold declared_states, declared_actions in *.
    rewrite Hinit in *. rewrite TomAndJerry_declared in Hinit. injection Hinit as Hst Hac.
    destruct (value_iteration_policy_indices _ _ _ _ _ Hcall s Hs) as (i & Hi & Hb).
    exists i. split; [done|]. rewrite <- Hac in *. by apply TomAndJerry_indices.
  - intros e gamma epsilon fuel self self' pol msv Hinit Hcall s Hs.
    apply init_declared in Hinit. unfold declared_states, declared_actions in *.
    rewrite Hinit in *. rewrite BitStrings_declared in Hinit. injection Hinit as Hst Hac.
    destruct (value_iteration_policy_indices _ _ _ _ _ Hcall s Hs) as (i & Hi & Hb).
    exists i. split; [done|]. rewrite <- Hac in *. by apply BitStrings_indices.
  - intros e gamma epsilon g g' fuel self self' pol changes Vret Hinit Hcall s Hs.
    apply PolicyIteration_init_declared in Hinit.
    unfold declared_states, declared_actions in *.
    rewrite Hinit in *. rewrite TomAndJerry_declared in Hinit. injection Hinit as Hst Hac.
    destruct (policy_iteration_policy_indices _ _ _ _ _ _ Hcall s Hs) as (i & Hi & Hb).
    exists i. split; [done|]. rewrite <- Hac in *. by apply TomAndJerry_indices.
  - intros e gamma epsilon g g' fuel self self' pol changes Vret Hinit Hcall s Hs.
    apply PolicyIteration_init_declared in Hinit.
    unfold declared_states, declared_actions in *.
    rewrite Hinit in *. rewrite BitStrings_declared in Hinit. injection Hinit as Hst Hac.
    destruct (policy_iteration_policy_indices _ _ _ _ _ _ Hcall s Hs) as (i & Hi & Hb).
    exists i. split; [done|]. rewrite <- Hac in *. by apply BitStrings_indices.
  - intros e alpha gamma eps fuel n g self pol msv w' Hinit Hcall s Hs.
    pose proof (TomAndJerry_declared e) as Hd.
    unfold declared_states, declared_actions in *. rewrite Hd in *.
    apply (init_wf _ _ _ _ _ _ _ Hd) in Hinit as [Hwf _].
    destruct (q_learning_policy_indices _ _ _ _ _ _ _ _ _ Hwf Hcall s Hs) as (i & Hi & Hb).
    exists i. split; [done|]. by apply TomAndJerry_indices.
  - intros e alpha gamma eps fuel n g self pol msv w' Hinit Hcall s Hs.
    pose proof (BitStrings_declared e) as Hd.
    unfold declared_states, declared_actions in *. rewrite Hd in *.
    apply (init_wf _ _ _ _ _ _ _ Hd) in Hinit as [Hwf _].
    destruct (q_learning_policy_indices _ _ _ _ _ _ _ _ _ Hwf Hcall s Hs) as (i & Hi & Hb).
    exists i. split; [done|]. by apply BitStrings_indices.
Qed.

(** ** C7: Q-Learning never passes an undeclared action *)

Section QLearningSafety.
Context {Env State : Type} `{MDP Env State}.
Import QLearning.
Implicit Types (self : t Env State) (g : Rng) (s : State) (w : world Env State).
Variables (Pre Inv : Env -> Prop) (sts : list State) (acts : list Z).
Hypothesis laws : MDPLaws Pre Inv sts acts.

Lemma select_action_ok s self g :
  QL_wf sts acts self -> s ∈ sts ->
  exists a g1, __select_action s (self, g) = (Ok a, (self, g1)) /\
               0 <= a < Z.of_nat (length acts).
Proof.
  intros (Hs & Ha & Hrows) Hin. unfold __select_action.
  unfold bind at 1, on_snd at 1, random_random, bind, draw, ret. cbn [fst snd].
  unfold on_fst at 1, get. cbn [fst snd].
  assert (Hlen : 0 < Z.of_nat (length acts)).
  { pose proof (law_actions _ _ _ _ laws). destruct acts; [done|simpl; lia]. }
  destruct (py_lt _ (eps self)).
  - unfold on_snd, random_randint. cbn [fst snd]. rewrite Ha.
    destruct (Z.ltb_spec (Z.of_nat (length acts) - 1) 0); [lia|].
    unfold bind, draw, ret. cbn [fst snd]. do 2 eexists. split; [reflexivity|].
    match goal with
    | |- 0 <= 0 + ?x mod ?y < _ => pose proof (Z.mod_pos_bound x y)
    end. lia.
  - destruct (Hrows s Hin) as (row & Hrow & Hrlen).
    unfold lift, dict_getitem. rewrite Hrow.
    destruct (argmax_exists row) as (m & i & Hm & Hi).
    { intros ->. simpl in Hrlen. lia. }
    rewrite Hm, Hi. do 2 eexists. split; [reflexivity|].
    apply py_index_spec in Hi. lia.
Qed.

Lemma get_V_ok self :
  QL_wf sts acts self -> exists V, __get_V self = Ok V.
Proof.
  intros (Hs & Ha & Hrows). unfold __get_V. rewrite Hs.
  assert (Hgen : forall l V0, (forall s, s ∈ l -> s ∈ sts) ->
    exists V, for_each l V0 (fun V s =>
      row ← dict_getitem s (Q self); m ← py_max row; Ok (dict_set s m V)) = Ok V).
  { induction l as [|s l IH]; intros V0 Hl; simpl; [eauto|].
    destruct (Hrows s) as (row & Hrow & Hrlen); [apply Hl; by left|].
    unfold dict_getitem. rewrite Hrow. cbn [mbind res_bind].
    destruct (py_max_nonempty row) as [m ->].
    { intros ->. pose proof (law_actions _ _ _ _ laws).
      destruct acts; [done|discriminate]. }
    cbn [mbind res_bind]. apply IH. intros s' Hs'. apply Hl. by right. }
  by apply Hgen.
Qed.

Lemma mean_V_ok self :
  QL_wf sts acts self -> exists mv, mean_V self = Ok mv.
Proof.
  intros Hwf. unfold mean_V. destruct (get_V_ok self Hwf) as [V ->].
  cbn [mbind res_bind]. destruct Hwf as (-> & _).
  pose proof (law_states _ _ _ _ laws). destruct sts; [done|]. simpl. eauto.
Qed.

Lemma td_update_ok self s (a : Z) (s' : State) (r : Qc) :
  QL_wf sts acts self -> s ∈ sts -> s' ∈ sts -> 0 <= a < Z.of_nat (length acts) ->
  exists self', td_update self s a s' r = Ok self' /\
                QL_wf sts acts self' /\ mdp self' = mdp self.
Proof.
  intros Hwf Hs Hs' Ha. pose proof Hwf as (_ & _ & Hrows).
  destruct (Hrows s Hs) as (row & Hrow & Hrlen).
  destruct (Hrows s' Hs') as (row' & Hrow' & Hrlen').
  destruct (py_getitem_ok row a) as (q & Hq & _); [lia|].
  destruct (py_max_nonempty row') as [m Hm].
  { intros ->. simpl in Hrlen'. lia. }
  unfold td_update, dict_getitem. rewrite Hrow. cbn [mbind res_bind].
  rewrite Hq. cbn [mbind res_bind]. rewrite Hrow'. cbn [mbind res_bind].
  rewrite Hm. cbn [mbind res_bind].
  rewrite py_setitem_ok by lia. cbn [mbind res_bind].
  eexists. split; [reflexivity|]. split; [|done]. by apply update_wf.
Qed.

Lemma transition_ok s (msv : list Qc) w :
  QL_during sts acts Inv w -> s ∈ sts ->
  exists s2 d msv' w',
    transition s msv w = (Ok (s2, d, msv'), w') /\ QL_during sts acts Inv w' /\ s2 ∈ sts.
Proof.
  destruct w as [self g]. intros [Hwf Hinv] Hs. cbn [fst] in *.
  destruct (select_action_ok s self g Hwf Hs) as (a & g1 & Hsel & Ha).
  destruct (law_step _ _ _ _ laws (mdp self) g1 a Hinv
              (law_indices _ _ _ _ laws a Ha))
    as (s2 & r & d & e' & g' & Hstep & Hinv' & Hs2).
  destruct (td_update_ok (with_mdp self e') s a s2 r) as (self' & Htd & Hwf' & Hmdp);
    [done..|].
  destruct (mean_V_ok self' Hwf') as [mv Hmv].
  exists s2, d, (msv ++ [mv]), (self', g').
  split; [|split; [split|]; [done| |done]].
  - unfold transition. rewrite (bind_Ok _ _ _ _ _ Hsel).
    assert (Hms : mdp_step a (self, g1) = (Ok (s2, r, d), (with_mdp self e', g'))).
    { unfold mdp_step. cbn [fst snd]. by rewrite Hstep. }
    rewrite (bind_Ok _ _ _ _ _ Hms).
    unfold bind at 1, on_fst at 1, get at 1. cbn [fst snd].
    unfold bind at 1, lift at 1. rewrite Htd.
    unfold bind at 1, on_fst at 1, put at 1. cbn [fst snd].
    unfold bind, lift. rewrite Hmv. reflexivity.
  - cbn [fst]. by rewrite Hmdp.
Qed.

Lemma episode_safe (fuel : nat) s (d : bool) (msv : list Qc) w :
  QL_during sts acts Inv w -> s ∈ sts ->
  exists r w', episode fuel s d msv w = (r, w') /\ never_raises r /\ QL_between sts acts Pre w'.
Proof.
  revert s d msv w. induction fuel as [|fuel IH]; intros s d msv w Hw Hs;
    cbn [episode]; destruct d.
  - exists (Ok msv), w. split; [done|]. split; [done|].
    destruct Hw as [Hwf Hinv]. split; [done|]. by apply (law_inv_pre _ _ _ _ laws).
  - exists OutOfFuel, w. split; [done|]. split; [done|].
    destruct Hw as [Hwf Hinv]. split; [done|]. by apply (law_inv_pre _ _ _ _ laws).
  - exists (Ok msv), w. split; [done|]. split; [done|].
    destruct Hw as [Hwf Hinv]. split; [done|]. by apply (law_inv_pre _ _ _ _ laws).
  - destruct (transition_ok s msv w Hw Hs) as (s2 & d2 & msv2 & w2 & Htr & Hw2 & Hs2).
    rewrite (bind_Ok _ _ _ _ _ Htr). by apply IH.
Qed.

Lemma episodes_safe (fuel : nat) (range : list Z) (msv : list Qc) w :
  QL_between sts acts Pre w ->
  exists r w', episodes fuel range msv w = (r, w') /\ never_raises r /\ QL_between sts acts Pre w'.
Proof.
  revert msv w. induction range as [|x range IH]; intros msv w Hw; cbn [episodes].
  { exists (Ok msv), w. done. }
  destruct w as [self g]. destruct Hw as [Hwf Hpre]. cbn [fst] in *.
  unfold bind at 1, on_fst at 1, get at 1. cbn [fst snd].
  unfold bind at 1, on_fst at 1, put at 1. cbn [fst snd].
  destruct (law_reset _ _ _ _ laws (mdp self) Hpre) as (s0 & r0 & d0 & e' & Hreset & Hinv & Hs0).
  unfold bind at 1, mdp_reset at 1. cbn [fst snd mdp with_eps]. rewrite Hreset.
  set (w1 := (with_mdp (with_eps self _) e', g)).
  destruct (episode_safe fuel s0 d0 msv w1) as (r & w2 & Hep & Hr & Hw2); [done..|].
  unfold bind. rewrite Hep. destruct r as [msv1| |].
  - by apply IH.
  - done.
  - exists OutOfFuel, w2. done.
Qed.

(** A run of the solver on a lawful environment does not raise, and leaves
    the environment in a state its laws describe. *)
Lemma call_safe (fuel : nat) (n : Z) self g :
  QL_wf sts acts self -> Pre (mdp self) ->
  exists r self' g',
    __call__ fuel n (self, g) = (r, (self', g')) /\ never_raises r /\
    Pre (mdp self').
Proof.
  intros Hwf Hpre. unfold __call__.
  unfold bind at 1, on_fst at 1, get at 1. cbn [fst snd].
  destruct (mean_V_ok self Hwf) as [m0 Hm0].
  unfold bind at 1, lift at 1. rewrite Hm0.
  destruct (episodes_safe fuel (seqZ 0 n) [m0] (self, g)) as (r & [self2 g2] & Hep & Hr & Hw2);
    [done|].
  unfold bind at 1. rewrite Hep. destruct Hw2 as [Hwf2 Hpre2]. cbn [fst] in *.
  destruct r as [msv| |]; [|done|by exists OutOfFuel, self2, g2].
  unfold bind at 1, on_fst at 1, get at 1. cbn [fst snd].
  assert (Hpol : exists pol, derive_policy self2 = Ok pol).
  { destruct Hwf2 as (Hs & Ha & Hrows). unfold derive_policy. rewrite Hs.
    assert (Hgen : forall l p0, (forall s, s ∈ l -> s ∈ sts) ->
      exists pol, for_each l p0 (fun policy s =>
        row ← dict_getitem s (Q self2); m ← py_max row; i ← py_index m row;
        Ok (dict_set s i policy)) = Ok pol).
    { induction l as [|s l IH]; intros p0 Hl; simpl; [eauto|].
      destruct (Hrows s) as (row & Hrow & Hrlen); [apply Hl; by left|].
      unfold dict_getitem. rewrite Hrow. cbn [mbind res_bind].
      destruct (argmax_exists row) as (m & i & -> & Hi).
      { intros ->. pose proof (law_actions _ _ _ _ laws).
        destruct acts; [done|discriminate]. }
      cbn [mbind res_bind]. rewrite Hi. cbn [mbind res_bind].
      apply IH. intros s' Hs'. apply Hl. by right. }
    by apply Hgen. }
  destruct Hpol as [pol Hpol]. unfold bind, lift, ret. rewrite Hpol.
  by exists (Ok (pol, msv)), self2, g2.
Qed.
End QLearningSafety.

(** The two environments satisfy the laws. *)

Lemma TomAndJerry_laws :
  MDPLaws (fun _ : TomAndJerry.t => True)
          (fun e => TomAndJerry.jerry e ∈ TomAndJerry_states)
          TomAndJerry_states TomAndJerry.allowed_actions.
Proof.
  split.
  - exact TomAndJerry_declared.
  - discriminate.
  - discriminate.
  - exact TomAndJerry_indices.
  - done.
  - intros e _. exists (0, 0), 0%Qc, false, TomAndJerry.init.
    split; [reflexivity|]. split; compute_done.
  - intros e g a Hinv Ha.
    destruct (TomAndJerry_step_valid e g a Ha) as (r & d & e' & g' & Hstep & Hin & _).
    exists (TomAndJerry.jerry e'), r, d, e', g'. split; [exact Hstep|]. split; auto.
Qed.

Lemma BitStrings_laws :
  MDPLaws (fun _ : BitStrings.t => True)
          (fun e => BitStrings.state e ∈ BitStrings_states)
          BitStrings_states BitStrings_actions.
Proof.
  split.
  - exact BitStrings_declared.
  - intros Heq. assert (Hl : length BitStrings_states = 512%nat) by (vm_compute; reflexivity).
    rewrite Heq in Hl. discriminate.
  - discriminate.
  - exact BitStrings_indices.
  - done.
  - intros e _. exists "000000000"%string, 0%Qc, false, BitStrings.init.
    split; [reflexivity|]. split; compute_done.
  - intros e g a Hinv Ha.
    destruct (BitStrings_step_valid e g a Ha Hinv) as (r & d & e' & g' & Hstep & Hin).
    exists (BitStrings.state e'), r, d, e', g'. split; [exact Hstep|]. split; auto.
Qed.

(** Recording the calls keeps the laws, and the record holds declared
    actions only as long as the laws are used as stated. *)
Lemma Logged_laws {Env State : Type} `{MDP Env State}
    (Pre Inv : Env -> Prop) (sts : list State) (acts : list Z) :
  MDPLaws Pre Inv sts acts ->
  MDPLaws (fun e => Pre (Logged.inner e) /\ steps_within acts (Logged.calls e))
          (fun e => Inv (Logged.inner e) /\ steps_within acts (Logged.calls e))
          sts acts.
Proof.
  intros laws. split.
  - intros e. exact (law_declared _ _ _ _ laws (Logged.inner e)).
  - exact (law_states _ _ _ _ laws).
  - exact (law_actions _ _ _ _ laws).
  - exact (law_indices _ _ _ _ laws).
  - intros e [Hinv Hlog]. split; [by apply (law_inv_pre _ _ _ _ laws)|done].
  - intros [i l] [Hpre Hlog]. cbn [Logged.inner Logged.calls] in *.
    destruct (law_reset _ _ _ _ laws i Hpre) as (s & r & d & i' & Hreset & Hinv & Hs).
    exists s, r, d, {| Logged.inner := i'; Logged.calls := l ++ [Logged.ResetCall] |}.
    split; [|split; [split|]; [done| |done]].
    + cbn [reset Logged.mdp]. unfold Logged.logged_reset, Logged.log.
      cbn [Logged.inner Logged.calls]. by rewrite Hreset.
    + cbn [Logged.calls]. intros a Ha. apply elem_of_app in Ha as [Ha|Ha]; [by apply Hlog|].
      apply list_elem_of_singleton in Ha. discriminate.
  - intros [i l] g a [Hinv Hlog] Ha. cbn [Logged.inner Logged.calls] in *.
    destruct (law_step _ _ _ _ laws i g a Hinv Ha)
      as (s & r & d & i' & g' & Hstep & Hinv' & Hs).
    exists s, r, d, {| Logged.inner := i'; Logged.calls := l ++ [Logged.StepCall a] |}, g'.
    split; [|split; [split|]; [done| |done]].
    + cbn [step Logged.mdp]. unfold Logged.logged_step, Logged.log.
      cbn [Logged.inner Logged.calls fst snd]. by rewrite Hstep.
    + cbn [Logged.calls]. intros a' Ha'.
      apply elem_of_app in Ha' as [Ha'|Ha']; [by apply Hlog|].
      apply list_elem_of_singleton in Ha'. by injection Ha' as ->.
Qed.

(** C7. Run Q-Learning, built by its constructor, on either environment,
    for any parameters, number of episodes, random draws and number of loop
    iterations allowed: the run does not raise.  Run it on the environment
    wrapped so that every call it receives is recorded: again it does not
    raise, and every action that [step] was given, by either branch of the
    epsilon-greedy choice, is a declared action. *)
Theorem q_learning_passes_declared_actions_only :
  (forall (e : TomAndJerry.t) alpha gamma eps fuel n g,
      (forall self r w',
          QLearning.__init__ e alpha gamma eps = Ok self ->
          QLearning.__call__ fuel n (self, g) = (r, w') -> never_raises r) /\
      (forall self r self' g',
          QLearning.__init__ {| Logged.inner := e; Logged.calls := [] |} alpha gamma eps
            = Ok self ->
          QLearning.__call__ fuel n (self, g) = (r, (self', g')) ->
          never_raises r /\
          steps_within (declared_actions e) (Logged.calls (QLearning.mdp self')))) /\
  (forall (e : BitStrings.t) alpha gamma eps fuel n g,
      (forall self r w',
          QLearning.__init__ e alpha gamma eps = Ok self ->
          QLearning.__call__ fuel n (self, g) = (r, w') -> never_raises r) /\
      (forall self r self' g',
          QLearning.__init__ {| Logged.inner := e; Logged.calls := [] |} alpha gamma eps
            = Ok self ->
          QLearning.__call__ fuel n (self, g) = (r, (self', g')) ->
          never_raises r /\
          steps_within (declared_actions e) (Logged.calls (QLearning.mdp self')))).
Proof.
  split; intros e alpha gamma eps fuel n g; split.
  - intros self r w' Hinit Hcall. pose proof TomAndJerry_laws as laws.
    apply (init_wf _ _ _ _ _ _ _ (law_declared _ _ _ _ laws _)) in Hinit as [Hwf Hmdp].
    destruct (call_safe _ _ _ _ laws fuel n self g Hwf I) as (r0 & self0 & g0 & Hrun & Hr & _).
    rewrite Hrun in Hcall. by injection Hcall as <- _.
  - intros self r self' g' Hinit Hcall.
    pose proof (Logged_laws _ _ _ _ TomAndJerry_laws) as laws.
    apply (init_wf _ _ _ _ _ _ _ (law_declared _ _ _ _ laws _)) in Hinit as [Hwf Hmdp].
    destruct (call_safe _ _ _ _ laws fuel n self g Hwf) as (r0 & self0 & g0 & Hrun & Hr & Hpre).
    { rewrite Hmdp. split; [done|]. intros a Ha. by apply elem_of_nil in Ha. }
    rewrite Hrun in Hcall. injection Hcall as <- <- <-.
    split; [done|]. rewrite TomAndJerry_declared_actions. exact (proj2 Hpre).
  - intros self r w' Hinit Hcall. pose proof BitStrings_laws as laws.
    apply (init_wf _ _ _ _ _ _ _ (law_declared _ _ _ _ laws _)) in Hinit as [Hwf Hmdp].
    destruct (call_safe _ _ _ _ laws fuel n self g Hwf I) as (r0 & self0 & g0 & Hrun & Hr & _).
    rewrite Hrun in Hcall. by injection Hcall as <- _.
  - intros self r self' g' Hinit Hcall.
    pose proof (Logged_laws _ _ _ _ BitStrings_laws) as laws.
    apply (init_wf _ _ _ _ _ _ _ (law_declared _ _ _ _ laws _)) in Hinit as [Hwf Hmdp].
    destruct (call_safe _ _ _ _ laws fuel n self g Hwf) as (r0 & self0 & g0 & Hrun & Hr & Hpre).
    { rewrite Hmdp. split; [done|]. intros a Ha. by apply elem_of_nil in Ha. }
    rewrite Hrun in Hcall. injection Hcall as <- <- <-.
    split; [done|]. rewrite BitStrings_declared_actions. exact (proj2 Hpre).
Qed.

(** ** C10: Q-Learning with no episode *)

Lemma py_max_zeros (k : nat) : py_max (replicate (S k) 0%Qc) = Ok 0%Qc.
Proof.
  assert (Hmax : py_max2 0%Qc 0%Qc = 0%Qc) by reflexivity.
  cbn [replicate py_max]. f_equal.
  induction k as [|k IH]; [reflexivity|]. cbn [replicate foldl]. by rewrite Hmax.
Qed.

Lemma py_index_zeros (k : nat) : py_index 0%Qc (replicate (S k) 0%Qc) = Ok 0.
Proof.
  assert (Heq : py_eq 0%Qc 0%Qc = true) by (by apply py_eq_spec).
  cbn [replicate py_index]. by rewrite Heq.
Qed.

Lemma py_sum_zeros (l : list Qc) : Forall (fun x => x = 0%Qc) l -> py_sum l = 0%Qc.
Proof.
  unfold py_sum. induction 1 as [|x l -> _ IH]; [reflexivity|].
  simpl. by rewrite Qcplus_0_l.
Qed.

Section QLearningNoEpisode.
Context {Env State : Type} `{MDP Env State}.
Import QLearning.
Variables (sts : list State) (acts : list Z).
Hypothesis (Hsts : sts <> []) (Hacts : acts <> []).

Lemma fresh_row (e : Env) (alpha gamma eps : Qc) (s : State) :
  s ∈ sts ->
  exists k, dict_getitem s (Q (QL_fresh sts acts e alpha gamma eps)) = Ok (replicate (S k) 0%Qc).
Proof.
  intros Hs. destruct acts as [|a acts']; [done|]. exists (length acts').
  unfold dict_getitem, QL_fresh. cbn [Q]. by rewrite dict_get_fill.
Qed.

Lemma fresh_get_V (e : Env) (alpha gamma eps : Qc) :
  __get_V (QL_fresh sts acts e alpha gamma eps)
  = Ok (foldl (fun V s => dict_set s 0%Qc V) [] sts).
Proof.
  unfold __get_V. change (allowed_states (QL_fresh sts acts e alpha gamma eps)) with sts.
  assert (Hgen : forall l V0, (forall s, s ∈ l -> s ∈ sts) ->
    for_each l V0 (fun V s =>
      row ← dict_getitem s (Q (QL_fresh sts acts e alpha gamma eps));
      m ← py_max row; Ok (dict_set s m V))
    = Ok (foldl (fun V s => dict_set s 0%Qc V) V0 l)).
  { induction l as [|s l IH]; intros V0 Hall; [done|]. cbn [for_each foldl].
    destruct (fresh_row e alpha gamma eps s) as [k ->]; [apply Hall; by left|].
    cbn [mbind res_bind]. rewrite py_max_zeros. cbn [mbind res_bind].
    apply IH. intros s' Hs'. apply Hall. by right. }
  by apply Hgen.
Qed.

Lemma fresh_mean_V (e : Env) (alpha gamma eps : Qc) :
  mean_V (QL_fresh sts acts e alpha gamma eps) = Ok 0%Qc.
Proof.
  unfold mean_V. rewrite fresh_get_V. cbn [mbind res_bind].
  rewrite py_sum_zeros by (by apply dict_values_fill).
  change (allowed_states (QL_fresh sts acts e alpha gamma eps)) with sts.
  destruct sts as [|s0 l]; [done|]. unfold py_div_len. cbn [length].
  f_equal. unfold Qcdiv. apply Qcmult_0_l.
Qed.

Lemma fresh_derive_policy (e : Env) (alpha gamma eps : Qc) :
  derive_policy (QL_fresh sts acts e alpha gamma eps)
  = Ok (foldl (fun p s => dict_set s 0 p) [] sts).
Proof.
  unfold derive_policy. change (allowed_states (QL_fresh sts acts e alpha gamma eps)) with sts.
  assert (Hgen : forall l p0, (forall s, s ∈ l -> s ∈ sts) ->
    for_each l p0 (fun policy s =>
      row ← dict_getitem s (Q (QL_fresh sts acts e alpha gamma eps));
      m ← py_max row; i ← py_index m row; Ok (dict_set s i policy))
    = Ok (foldl (fun p s => dict_set s 0 p) p0 l)).
  { induction l as [|s l IH]; intros p0 Hall; [done|]. cbn [for_each foldl].
    destruct (fresh_row e alpha gamma eps s) as [k ->]; [apply Hall; by left|].
    cbn [mbind res_bind]. rewrite py_max_zeros. cbn [mbind res_bind].
    rewrite py_index_zeros. cbn [mbind res_bind].
    apply IH. intros s' Hs'. apply Hall. by right. }
  by apply Hgen.
Qed.

(** With no episode to run the solver returns at once: the all-zero
    policy, the one mean value 0, and the solver, its environment and the
    random generator as they were. *)
Lemma q_learning_no_episode (e : Env) (alpha gamma eps : Qc) (fuel : nat) (g : Rng) :
  get_allowed_states_and_actions e = Ok (sts, acts) ->
  exists self,
    __init__ e alpha gamma eps = Ok self /\ mdp self = e /\
    __call__ fuel 0 (self, g)
    = (Ok (foldl (fun p s => dict_set s 0 p) [] sts, [0%Qc]), (self, g)).
Proof.
  intros He. exists (QL_fresh sts acts e alpha gamma eps).
  split; [by apply init_spec|]. split; [done|].
  unfold __call__. unfold bind at 1, on_fst at 1, get at 1. cbn [fst snd].
  unfold bind at 1, lift at 1. rewrite fresh_mean_V.
  change (seqZ 0 0) with (@nil Z). cbn [episodes].
  unfold bind, ret, on_fst, get, lift. cbn [fst snd].
  by rewrite fresh_derive_policy.
Qed.
End QLearningNoEpisode.

(** C10. On either environment, Q-Learning with [num_episodes = 0] returns
    the policy that maps every declared state to action 0 and the sequence
    [[0]], and leaves the solver, its environment and the random generator
    exactly as they were.  The same holds on the environment wrapped so that
    the calls it receives are recorded: the record of calls is unchanged, so
    neither [reset] nor [step] was called. *)
Theorem q_learning_zero_episodes :
  (forall (e : TomAndJerry.t) (calls : list Logged.call) alpha gamma eps fuel g,
      (exists self pol,
         QLearning.__init__ e alpha gamma eps = Ok self /\ QLearning.mdp self = e /\
         QLearning.__call__ fuel 0 (self, g) = (Ok (pol, [0%Qc]), (self, g)) /\
         forall s, s ∈ declared_states e -> dict_get s pol = Some 0) /\
      (exists self pol,
         QLearning.__init__ {| Logged.inner := e; Logged.calls := calls |} alpha gamma eps
           = Ok self /\
         QLearning.mdp self = {| Logged.inner := e; Logged.calls := calls |} /\
         QLearning.__call__ fuel 0 (self, g) = (Ok (pol, [0%Qc]), (self, g)) /\
         forall s, s ∈ declared_states e -> dict_get s pol = Some 0)) /\
  (forall (e : BitStrings.t) (calls : list Logged.call) alpha gamma eps fuel g,
      (exists self pol,
         QLearning.__init__ e alpha gamma eps = Ok self /\ QLearning.mdp self = e /\
         QLearning.__call__ fuel 0 (self, g) = (Ok (pol, [0%Qc]), (self, g)) /\
         forall s, s ∈ declared_states e -> dict_get s pol = Some 0) /\
      (exists self pol,
         QLearning.__init__ {| Logged.inner := e; Logged.calls := calls |} alpha gamma eps
           = Ok self /\
         QLearning.mdp self = {| Logged.inner := e; Logged.calls := calls |} /\
         QLearning.__call__ fuel 0 (self, g) = (Ok (pol, [0%Qc]), (self, g)) /\
         forall s, s ∈ declared_states e -> dict_get s pol = Some 0)).
Proof.
  split; intros e calls alpha gamma eps fuel g; split.
  - pose proof TomAndJerry_laws as laws.
    destruct (q_learning_no_episode _ _ (law_states _ _ _ _ laws) (law_actions _ _ _ _ laws)
                e alpha gamma eps fuel g (law_declared _ _ _ _ laws _))
      as (self & Hinit & Hmdp & Hcall).
    exists self. eexists. split; [exact Hinit|]. split; [exact Hmdp|].
    split; [exact Hcall|]. intros s Hs. by apply dict_get_fill.
  - pose proof (Logged_laws _ _ _ _ TomAndJerry_laws) as laws.
    destruct (q_learning_no_episode _ _ (law_states _ _ _ _ laws) (law_actions _ _ _ _ laws)
                {| Logged.inner := e; Logged.calls := calls |} alpha gamma eps fuel g
                (law_declared _ _ _ _ laws _)) as (self & Hinit & Hmdp & Hcall).
    exists self. eexists. split; [exact Hinit|]. split; [exact Hmdp|].
    split; [exact Hcall|]. intros s Hs. by apply dict_get_fill.
  - pose proof BitStrings_laws as laws.
    destruct (q_learning_no_episode _ _ (law_states _ _ _ _ laws) (law_actions _ _ _ _ laws)
                e alpha gamma eps fuel g (law_declared _ _ _ _ laws _))
      as (self & Hinit & Hmdp & Hcall).
    exists self. eexists. split; [exact Hinit|]. split; [exact Hmdp|].
    split; [exact Hcall|]. intros s Hs. apply dict_get_fill.
    unfold declared_states in Hs. by rewrite BitStrings_declared in Hs.
  - pose proof (Logged_laws _ _ _ _ BitStrings_laws) as laws.
    destruct (q_learning_no_episode _ _ (law_states _ _ _ _ laws) (law_actions _ _ _ _ laws)
                {| Logged.inner := e; Logged.calls := calls |} alpha gamma eps fuel g
                (law_declared _ _ _ _ laws _)) as (self & Hinit & Hmdp & Hcall).
    exists self. eexists. split; [exact Hinit|]. split; [exact Hmdp|].
    split; [exact Hcall|]. intros s Hs. apply dict_get_fill.
    unfold declared_states in Hs. by rewrite BitStrings_declared in Hs.
Qed.

(** ** Concrete runs *)

(** Policy Iteration on the grid, default parameters, all draws 0. *)
Lemma policy_iteration_policy_is_greedy_witness :
  exists self g',
    PolicyIteration.__init__ TomAndJerry.init default_gamma default_epsilon tape_zero
      = (Ok self, g') /\
    PolicyIteration.allowed_actions self = seqZ 0 4 /\
    exists self' pol changes Vret,
      PolicyIteration.__call__ 100 self = Ok (self', (pol, changes, Vret)) /\
      dict_get (0, 0) pol = Some 1 /\
      forall s, s ∈ PolicyIteration.allowed_states self ->
        exists a q,
          dict_get s pol = Some a /\ a ∈ PolicyIteration.allowed_actions self /\
          action_value (PolicyIteration.mdp self) (PolicyIteration.allowed_states self)
            (PolicyIteration.gamma self) Vret s a = Ok q /\
          forall a', a' ∈ PolicyIteration.allowed_actions self ->
            exists q',
              action_value (PolicyIteration.mdp self) (PolicyIteration.allowed_states self)
                (PolicyIteration.gamma self) Vret s a' = Ok q' /\
              (q' <= q)%Qc /\ (a' < a -> (q' < q)%Qc).
Proof.
  do 2 eexists. split; [vm_compute; reflexivity|].
  match goal with
  | |- ?lhs = ?rhs /\ _ => assert (Hacts : lhs = rhs) by (vm_compute; reflexivity)
  end.
  split; [exact Hacts|]. do 4 eexists.
  match goal with
  | |- ?lhs = ?rhs /\ _ => assert (Hcall : lhs = rhs) by (vm_compute; reflexivity)
  end.
  split; [exact Hcall|]. split; [vm_compute; reflexivity|].
  exact (proj2 (policy_iteration_policy_is_greedy _ _ _ _ _ _ _ Hacts Hcall)).
Defined.

(** Value Iteration on the grid and a one-episode Q-Learning run. *)
Lemma solver_policies_hold_declared_actions_witness :
  (exists self self' pol msv,
     ValueIteration.__init__ TomAndJerry.init default_gamma default_epsilon = Ok self /\
     ValueIteration.__call__ 20 self = Ok (self', (pol, msv)) /\
     policy_in_actions (declared_states TomAndJerry.init)
       (declared_actions TomAndJerry.init) pol) /\
  (exists self pol msv w',
     QLearning.__init__ TomAndJerry.init default_alpha default_gamma 1%Qc = Ok self /\
     QLearning.__call__ 10 1 (self, tape_to_tom) = (Ok (pol, msv), w') /\
     policy_in_actions (declared_states TomAndJerry.init)
       (declared_actions TomAndJerry.init) pol).
Proof.
  split.
  - do 4 eexists.
    match goal with
    | |- ?lhs = ?rhs /\ _ => assert (Hinit : lhs = rhs) by (vm_compute; reflexivity)
    end.
    split; [exact Hinit|].
    match goal with
    | |- ?lhs = ?rhs /\ _ => assert (Hcall : lhs = rhs) by (vm_compute; reflexivity)
    end.
    split; [exact Hcall|].
    exact (proj1 solver_policies_hold_declared_actions _ _ _ _ _ _ _ _ Hinit Hcall).
  - do 4 eexists.
    match goal with
    | |- ?lhs = ?rhs /\ _ => assert (Hinit : lhs = rhs) by (vm_compute; reflexivity)
    end.
    split; [exact Hinit|].
    match goal with
    | |- ?lhs = ?rhs /\ _ => assert (Hcall : lhs = rhs) by (vm_compute; reflexivity)
    end.
    split; [exact Hcall|].
    exact (proj1 (proj2 (proj2 (proj2 (proj2 solver_policies_hold_declared_actions))))
             _ _ _ _ _ _ _ _ _ _ _ Hinit Hcall).
Defined.

(** One episode on the recording grid: right, right, right, down into Tom. *)
Lemma q_learning_passes_declared_actions_only_witness :
  exists self r self' g',
    QLearning.__init__ {| Logged.inner := TomAndJerry.init; Logged.calls := [] |}
      default_alpha default_gamma 1%Qc = Ok self /\
    QLearning.__call__ 10 1 (self, tape_to_tom) = (r, (self', g')) /\
    Logged.calls (QLearning.mdp self')
      = [Logged.ResetCall; Logged.StepCall 1; Logged.StepCall 1; Logged.StepCall 1; Logged.StepCall 2] /\
    never_raises r /\
    steps_within (declared_actions TomAndJerry.init) (Logged.calls (QLearning.mdp self')).
Proof.
  do 4 eexists.
  match goal with
  | |- ?lhs = ?rhs /\ _ => assert (Hinit : lhs = rhs) by (vm_compute; reflexivity)
  end.
  split; [exact Hinit|].
  match goal with
  | |- ?lhs = ?rhs /\ _ => assert (Hcall : lhs = rhs) by (vm_compute; reflexivity)
  end.
  split; [exact Hcall|]. split; [vm_compute; reflexivity|].
  exact (proj2 (proj1 q_learning_passes_declared_actions_only _ _ _ _ _ _ _) _ _ _ _
           Hinit Hcall).
Defined.

(** The transition from [(1,2)] to Tom: the entry for action 1 becomes
    [0 + 1/100 * (-1 + 9/10 * 0 - 0)]. *)
Lemma q_learning_td_update_witness :
  exists self s2 d msv' self' g',
    QLearning.__init__ {| TomAndJerry.jerry := (1, 2) |} default_alpha default_gamma 1%Qc
      = Ok self /\
    QLearning.transition (1, 2) [] (self, tape_to_tom) = (Ok (s2, d, msv'), (self', g')) /\
    s2 = (1, 3) /\
    Q_entry (QLearning.Q self') (1, 2) 1 = Some (Q2Qc (-1 # 100)) /\
    exists (a : Z) (r : Qc) (g1 : Rng) (e1 : TomAndJerry.t) (q m : Qc) (row' : list Qc),
      QLearning.__select_action (1, 2) (self, tape_to_tom) = (Ok a, (self, g1)) /\
      step a (QLearning.mdp self, g1) = (Ok (s2, r, d), (e1, g')) /\
      0 <= a /\
      Q_entry (QLearning.Q self) (1, 2) (Z.to_nat a) = Some q /\
      dict_get s2 (QLearning.Q self) = Some row' /\ py_max row' = Ok m /\
      Q_entry (QLearning.Q self') (1, 2) (Z.to_nat a)
        = Some (q + QLearning.alpha self * (r + QLearning.gamma self * m - q))%Qc /\
      forall s0 k, s0 <> (1, 2) \/ k <> Z.to_nat a ->
        Q_entry (QLearning.Q self') s0 k = Q_entry (QLearning.Q self) s0 k.
Proof.
  do 6 eexists. split; [vm_compute; reflexivity|].
  match goal with
  | |- ?lhs = ?rhs /\ _ => assert (Hrun : lhs = rhs) by (vm_compute; reflexivity)
  end.
  split; [exact Hrun|]. split; [reflexivity|].
  split; [vm_compute; f_equal; apply Qc_is_canon; reflexivity|].
  exact (q_learning_td_update _ _ _ _ _ _ _ _ _ Hrun).
Defined.

(** * Further properties of the environments *)

(** ** The declared states *)

Lemma TomAndJerry_declared_on_board (e : TomAndJerry.t) (x y : Z) :
  (x, y) ∈ declared_states e <->
  0 <= x <= 3 /\ 0 <= y <= 3 /\ (x, y) ∉ TomAndJerry.traps.
Proof.
  change (declared_states e) with TomAndJerry_states. split.
  - intros Hin. unfold TomAndJerry_states in Hin. vm_compute in Hin.
    repeat (apply elem_of_cons in Hin as [Heq|Hin];
            [injection Heq as -> ->; split; [lia|split; [lia|compute_done]]|]).
    by apply elem_of_nil in Hin.
  - intros (Hx & Hy & Htrap). apply TomAndJerry_cell; [|done].
    unfold TomAndJerry.in_grid. rewrite !andb_true_iff, !Z.leb_le. lia.
Qed.

(** X1. The grid declares exactly the cells of the 4x4 board that are not
    traps, each once: fourteen states, the start cell and both terminal
    cells among them. *)
Theorem TomAndJerry_declared_states_exact (e : TomAndJerry.t) :
  (forall x y : Z,
      (x, y) ∈ declared_states e <->
      0 <= x <= 3 /\ 0 <= y <= 3 /\ (x, y) ∉ TomAndJerry.traps) /\
  NoDup (declared_states e) /\
  length (declared_states e) = 14%nat /\
  TomAndJerry.jerry TomAndJerry.init ∈ declared_states e /\
  (forall s, s ∈ get_terminal_states e -> s ∈ declared_states e).
Proof.
  split; [exact (TomAndJerry_declared_on_board e)|].
  change (declared_states e) with TomAndJerry_states.
  split; [|split; [|split]].
  - apply (bool_decide_unpack _). vm_compute. exact I.
  - vm_compute. reflexivity.
  - compute_done.
  - intros s Hs. cbn in Hs. elem_cases Hs; compute_done.
Qed.

Lemma TomAndJerry_declared_states_exact_witness :
  (2, 3) ∈ get_terminal_states TomAndJerry.init /\
  (2, 3) ∈ declared_states TomAndJerry.init.
Proof.
  assert (Ht : (2, 3) ∈ get_terminal_states TomAndJerry.init) by compute_done.
  split; [exact Ht|].
  exact (proj2 (proj2 (proj2 (proj2
           (TomAndJerry_declared_states_exact TomAndJerry.init)))) _ Ht).
Defined.

Lemma BitStrings_states_are_bits :
  forallb (fun s =>
    Nat.eqb (String.length s) 9
    && forallb (fun c => bool_decide (c = "0"%char \/ c = "1"%char))
               (list_ascii_of_string s)) BitStrings_states = true.
Proof. vm_compute. reflexivity. Qed.

(** X2. The bit-string environment declares exactly the strings of nine
    characters ['0'] or ['1'], each once: 512 states, the start string and
    the three terminal strings among them. *)
Theorem BitStrings_declared_states_exact (e : BitStrings.t) :
  (forall s : string,
      s ∈ declared_states e <-> String.length s = 9%nat /\ is_bits s) /\
  NoDup (declared_states e) /\
  length (declared_states e) = 512%nat /\
  BitStrings.state BitStrings.init ∈ declared_states e /\
  (forall s, s ∈ get_terminal_states e -> s ∈ declared_states e).
Proof.
  assert (Hd : declared_states e = BitStrings_states).
  { unfold declared_states. by rewrite BitStrings_declared. }
  rewrite Hd. split; [|split; [|split; [|split]]].
  - intros s. split.
    + intros Hin. pose proof BitStrings_states_are_bits as H.
      rewrite forallb_forall in H. apply list_elem_of_In in Hin.
      specialize (H s Hin). cbv beta in H.
      apply andb_true_iff in H as [Hlen Hbits].
      split; [by apply Nat.eqb_eq|].
      unfold is_bits. apply Forall_forall. intros c Hc.
      rewrite forallb_forall in Hbits. apply list_elem_of_In in Hc.
      specialize (Hbits c Hc). by apply bool_decide_eq_true_1 in Hbits.
    + intros [Hlen Hbits]. unfold is_bits in Hbits.
      do 9 (destruct s as [|? s]; [discriminate Hlen|];
            cbn [String.length] in Hlen; injection Hlen as Hlen;
            cbn [list_ascii_of_string] in Hbits;
            apply Forall_cons in Hbits as [Hc Hbits]; revert Hc).
      destruct s; [|discriminate Hlen]. clear.
      intros [-> | ->] [-> | ->] [-> | ->] [-> | ->] [-> | ->] [-> | ->]
             [-> | ->] [-> | ->] [-> | ->]; compute_done.
  - apply (bool_decide_unpack _). vm_compute. exact I.
  - vm_compute. reflexivity.
  - compute_done.
  - intros s Hs. cbn in Hs. elem_cases Hs; compute_done.
Qed.

Lemma BitStrings_declared_states_exact_witness :
  "111111111"%string ∈ get_terminal_states BitStrings.init /\
  "111111111"%string ∈ declared_states BitStrings.init.
Proof.
  assert (Ht : "111111111"%string ∈ get_terminal_states BitStrings.init) by compute_done.
  split; [exact Ht|].
  exact (proj2 (proj2 (proj2 (proj2
           (BitStrings_declared_states_exact BitStrings.init)))) _ Ht).
Defined.

(** ** What [step] does, case by case *)

(** The grid: on a non-terminal cell [step] draws one of three directions
    and either moves there or, when the move is blocked, stays. *)
Lemma TomAndJerry_step_cases (e : TomAndJerry.t) (g : Rng) (a : Z) :
  a ∈ TomAndJerry.allowed_actions ->
  TomAndJerry.jerry e ∉ TomAndJerry.get_terminal_states e ->
  exists c ddx ddy,
    c ∈ (if a mod 2 =? 0 then [a; 1; 3] else [a; 0; 2]) /\
    py_getitem TomAndJerry.dx c = Ok ddx /\ py_getitem TomAndJerry.dy c = Ok ddy /\
    let new := ((TomAndJerry.jerry e).1 + ddx, (TomAndJerry.jerry e).2 + ddy) in
    TomAndJerry.step a (e, g)
    = if bool_decide (new ∉ TomAndJerry.traps) && TomAndJerry.in_grid new.1 new.2
      then (Ok (new, (0 + TomAndJerry.get_reward e (TomAndJerry.jerry e) c new)%Qc,
                bool_decide ((0 + TomAndJerry.get_reward e (TomAndJerry.jerry e) c new)%Qc
                             <> 0%Qc)),
            ({| TomAndJerry.jerry := new |}, advance g))
      else (Ok (TomAndJerry.jerry e, 0%Qc, false), (e, advance g)).
Proof.
  intros Ha Ht. unfold TomAndJerry.step.
  rewrite bool_decide_eq_false_2 by (intros Hn; contradiction).
  unfold bind at 1. unfold on_fst at 1, get at 1. cbn [fst snd].
  rewrite bool_decide_eq_false_2 by done.
  assert (Hch : exists c,
    c ∈ (if a mod 2 =? 0 then [a; 1; 3] else [a; 0; 2]) /\
    (if a mod 2 =? 0 then on_snd (random_choice ([a] ++ [1; 3]))
     else on_snd (random_choice ([a] ++ [0; 2]))) (e, g) = (Ok c, (e, advance g))).
  { destruct (a mod 2 =? 0); unfold on_snd; cbn [fst snd app];
      [destruct (random_choice_spec [a; 1; 3] g) as (c & Hc & ->); [done|]
      |destruct (random_choice_spec [a; 0; 2] g) as (c & Hc & ->); [done|]];
      eauto. }
  destruct Hch as (c & Hc & Hrun).
  destruct (TomAndJerry_chosen a Ha c Hc) as (ddx & ddy & Hdx & Hdy).
  exists c, ddx, ddy. split; [done|]. split; [done|]. split; [done|].
  cbn zeta. unfold bind at 1. rewrite Hrun.
  unfold bind at 1, lift at 1. rewrite Hdx.
  unfold bind at 1, lift at 1. rewrite Hdy. cbn [fst snd].
  destruct (bool_decide (((TomAndJerry.jerry e).1 + ddx, (TomAndJerry.jerry e).2 + ddy)
                           ∉ TomAndJerry.traps)
            && TomAndJerry.in_grid ((TomAndJerry.jerry e).1 + ddx)
                                   ((TomAndJerry.jerry e).2 + ddy)) eqn:Hmove.
  - unfold bind, on_fst, put, get, ret. cbn [fst snd TomAndJerry.jerry].
    repeat case_bool_decide; done.
  - reflexivity.
Qed.

Lemma TomAndJerry_reward_terminal (e : TomAndJerry.t) (s : TomAndJerry.State)
    (a : Z) (s' : TomAndJerry.State) :
  TomAndJerry.get_reward e s a s' <> 0%Qc <-> s' ∈ TomAndJerry.get_terminal_states e.
Proof.
  unfold TomAndJerry.get_reward, TomAndJerry.get_terminal_states.
  repeat case_bool_decide; subst; split; try done.
  - intros _. by left.
  - intros _. right. by left.
  - intros Hin. elem_cases Hin; done.
Qed.

Lemma BitStrings_reward_terminal (e : BitStrings.t) (s : string) (a : Z) (s' : string) :
  BitStrings.get_reward e s a s' <> 0%Qc <-> s' ∈ BitStrings.get_terminal_states e.
Proof.
  unfold BitStrings.get_reward, BitStrings.get_terminal_states.
  rewrite elem_of_app. repeat case_bool_decide; split; try done; auto.
  intros [|]; done.
Qed.



Lemma BitStrings_step_cases (e : BitStrings.t) (g : Rng) (a : Z) :
  a ∈ BitStrings_actions ->
  BitStrings.state e ∉ BitStrings.get_terminal_states e ->
  exists c g1,
    c ∈ (if a <? 8 then [a; a + 1] else [a]) /\
    g1 = (if a <? 8 then advance g else g) /\
    BitStrings.step a (e, g)
    = match BitStrings.flip (BitStrings.state e) c with
      | Ok next =>
          (Ok (next, BitStrings.get_reward e (BitStrings.state e) c next,
               bool_decide (BitStrings.get_reward e (BitStrings.state e) c next <> 0%Qc)),
           ({| BitStrings.state := next |}, g1))
      | Raise x => (Raise x, (e, g1))
      | OutOfFuel => (OutOfFuel, (e, g1))
      end.
Proof.
  intros Ha Ht. unfold BitStrings.step.
  pose proof Ha as Hrange. apply BitStrings_range in Hrange. rewrite Hrange.
  unfold bind at 1, on_fst at 1, get at 1. cbn [fst snd].
  rewrite bool_decide_eq_false_2 by done.
  assert (Hch : exists c,
    c ∈ (if a <? 8 then [a; a + 1] else [a]) /\
    (if a <? 8 then on_snd (random_choice [a; a + 1]) else ret a) (e, g)
      = (Ok c, (e, if a <? 8 then advance g else g))).
  { destruct (a <? 8); unfold on_snd, ret; cbn [fst snd].
    - destruct (random_choice_spec [a; a + 1] g) as (c & Hc & ->); [done|]. eauto.
    - exists a. split; [by left|done]. }
  destruct Hch as (c & Hc & Hrun). exists c. eexists. split; [done|]. split; [done|].
  unfold bind at 1. rewrite Hrun. unfold bind at 1, lift at 1.
  destruct (BitStrings.flip (BitStrings.state e) c) as [next| |]; try reflexivity.
  unfold bind, on_fst, put, get, ret. cbn [fst snd BitStrings.state].
  repeat case_bool_decide; done.
Qed.

(** X4. In both environments a call of [step] that returns gives back the
    state the object is left in; [done] is [True] exactly when that state is
    terminal, and the reward is different from 0 exactly when the call moved
    from a non-terminal state into a terminal one. *)
Theorem step_done_iff_terminal :
  (forall (e : TomAndJerry.t) g a s r d e' g',
      step a (e, g) = (Ok (s, r, d), (e', g')) ->
      s = TomAndJerry.jerry e' /\
      (d = true <-> s ∈ get_terminal_states e') /\
      (r <> 0%Qc <->
       (TomAndJerry.jerry e ∉ get_terminal_states e) /\ s ∈ get_terminal_states e')) /\
  (forall (e : BitStrings.t) g a s r d e' g',
      step a (e, g) = (Ok (s, r, d), (e', g')) ->
      s = BitStrings.state e' /\
      (d = true <-> s ∈ get_terminal_states e') /\
      (r <> 0%Qc <->
       (BitStrings.state e ∉ get_terminal_states e) /\ s ∈ get_terminal_states e')).
Proof.
  split; intros e g a s r d e' g' Hstep.
  - change (TomAndJerry.step a (e, g) = (Ok (s, r, d), (e', g'))) in Hstep.
    change (@get_terminal_states _ _ TomAndJerry_mdp) with TomAndJerry.get_terminal_states.
    destruct (decide (a ∈ TomAndJerry.allowed_actions)) as [Ha|Ha];
      [|rewrite TomAndJerry_step_invalid in Hstep by done; discriminate].
    destruct (decide (TomAndJerry.jerry e ∈ TomAndJerry.get_terminal_states e)) as [Ht|Ht].
    { rewrite TomAndJerry_step_terminal in Hstep by done.
      injection Hstep as <- <- <- <- <-. split; [done|]. split; [done|].
      split; [done|]. intros [Hn _]. contradiction. }
    destruct (TomAndJerry_step_cases e g a Ha Ht) as (c & ddx & ddy & _ & _ & _ & Heq).
    cbn zeta in Heq. rewrite Heq in Hstep. clear Heq.
    destruct (bool_decide _ && _).
    + injection Hstep as <- <- <- <- <-. cbn [TomAndJerry.jerry].
      split; [done|]. rewrite Qcplus_0_l, bool_decide_eq_true.
      rewrite TomAndJerry_reward_terminal. split; [done|]. split; [done|]. by intros [_ ?].
    + injection Hstep as <- <- <- <- <-. split; [done|]. split.
      * split; [discriminate|]. intros Hin. contradiction.
      * split; [done|]. intros [_ Hin]. contradiction.
  - change (BitStrings.step a (e, g) = (Ok (s, r, d), (e', g'))) in Hstep.
    change (@get_terminal_states _ _ BitStrings_mdp) with BitStrings.get_terminal_states.
    destruct (decide (a ∈ BitStrings_actions)) as [Ha|Ha];
      [|rewrite BitStrings_step_invalid in Hstep by done; discriminate].
    destruct (decide (BitStrings.state e ∈ BitStrings.get_terminal_states e)) as [Ht|Ht].
    { rewrite BitStrings_step_terminal in Hstep by done.
      injection Hstep as <- <- <- <- <-. split; [done|]. split; [done|].
      split; [done|]. intros [Hn _]. contradiction. }
    destruct (BitStrings_step_cases e g a Ha Ht) as (c & g1 & _ & _ & Heq).
    rewrite Heq in Hstep. clear Heq.
    destruct (BitStrings.flip (BitStrings.state e) c) as [next| |]; try discriminate.
    injection Hstep as <- <- <- <- <-. cbn [BitStrings.state].
    split; [done|]. rewrite bool_decide_eq_true.
    rewrite BitStrings_reward_terminal. split; [done|]. split; [done|]. by intros [_ ?].
Qed.

Lemma step_done_iff_terminal_witness :
  step 1 ({| TomAndJerry.jerry := (1, 2) |}, tape_zero)
    = (Ok ((1, 3), (- 1)%Qc, true), ({| TomAndJerry.jerry := (1, 3) |}, advance tape_zero)) /\
  (true = true <-> (1, 3) ∈ get_terminal_states {| TomAndJerry.jerry := (1, 3) |}) /\
  ((- 1)%Qc <> 0%Qc <->
   ((1, 2) ∉ get_terminal_states {| TomAndJerry.jerry := (1, 2) |}) /\
   (1, 3) ∈ get_terminal_states {| TomAndJerry.jerry := (1, 3) |}).
Proof.
  assert (Hstep : step 1 ({| TomAndJerry.jerry := (1, 2) |}, tape_zero)
    = (Ok ((1, 3), (- 1)%Qc, true), ({| TomAndJerry.jerry := (1, 3) |}, advance tape_zero))).
  { vm_compute. reflexivity. }
  split; [exact Hstep|].
  exact (proj2 (proj1 step_done_iff_terminal _ _ _ _ _ _ _ _ Hstep)).
Defined.

(** ** The states an environment can be in *)

Lemma TomAndJerry_reachable (e : TomAndJerry.t) :
  reachable TomAndJerry.init e -> TomAndJerry.jerry e ∈ TomAndJerry_states.
Proof.
  induction 1 as [|e _ IH|e a g _ IH].
  - compute_done.
  - compute_done.
  - change (@step _ _ TomAndJerry_mdp a (e, g)) with (TomAndJerry.step a (e, g)).
    destruct (decide (a ∈ TomAndJerry.allowed_actions)) as [Ha|Ha].
    + destruct (TomAndJerry_step_valid e g a Ha) as (r & d & e' & g' & Heq & He' & _).
      rewrite Heq. by apply He'.
    + rewrite TomAndJerry_step_invalid by done. done.
Qed.

(** X5. In both environments the object never leaves the declared states:
    whatever sequence of [reset] and [step] calls it has received, its
    current state is a declared state, and so is every state that [reset]
    or [step] returns next. *)
Theorem environments_stay_in_declared_states :
  (forall (e : TomAndJerry.t),
      reachable TomAndJerry.init e ->
      TomAndJerry.jerry e ∈ declared_states e /\
      (forall a g s r d w', step a (e, g) = (Ok (s, r, d), w') -> s ∈ declared_states e) /\
      (forall s r d e', reset e = (Ok (s, r, d), e') -> s ∈ declared_states e)) /\
  (forall (e : BitStrings.t),
      reachable BitStrings.init e ->
      BitStrings.state e ∈ declared_states e /\
      (forall a g s r d w', step a (e, g) = (Ok (s, r, d), w') -> s ∈ declared_states e) /\
      (forall s r d e', reset e = (Ok (s, r, d), e') -> s ∈ declared_states e)).
Proof.
  split; intros e Hreach.
  - change (declared_states e) with TomAndJerry_states.
    split; [by apply TomAndJerry_reachable|]. split.
    + intros a g s r d [e' g'] Hstep.
      pose proof (reachable_step _ e a g Hreach) as Hnext. rewrite Hstep in Hnext.
      apply TomAndJerry_reachable in Hnext.
      apply TomAndJerry_step_returns in Hstep as [-> _]. exact Hnext.
    + intros s r d e' [= <- _ _ _]. compute_done.
  - assert (Hd : declared_states e = BitStrings_states).
    { unfold declared_states. by rewrite BitStrings_declared. }
    rewrite Hd. split; [by apply BitStrings_reachable|]. split.
    + intros a g s r d [e' g'] Hstep.
      pose proof (reachable_step _ e a g Hreach) as Hnext. rewrite Hstep in Hnext.
      apply BitStrings_reachable in Hnext.
      apply BitStrings_step_returns in Hstep as [-> _]. exact Hnext.
    + intros s r d e' [= <- _ _ _]. compute_done.
Qed.

Lemma environments_stay_in_declared_states_witness :
  reachable BitStrings.init (step 3 (BitStrings.init, tape_zero)).2.1 /\
  BitStrings.state (step 3 (BitStrings.init, tape_zero)).2.1
    ∈ declared_states (step 3 (BitStrings.init, tape_zero)).2.1.
Proof.
  assert (Hreach : reachable BitStrings.init (step 3 (BitStrings.init, tape_zero)).2.1)
    by (apply reachable_step, reachable_init).
  split; [exact Hreach|].
  exact (proj1 (proj2 environments_stay_in_declared_states _ Hreach)).
Defined.

(** ** The transition probabilities *)

Lemma Qc_third_nonzero : Q2Qc (1 # 3) <> 0%Qc.
Proof. compute_done. Qed.

Lemma Qc_half_nonzero : Q2Qc (1 # 2) <> 0%Qc.
Proof. compute_done. Qed.

(** The loop of [TomAndJerry.get_transition_prob] that collects the possible
    next states. *)
Lemma TomAndJerry_possible_next_states (state : TomAndJerry.State)
    (l : list Z) (acc : list TomAndJerry.State) :
  (forall c, c ∈ l -> c ∈ TomAndJerry.allowed_actions) ->
  exists out,
    for_each l acc (fun possible_next_states a =>
      ddx ← py_getitem TomAndJerry.dx a;
      ddy ← py_getitem TomAndJerry.dy a;
      let new_x := state.1 + ddx in
      let new_y := state.2 + ddy in
      if bool_decide ((new_x, new_y) ∉ TomAndJerry.traps) && TomAndJerry.in_grid new_x new_y
      then Ok (possible_next_states ++ [(new_x, new_y)])
      else Ok possible_next_states) = Ok out /\
    forall s', s' ∈ out <->
      s' ∈ acc \/
      exists c ddx ddy,
        c ∈ l /\ py_getitem TomAndJerry.dx c = Ok ddx /\
        py_getitem TomAndJerry.dy c = Ok ddy /\
        s' = (state.1 + ddx, state.2 + ddy) /\
        (s' ∉ TomAndJerry.traps) /\ TomAndJerry.in_grid s'.1 s'.2 = true.
Proof.
  revert acc. induction l as [|c l IH]; intros acc Hl.
  - exists acc. split; [reflexivity|]. intros s'. split; [by left|].
    intros [Hin|(c & _ & _ & Hc & _)]; [done|]. by apply elem_of_nil in Hc.
  - assert (Hc : c ∈ TomAndJerry.allowed_actions) by (apply Hl; by left).
    assert (Hdir : exists ddx ddy,
      py_getitem TomAndJerry.dx c = Ok ddx /\ py_getitem TomAndJerry.dy c = Ok ddy).
    { unfold TomAndJerry.allowed_actions in Hc. elem_cases Hc; vm_compute; eauto. }
    destruct Hdir as (ddx & ddy & Hdx & Hdy).
    cbn [for_each]. rewrite Hdx, Hdy. cbn [mbind res_bind]. cbn zeta.
    destruct (bool_decide ((state.1 + ddx, state.2 + ddy) ∉ TomAndJerry.traps)
              && TomAndJerry.in_grid (state.1 + ddx) (state.2 + ddy)) eqn:Hcond;
      cbn [mbind res_bind].
    + destruct (IH (acc ++ [(state.1 + ddx, state.2 + ddy)])) as (out & Hout & Hiff).
      { intros c' Hc'. apply Hl. by right. }
      exists out. split; [exact Hout|]. intros s'. rewrite Hiff, elem_of_app.
      apply andb_true_iff in Hcond as [Htrap Hgrid].
      apply bool_decide_eq_true_1 in Htrap.
      split.
      * intros [[Hin|Hin]|(c' & dx' & dy' & Hc' & Hrest)].
        -- by left.
        -- apply list_elem_of_singleton in Hin as ->. right.
           exists c, ddx, ddy. split; [by left|]. done.
        -- right. exists c', dx', dy'. split; [by right|]. done.
      * intros [Hin|(c' & dx' & dy' & Hc' & Hdx' & Hdy' & Hrest)]; [by left; left|].
        apply elem_of_cons in Hc' as [->|Hc'].
        -- left. right. apply list_elem_of_singleton.
           destruct Hrest as (-> & _). congruence.
        -- right. exists c', dx', dy'. done.
    + destruct (IH acc) as (out & Hout & Hiff).
      { intros c' Hc'. apply Hl. by right. }
      exists out. split; [exact Hout|]. intros s'. rewrite Hiff. split.
      * intros [Hin|(c' & dx' & dy' & Hc' & Hrest)]; [by left|].
        right. exists c', dx', dy'. split; [by right|]. done.
      * intros [Hin|(c' & dx' & dy' & Hc' & Hdx' & Hdy' & -> & Htrap & Hgrid)]; [by left|].
        apply elem_of_cons in Hc' as [->|Hc'].
        -- assert (dx' = ddx) as -> by congruence. assert (dy' = ddy) as -> by congruence.
           cbn [fst snd] in Hgrid. rewrite Hgrid, andb_true_r in Hcond.
           apply bool_decide_eq_false_1 in Hcond. contradiction.
        -- right. exists c', dx', dy'. done.
Qed.

(** The three early returns and the final membership test of the grid's
    [get_transition_prob]. *)
Lemma TomAndJerry_transition_prob_cases (e : TomAndJerry.t)
    (state : TomAndJerry.State) (action : Z) (next_state : TomAndJerry.State) :
  exists p,
    get_transition_prob e state action next_state = Ok p /\
    (p = 0%Qc \/ p = Q2Qc (1 # 3)) /\
    (p = Q2Qc (1 # 3) <->
     (0 <= state.1 <= 3 /\ 0 <= state.2 <= 3) /\
     action ∈ declared_actions e /\
     (state ∉ get_terminal_states e) /\
     exists c ddx ddy,
       c ∈ (if action mod 2 =? 0 then [1; 3] else [0; 2]) ++ [action] /\
       py_getitem TomAndJerry.dx c = Ok ddx /\ py_getitem TomAndJerry.dy c = Ok ddy /\
       next_state = (state.1 + ddx, state.2 + ddy) /\
       (next_state ∉ TomAndJerry.traps) /\
       TomAndJerry.in_grid next_state.1 next_state.2 = true).
Proof.
  change (@get_transition_prob _ _ TomAndJerry_mdp) with TomAndJerry.get_transition_prob.
  change (@get_terminal_states _ _ TomAndJerry_mdp) with TomAndJerry.get_terminal_states.
  change (declared_actions e) with TomAndJerry.allowed_actions.
  pose proof Qc_third_nonzero as Hthird.
  unfold TomAndJerry.get_transition_prob.
  destruct ((state.1 <? 0) || (state.1 >? 3) || (state.2 <? 0) || (state.2 >? 3)) eqn:Hout.
  { exists 0%Qc. split; [done|]. split; [by left|]. split; [by intros ?%eq_sym|].
    intros (Hin & _). rewrite !orb_true_iff in Hout. lia. }
  rewrite !orb_false_iff in Hout.
  case_bool_decide as Hact.
  { exists 0%Qc. split; [done|]. split; [by left|]. split; [by intros ?%eq_sym|].
    intros (_ & Ha & _). contradiction. }
  case_bool_decide as Hterm.
  { exists 0%Qc. split; [done|]. split; [by left|]. split; [by intros ?%eq_sym|].
    intros (_ & _ & Ht & _). contradiction. }
  destruct (TomAndJerry_possible_next_states state
              ((if action mod 2 =? 0 then [1; 3] else [0; 2]) ++ [action]) [])
    as (out & Hrun & Hiff).
  { intros c Hc. apply elem_of_app in Hc as [Hc|Hc].
    - destruct (action mod 2 =? 0); elem_cases Hc; compute_done.
    - by apply list_elem_of_singleton in Hc as ->. }
  match goal with
  | |- context [mbind _ ?m] => replace m with (Ok out) by (symmetry; exact Hrun)
  end.
  cbn [mbind res_bind].
  case_bool_decide as Hnext.
  - exists (Q2Qc (1 # 3)). split; [done|]. split; [by right|]. split; [|done].
    intros _. split; [lia|]. split; [done|]. split; [done|].
    apply Hiff in Hnext as [Hnil|Hnext]; [by apply elem_of_nil in Hnil|]. exact Hnext.
  - exists 0%Qc. split; [done|]. split; [by left|]. split; [by intros ?%eq_sym|].
    intros (_ & _ & _ & Hex). exfalso. apply Hnext, Hiff. by right.
Qed.

(** X6. The grid's [get_transition_prob] never raises and returns 0 or 1/3.
    It returns 1/3 exactly when the state is on the board and not terminal,
    the action is declared, and the next state is the cell one step in the
    direction of the action or of one of its two perpendicular directions,
    on the board and not a trap. *)
Theorem TomAndJerry_transition_prob_exact (e : TomAndJerry.t)
    (state : TomAndJerry.State) (action : Z) (next_state : TomAndJerry.State) :
  exists p,
    get_transition_prob e state action next_state = Ok p /\
    (p = 0%Qc \/ p = Q2Qc (1 # 3)) /\
    (p = Q2Qc (1 # 3) <->
     (0 <= state.1 <= 3 /\ 0 <= state.2 <= 3) /\
     action ∈ declared_actions e /\
     (state ∉ get_terminal_states e) /\
     exists c ddx ddy,
       c ∈ (if action mod 2 =? 0 then [1; 3] else [0; 2]) ++ [action] /\
       py_getitem TomAndJerry.dx c = Ok ddx /\ py_getitem TomAndJerry.dy c = Ok ddy /\
       next_state = (state.1 + ddx, state.2 + ddy) /\
       (next_state ∉ TomAndJerry.traps) /\
       TomAndJerry.in_grid next_state.1 next_state.2 = true).
Proof. exact (TomAndJerry_transition_prob_cases e state action next_state). Qed.

Lemma TomAndJerry_transition_prob_exact_witness :
  exists p,
    get_transition_prob TomAndJerry.init (0, 0) 1 (0, 1) = Ok p /\
    (p = 0%Qc \/ p = Q2Qc (1 # 3)).
Proof.
  destruct (TomAndJerry_transition_prob_exact TomAndJerry.init (0, 0) 1 (0, 1))
    as (p & Hp & Hcases & _).
  exists p. split; [exact Hp|exact Hcases].
Defined.

(** The early returns and the membership test of the bit strings'
    [get_transition_prob], on a declared string. *)
Lemma BitStrings_transition_prob_cases (e : BitStrings.t)
    (state : string) (action : Z) (next_state : string) :
  state ∈ declared_states e ->
  exists p,
    get_transition_prob e state action next_state = Ok p /\
    (p = 0%Qc \/ p = Q2Qc (1 # 2)) /\
    (p = Q2Qc (1 # 2) <->
     action ∈ declared_actions e /\
     (state ∉ get_terminal_states e) /\
     (BitStrings.flip state action = Ok next_state \/
      (action < 8 /\ BitStrings.flip state (action + 1) = Ok next_state))).
Proof.
  intros Hs0.
  assert (Hs : state ∈ BitStrings_states).
  { unfold declared_states in Hs0. by rewrite BitStrings_declared in Hs0. }
  clear Hs0. rewrite BitStrings_declared_actions.
  change (@get_transition_prob _ _ BitStrings_mdp) with BitStrings.get_transition_prob.
  change (@get_terminal_states _ _ BitStrings_mdp) with BitStrings.get_terminal_states.
  pose proof Qc_half_nonzero as Hhalf.
  unfold BitStrings.get_transition_prob.
  destruct ((action <? 0) || (action >? 8)) eqn:Hrange.
  { exists 0%Qc. split; [done|]. split; [by left|]. split; [by intros ?%eq_sym|].
    intros (Ha & _). apply BitStrings_range in Ha. congruence. }
  apply BitStrings_range in Hrange.
  case_bool_decide as Hterm.
  { exists 0%Qc. split; [done|]. split; [by left|]. split; [by intros ?%eq_sym|].
    intros (_ & Ht & _). contradiction. }
  destruct (BitStrings_flip_closed state action Hs Hrange) as (s1 & Hs1 & _).
  rewrite Hs1. cbn [mbind res_bind app].
  destruct (Z.ltb_spec action 8) as [Hlt|Hge].
  - destruct (BitStrings_flip_closed state (action + 1) Hs) as (s2 & Hs2 & _).
    { unfold BitStrings_actions in *. rewrite elem_of_seqZ in *. lia. }
    rewrite Hs2. cbn [mbind res_bind app].
    case_bool_decide as Hnext.
    + exists (Q2Qc (1 # 2)). split; [done|]. split; [by right|]. split; [|done].
      intros _. split; [done|]. split; [done|].
      elem_cases Hnext; [by left|right; done].
    + exists 0%Qc. split; [done|]. split; [by left|]. split; [by intros ?%eq_sym|].
      intros (_ & _ & [Hf|[_ Hf]]); exfalso; apply Hnext.
      * assert (s1 = next_state) as -> by congruence. by left.
      * assert (s2 = next_state) as -> by congruence. right. by left.
  - cbn [mbind res_bind].
    case_bool_decide as Hnext.
    + exists (Q2Qc (1 # 2)). split; [done|]. split; [by right|]. split; [|done].
      intros _. split; [done|]. split; [done|]. elem_cases Hnext. by left.
    + exists 0%Qc. split; [done|]. split; [by left|]. split; [by intros ?%eq_sym|].
      intros (_ & _ & [Hf|[Hlt _]]); [|lia]. exfalso. apply Hnext.
      assert (s1 = next_state) as -> by congruence. by left.
Qed.

(** X7. On a declared bit string [get_transition_prob] returns 0 or 1/2, and
    1/2 exactly when the action is declared, the string is not terminal and
    the next state is the string with the bit of the action flipped or, for
    an action below 8, with the following bit flipped. *)
Theorem BitStrings_transition_prob_exact (e : BitStrings.t)
    (state : string) (action : Z) (next_state : string) :
  state ∈ declared_states e ->
  exists p,
    get_transition_prob e state action next_state = Ok p /\
    (p = 0%Qc \/ p = Q2Qc (1 # 2)) /\
    (p = Q2Qc (1 # 2) <->
     action ∈ declared_actions e /\
     (state ∉ get_terminal_states e) /\
     (BitStrings.flip state action = Ok next_state \/
      (action < 8 /\ BitStrings.flip state (action + 1) = Ok next_state))).
Proof. exact (BitStrings_transition_prob_cases e state action next_state). Qed.

Lemma BitStrings_transition_prob_exact_witness :
  "000000000"%string ∈ declared_states BitStrings.init /\
  get_transition_prob BitStrings.init "000000000"%string 0 "010000000"%string
    = Ok (Q2Qc (1 # 2)).
Proof.
  assert (Hs : "000000000"%string ∈ declared_states BitStrings.init) by compute_done.
  split; [exact Hs|].
  destruct (BitStrings_transition_prob_exact BitStrings.init "000000000"%string 0
              "010000000"%string Hs) as (p & Hp & _ & Hiff).
  rewrite Hp. f_equal. apply Hiff.
  split; [compute_done|]. split; [compute_done|]. right. split; [lia|].
  vm_compute. reflexivity.
Defined.

(** X8. The bit-string [get_transition_prob] does not check its state: for an
    action between 0 and 8 and a non-terminal string with no character at
    the position of the action it raises [IndexError] (the grid's version
    returns 0 for a cell outside the board). *)
Theorem BitStrings_transition_prob_short_state (e : BitStrings.t)
    (state : string) (action : Z) (next_state : string) :
  0 <= action <= 8 ->
  state ∉ get_terminal_states e ->
  Z.of_nat (String.length state) <= action ->
  get_transition_prob e state action next_state = Raise IndexError.
Proof.
  intros Ha Ht Hlen.
  change (@get_transition_prob _ _ BitStrings_mdp) with BitStrings.get_transition_prob.
  unfold BitStrings.get_transition_prob.
  destruct (Z.ltb_spec action 0); [lia|]. destruct (Z.gtb_spec action 8); [lia|].
  cbn [orb]. rewrite bool_decide_eq_false_2 by done.
  unfold BitStrings.flip, py_str_getitem.
  destruct (Z.ltb_spec action 0); [lia|].
  destruct (Z.ltb_spec action 0); [lia|].
  destruct (Z.leb_spec (Z.of_nat (String.length state)) action); [|lia].
  reflexivity.
Qed.

Lemma BitStrings_transition_prob_short_state_witness :
  get_transition_prob BitStrings.init "01"%string 5 "00"%string = Raise IndexError.
Proof.
  apply BitStrings_transition_prob_short_state; [lia|compute_done|simpl; lia].
Defined.

(** ** Flipping a bit *)

Lemma flips_are_involutions :
  forallb (fun s =>
    forallb (fun c =>
      match BitStrings.flip s c with
      | Ok s' =>
          match BitStrings.flip s' c with
          | Ok s'' => bool_decide (s'' = s)
          | _ => false
          end
          && bool_decide (s' <> s)
          && forallb (fun i =>
               bool_decide (i = Z.to_nat c)
               || bool_decide (String.get i s' = String.get i s)) (seq 0 9)
      | _ => false
      end) BitStrings_actions) BitStrings_states = true.
Proof. vm_compute. reflexivity. Qed.

(** What [flip] does to a declared string at a declared position. *)
Lemma BitStrings_flip_facts (e : BitStrings.t) (s : string) (c : Z) :
  s ∈ declared_states e -> c ∈ declared_actions e ->
  exists s',
    BitStrings.flip s c = Ok s' /\ s' ∈ declared_states e /\ s' <> s /\
    BitStrings.flip s' c = Ok s /\
    forall i : nat, (i < 9)%nat -> i <> Z.to_nat c -> String.get i s' = String.get i s.
Proof.
  intros Hs0 Hc.
  assert (Hd : forall x : string, x ∈ declared_states e <-> x ∈ BitStrings_states).
  { intros x. unfold declared_states. by rewrite BitStrings_declared. }
  rewrite BitStrings_declared_actions in Hc. apply Hd in Hs0. rename Hs0 into Hs.
  destruct (BitStrings_flip_closed s c Hs Hc) as (s' & Hflip & Hs').
  exists s'. split; [done|]. split; [by apply Hd|].
  pose proof flips_are_involutions as H.
  rewrite forallb_forall in H. apply list_elem_of_In in Hs. specialize (H s Hs).
  cbv beta in H.
  rewrite forallb_forall in H. apply list_elem_of_In in Hc. specialize (H c Hc).
  cbv beta in H. rewrite Hflip in H.
  apply andb_true_iff in H as [H Hpos]. apply andb_true_iff in H as [Hback Hne].
  split; [by apply bool_decide_eq_true_1 in Hne|]. split.
  - destruct (BitStrings.flip s' c) as [s''| |]; try discriminate.
    by apply bool_decide_eq_true_1 in Hback as ->.
  - intros i Hi Hic. rewrite forallb_forall in Hpos.
    specialize (Hpos i). rewrite <- list_elem_of_In, elem_of_seq in Hpos.
    specialize (Hpos ltac:(lia)). apply orb_true_iff in Hpos as [Hpos|Hpos].
    + by apply bool_decide_eq_true_1 in Hpos.
    + by apply bool_decide_eq_true_1 in Hpos.
Qed.

(** X9. On a declared bit string and a declared action, the string that
    [step] and [get_transition_prob] build by slicing is again a declared
    string; it differs from the original at the position of the action and
    nowhere else, and flipping the same position again gives the original
    back. *)
Theorem BitStrings_flip_twice (e : BitStrings.t) (s : string) (c : Z) :
  s ∈ declared_states e -> c ∈ declared_actions e ->
  exists s',
    BitStrings.flip s c = Ok s' /\ s' ∈ declared_states e /\ s' <> s /\
    BitStrings.flip s' c = Ok s /\
    forall i : nat, (i < 9)%nat -> i <> Z.to_nat c -> String.get i s' = String.get i s.
Proof. exact (BitStrings_flip_facts e s c). Qed.

Lemma BitStrings_flip_twice_witness :
  exists s',
    BitStrings.flip "000000000"%string 3 = Ok s' /\ s' = "000100000"%string /\
    BitStrings.flip s' 3 = Ok "000000000"%string.
Proof.
  assert (Hs : "000000000"%string ∈ declared_states BitStrings.init) by compute_done.
  assert (Hc : 3 ∈ declared_actions BitStrings.init) by compute_done.
  destruct (BitStrings_flip_twice BitStrings.init _ _ Hs Hc)
    as (s' & Hflip & _ & _ & Hback & _).
  exists s'. split; [exact Hflip|]. split; [|exact Hback].
  assert (Hf : BitStrings.flip "000000000"%string 3 = Ok "000100000"%string)
    by (vm_compute; reflexivity).
  congruence.
Defined.

(** ** [step] against [get_transition_prob] *)

Lemma TomAndJerry_step_with_choice (e : TomAndJerry.t) (g g1 : Rng) (a c ddx ddy : Z) :
  a ∈ TomAndJerry.allowed_actions ->
  TomAndJerry.jerry e ∉ TomAndJerry.get_terminal_states e ->
  random_choice (if a mod 2 =? 0 then [a; 1; 3] else [a; 0; 2]) g = (Ok c, g1) ->
  py_getitem TomAndJerry.dx c = Ok ddx -> py_getitem TomAndJerry.dy c = Ok ddy ->
  let new := ((TomAndJerry.jerry e).1 + ddx, (TomAndJerry.jerry e).2 + ddy) in
  bool_decide (new ∉ TomAndJerry.traps) && TomAndJerry.in_grid new.1 new.2 = true ->
  exists r d, TomAndJerry.step a (e, g) = (Ok (new, r, d), ({| TomAndJerry.jerry := new |}, g1)).
Proof.
  intros Ha Ht Hch Hdx Hdy new Hcond. unfold TomAndJerry.step.
  rewrite bool_decide_eq_false_2 by (intros Hn; contradiction).
  unfold bind at 1. unfold on_fst at 1, get at 1. cbn [fst snd].
  rewrite bool_decide_eq_false_2 by done.
  assert (Hrun :
    (if a mod 2 =? 0 then on_snd (random_choice ([a] ++ [1; 3]))
     else on_snd (random_choice ([a] ++ [0; 2]))) (e, g) = (Ok c, (e, g1))).
  { destruct (a mod 2 =? 0); unfold on_snd; cbn [fst snd app]; by rewrite Hch. }
  unfold bind at 1. rewrite Hrun.
  unfold bind at 1, lift at 1. rewrite Hdx.
  unfold bind at 1, lift at 1. rewrite Hdy.
  subst new. cbn [fst snd] in Hcond.
  match goal with
  | |- context [if ?b then _ else _] =>
      replace b with true by (symmetry; exact Hcond)
  end.
  unfold bind, on_fst, put, get, ret. cbn [fst snd TomAndJerry.jerry]. eauto.
Qed.

Lemma BitStrings_step_with_choice (e : BitStrings.t) (g g1 : Rng) (a c : Z) (next : string) :
  a ∈ BitStrings_actions ->
  BitStrings.state e ∉ BitStrings.get_terminal_states e ->
  (if a <? 8 then on_snd (random_choice [a; a + 1]) else ret a) (e, g) = (Ok c, (e, g1)) ->
  BitStrings.flip (BitStrings.state e) c = Ok next ->
  exists r d, BitStrings.step a (e, g) = (Ok (next, r, d), ({| BitStrings.state := next |}, g1)).
Proof.
  intros Ha Ht Hrun Hflip. unfold BitStrings.step.
  apply BitStrings_range in Ha. rewrite Ha.
  unfold bind at 1, on_fst at 1, get at 1. cbn [fst snd].
  rewrite bool_decide_eq_false_2 by done.
  unfold bind at 1. rewrite Hrun. unfold bind at 1, lift at 1. rewrite Hflip.
  unfold bind, on_fst, put, get, ret. cbn [fst snd BitStrings.state]. eauto.
Qed.

(** X10. [step] and [get_transition_prob] agree on where a move can lead.
    From a reachable non-terminal state and a declared action, every state
    that [step] can return other than the current one has the non-zero
    probability (1/3 on the grid, 1/2 on the bit strings), and every state
    with that probability is returned by [step] for some random draw.  On
    the bit strings [step] never returns the current string. *)
Theorem step_agrees_with_transition_prob :
  (forall (e : TomAndJerry.t) (a : Z),
      reachable TomAndJerry.init e ->
      TomAndJerry.jerry e ∉ get_terminal_states e ->
      a ∈ declared_actions e ->
      (forall g s r d w',
          step a (e, g) = (Ok (s, r, d), w') -> s <> TomAndJerry.jerry e ->
          get_transition_prob e (TomAndJerry.jerry e) a s = Ok (Q2Qc (1 # 3))) /\
      (forall s,
          get_transition_prob e (TomAndJerry.jerry e) a s = Ok (Q2Qc (1 # 3)) ->
          exists g r d w', step a (e, g) = (Ok (s, r, d), w'))) /\
  (forall (e : BitStrings.t) (a : Z),
      reachable BitStrings.init e ->
      BitStrings.state e ∉ get_terminal_states e ->
      a ∈ declared_actions e ->
      (forall g s r d w',
          step a (e, g) = (Ok (s, r, d), w') ->
          s <> BitStrings.state e /\
          get_transition_prob e (BitStrings.state e) a s = Ok (Q2Qc (1 # 2))) /\
      (forall s,
          get_transition_prob e (BitStrings.state e) a s = Ok (Q2Qc (1 # 2)) ->
          exists g r d w', step a (e, g) = (Ok (s, r, d), w'))).
Proof.
  split.
  - intros e a Hreach Ht Ha.
    change (@get_terminal_states _ _ TomAndJerry_mdp e)
      with (TomAndJerry.get_terminal_states e) in Ht.
    change (declared_actions e) with TomAndJerry.allowed_actions in Ha.
    apply TomAndJerry_reachable in Hreach.
    assert (Hgrid : 0 <= (TomAndJerry.jerry e).1 <= 3 /\ 0 <= (TomAndJerry.jerry e).2 <= 3).
    { destruct (TomAndJerry.jerry e) as [x y] eqn:Hj.
      apply (proj1 (TomAndJerry_declared_on_board e x y)) in Hreach. cbn [fst snd]. lia. }
    split.
    + intros g s r d w' Hstep Hmoved.
      change (TomAndJerry.step a (e, g) = (Ok (s, r, d), w')) in Hstep.
      destruct (TomAndJerry_step_cases e g a Ha Ht) as (c & ddx & ddy & Hc & Hdx & Hdy & Heq).
      cbn zeta in Heq. rewrite Heq in Hstep. clear Heq.
      destruct (bool_decide _ && _) eqn:Hcond;
        [|injection Hstep as <- _ _ _; contradiction].
      injection Hstep as <- _ _ _.
      destruct (TomAndJerry_transition_prob_cases e (TomAndJerry.jerry e) a
                  ((TomAndJerry.jerry e).1 + ddx, (TomAndJerry.jerry e).2 + ddy))
        as (p & Hp & _ & Hiff).
      rewrite Hp. f_equal. apply Hiff. split; [done|]. split; [done|]. split; [done|].
      exists c, ddx, ddy. apply andb_true_iff in Hcond as [Htrap Hin].
      apply bool_decide_eq_true_1 in Htrap.
      split; [|done].
      destruct (a mod 2 =? 0); elem_cases Hc; rewrite elem_of_app, list_elem_of_singleton;
        first [by right | left; compute_done].
    + intros s Hp.
      destruct (TomAndJerry_transition_prob_cases e (TomAndJerry.jerry e) a s)
        as (p & Hp' & _ & Hiff).
      rewrite Hp' in Hp. injection Hp as ->.
      destruct (proj1 Hiff eq_refl) as (_ & _ & _ & c & ddx & ddy & Hc & Hdx & Hdy & -> & Htrap & Hin).
      assert (Hch : exists g g1,
        random_choice (if a mod 2 =? 0 then [a; 1; 3] else [a; 0; 2]) g = (Ok c, g1)).
      { destruct (a mod 2 =? 0); apply elem_of_app in Hc as [Hc|Hc];
          try (apply list_elem_of_singleton in Hc as ->;
               exists (tape_const 0); eexists; vm_compute; reflexivity);
          elem_cases Hc;
          first [ exists (tape_const 1); eexists; vm_compute; reflexivity
                | exists (tape_const 2); eexists; vm_compute; reflexivity ]. }
      destruct Hch as (g & g1 & Hch).
      destruct (TomAndJerry_step_with_choice e g g1 a c ddx ddy Ha Ht Hch Hdx Hdy)
        as (r & d & Hstep).
      { cbn [fst snd] in *. rewrite Hin, andb_true_r. by apply bool_decide_eq_true_2. }
      exists g, r, d. eexists. exact Hstep.
  - intros e a Hreach Ht Ha.
    change (@get_terminal_states _ _ BitStrings_mdp e)
      with (BitStrings.get_terminal_states e) in Ht.
    pose proof Ha as Ha'. rewrite BitStrings_declared_actions in Ha'.
    apply BitStrings_reachable in Hreach.
    assert (Hs : BitStrings.state e ∈ declared_states e).
    { unfold declared_states. by rewrite BitStrings_declared. }
    split.
    + intros g s r d w' Hstep.
      change (BitStrings.step a (e, g) = (Ok (s, r, d), w')) in Hstep.
      destruct (BitStrings_step_cases e g a Ha' Ht) as (c & g1 & Hc & _ & Heq).
      rewrite Heq in Hstep. clear Heq.
      destruct (BitStrings.flip (BitStrings.state e) c) as [next| |] eqn:Hflip;
        try discriminate.
      injection Hstep as <- _ _ _.
      assert (Hca : c ∈ declared_actions e).
      { rewrite BitStrings_declared_actions. unfold BitStrings_actions in *.
        rewrite elem_of_seqZ in *. destruct (Z.ltb_spec a 8); elem_cases Hc; lia. }
      split.
      * destruct (BitStrings_flip_facts e _ c Hs Hca) as (s' & Hf & _ & Hne & _).
        congruence.
      * destruct (BitStrings_transition_prob_cases e (BitStrings.state e) a next Hs)
          as (p & Hp & _ & Hiff).
        assert (Heq : p = Q2Qc (1 # 2)).
        { apply Hiff. split; [done|]. split; [done|].
          destruct (Z.ltb_spec a 8); elem_cases Hc; [by left|right; done|by left]. }
        rewrite Heq in Hp. exact Hp.
    + intros s Hp.
      destruct (BitStrings_transition_prob_cases e (BitStrings.state e) a s Hs)
        as (p & Hp' & _ & Hiff).
      assert (Heq : p = Q2Qc (1 # 2)).
      { assert (Hok : Ok p = Ok (Q2Qc (1 # 2)))
          by (etransitivity; [symmetry; exact Hp'|exact Hp]).
        by injection Hok. }
      destruct (proj1 Hiff Heq) as (_ & _ & Hflip).
      assert (Hch : exists c g g1,
        (if a <? 8 then on_snd (random_choice [a; a + 1]) else ret a) (e, g)
          = (Ok c, (e, g1)) /\
        BitStrings.flip (BitStrings.state e) c = Ok s).
      { destruct Hflip as [Hflip|[Hlt Hflip]].
        - exists a. destruct (Z.ltb_spec a 8).
          + exists (tape_const 0). eexists. split; [|done]. vm_compute. reflexivity.
          + exists tape_zero, tape_zero. done.
        - exists (a + 1). destruct (Z.ltb_spec a 8); [|lia].
          exists (tape_const 1). eexists. split; [|done]. vm_compute. reflexivity. }
      destruct Hch as (c & g & g1 & Hrun & Hf).
      destruct (BitStrings_step_with_choice e g g1 a c s Ha' Ht Hrun Hf) as (r & d & Hstep).
      exists g, r, d. eexists. exact Hstep.
Qed.

Lemma step_agrees_with_transition_prob_witness :
  reachable TomAndJerry.init TomAndJerry.init /\
  (TomAndJerry.jerry TomAndJerry.init ∉ get_terminal_states TomAndJerry.init) /\
  1 ∈ declared_actions TomAndJerry.init /\
  get_transition_prob TomAndJerry.init (0, 0) 1 (0, 1) = Ok (Q2Qc (1 # 3)).
Proof.
  assert (H1 : reachable TomAndJerry.init TomAndJerry.init) by constructor.
  assert (H2 : TomAndJerry.jerry TomAndJerry.init ∉ get_terminal_states TomAndJerry.init)
    by compute_done.
  assert (H3 : 1 ∈ declared_actions TomAndJerry.init) by compute_done.
  split; [exact H1|]. split; [exact H2|]. split; [exact H3|].
  assert (Hstep : step 1 (TomAndJerry.init, tape_zero)
    = (Ok ((0, 1), 0%Qc, false), ({| TomAndJerry.jerry := (0, 1) |}, advance tape_zero)))
    by (vm_compute; reflexivity).
  apply (proj1 (proj1 step_agrees_with_transition_prob _ _ H1 H2 H3) _ _ _ _ _ Hstep).
  discriminate.
Defined.

(** * Further properties of the solvers *)

(** ** Numbers and loops *)

Lemma py_abs_nonneg (x : Qc) : (0 <= py_abs x)%Qc.
Proof.
  unfold py_abs. destruct (py_lt x 0) eqn:E.
  - apply py_lt_spec in E. apply Qclt_le_weak in E.
    apply Qcle_minus_iff in E. by replace (0 + - x)%Qc with (- x)%Qc in E by ring.
  - apply Qcnot_lt_le. intros Hlt. apply py_lt_spec in Hlt. congruence.
Qed.

Lemma py_abs_zero (x : Qc) : py_abs x = 0%Qc -> x = 0%Qc.
Proof.
  unfold py_abs. destruct (py_lt x 0); [|done]. intros Hx.
  rewrite <- (Qcopp_involutive x), Hx. reflexivity.
Qed.

Lemma py_max2_ge (a b : Qc) : (a <= py_max2 a b)%Qc /\ (b <= py_max2 a b)%Qc.
Proof.
  destruct (py_max2_cases a b) as [[-> Hle]|[-> Hlt]];
    split; auto using Qcle_refl, Qclt_le_weak.
Qed.

(** As [for_each_invariant]; the step also knows that the element it visits
    follows the elements visited before in the list. *)
Lemma for_each_invariant_at {A B : Type} (I : list A -> B -> Prop)
    (l : list A) (acc : B) (body : B -> A -> res B) (out : B) :
  I [] acc ->
  (forall done x rest b b',
      l = done ++ x :: rest -> I done b -> body b x = Ok b' -> I (done ++ [x]) b') ->
  for_each l acc body = Ok out ->
  I l out.
Proof.
  intros Hinit Hstep.
  assert (Hgen : forall rest done acc,
    l = done ++ rest -> I done acc -> for_each rest acc body = Ok out -> I l out).
  { induction rest as [|x rest IH]; intros done acc0 Hl Hacc; simpl.
    - intros [= <-]. rewrite app_nil_r in Hl. by subst.
    - destruct (body acc0 x) as [b'| |] eqn:Eb; simpl; try discriminate.
      intros Hrest. apply (IH (done ++ [x]) b'); [|by eapply Hstep|done].
      by rewrite <- app_assoc. }
  apply (Hgen l [] acc); done.
Qed.

(** ** Value Iteration: the stopping rule *)

Section ValueIterationStop.
Context {Env State : Type} `{MDP Env State}.
Import ValueIteration.
Implicit Types (self : t Env State) (msv : list Qc).

(** A sweep writes [V] and nothing else. *)
Lemma sweep_keeps self self' (delta : Qc) :
  sweep self = Ok (self', delta) -> VI_keeps self self' /\ (0 <= delta)%Qc.
Proof.
  unfold sweep. intros Hrun.
  apply (for_each_invariant (fun _ b => VI_keeps self b.1 /\ (0 <= b.2)%Qc)) in Hrun;
    [exact Hrun|done|].
  intros _ s [self1 d1] [self2 d2] [Hf Hd] Hbody. cbn [fst snd] in *.
  bind_inv Hbody. injection Hbody as <- <-. split; [exact Hf|].
  eapply Qcle_trans; [exact Hd|]. apply py_max2_ge.
Qed.

Lemma after_sweeps_keeps (k : nat) self self' :
  after_sweeps k self = Ok self' -> VI_keeps self self'.
Proof.
  revert self. induction k as [|k IH]; intros self; simpl.
  - by intros [= <-].
  - destruct (sweep self) as [[self1 d]| |] eqn:Hs; try discriminate.
    cbn [mbind res_bind]. intros Hk. apply IH in Hk. apply sweep_keeps in Hs as [Hs _].
    unfold VI_keeps in *. intuition congruence.
Qed.

Lemma sweep_delta_S (k : nat) self self1 (delta : Qc) :
  sweep self = Ok (self1, delta) ->
  sweep_delta (S k) self = sweep_delta k self1.
Proof. intros Hs. unfold sweep_delta. simpl. rewrite Hs. reflexivity. Qed.

Lemma loop_stops (fuel : nat) self msv self' msv' :
  loop fuel self msv = Ok (self', msv') ->
  exists n : nat,
    sweeps_performed fuel self = Ok (S n) /\
    after_sweeps (S n) self = Ok self' /\
    (exists d, sweep_delta n self = Ok d /\ ((0 <= d)%Qc /\ (d < eps self)%Qc)) /\
    forall k, (k < n)%nat ->
      exists d, sweep_delta k self = Ok d /\ (eps self <= d)%Qc.
Proof.
  revert self msv. induction fuel as [|fuel IH]; intros self msv; [discriminate|].
  cbn [loop sweeps_performed].
  destruct (sweep self) as [[self1 delta]| |] eqn:Hsweep; try discriminate.
  cbn [mbind res_bind].
  destruct (__get_mean_V self1) as [m| |] eqn:Hmean; try discriminate.
  cbn [mbind res_bind].
  destruct (sweep_keeps _ _ _ Hsweep) as [(_ & _ & Heps & _) Hpos].
  assert (Hd0 : sweep_delta 0 self = Ok delta).
  { unfold sweep_delta. simpl. by rewrite Hsweep. }
  destruct (py_lt delta (eps self1)) eqn:Hstop.
  - intros [= <- <-]. exists 0%nat. split; [done|].
    split; [by rewrite (after_sweeps_S 0 _ _ _ Hsweep)|]. split.
    + exists delta. split; [done|]. apply py_lt_spec in Hstop. by rewrite <- Heps.
    + intros k Hk. lia.
  - intros Hloop.
    destruct (IH _ _ Hloop) as (n & Hn & Hafter & (d & Hd & Hlt) & Hearlier).
    exists (S n). rewrite Hn. split; [done|].
    split; [by rewrite (after_sweeps_S (S n) _ _ _ Hsweep)|]. split.
    + exists d. rewrite (sweep_delta_S _ _ _ _ Hsweep). by rewrite <- Heps.
    + intros [|k] Hk.
      * exists delta. split; [done|]. rewrite <- Heps. apply Qcnot_lt_le.
        intros Hlt'. apply py_lt_spec in Hlt'. congruence.
      * rewrite (sweep_delta_S _ _ _ _ Hsweep). rewrite <- Heps.
        apply Hearlier. lia.
Qed.

Lemma derive_policy_keeps self self' :
  derive_policy self = Ok self' ->
  mdp self' = mdp self /\ gamma self' = gamma self /\ eps self' = eps self /\
  V self' = V self /\ allowed_states self' = allowed_states self /\
  allowed_actions self' = allowed_actions self.
Proof.
  unfold derive_policy. intros Hrun.
  apply (for_each_invariant (fun _ b =>
    mdp b = mdp self /\ gamma b = gamma self /\ eps b = eps self /\
    V b = V self /\ allowed_states b = allowed_states self /\
    allowed_actions b = allowed_actions self)) in Hrun; [exact Hrun|done|].
  intros _ s self1 self2 Hf Hbody. bind_inv Hbody. injection Hbody as <-. exact Hf.
Qed.

(** X11. Value Iteration returns after the first sweep whose [delta] is
    below [epsilon], and after no other: the [delta] of the last sweep
    performed is below [epsilon], the [delta] of every earlier sweep is
    not, and the returned object holds the value function that the last
    sweep left. *)
Theorem value_iteration_stops_below_epsilon (fuel : nat) self self'
    (pol : dict State Z) msv :
  __call__ fuel self = Ok (self', (pol, msv)) ->
  exists (n : nat) self_n,
    sweeps_performed fuel self = Ok (S n) /\
    after_sweeps (S n) self = Ok self_n /\ V self' = V self_n /\
    (exists d, sweep_delta n self = Ok d /\ ((0 <= d)%Qc /\ (d < eps self)%Qc)) /\
    forall k, (k < n)%nat ->
      exists d, sweep_delta k self = Ok d /\ (eps self <= d)%Qc.
Proof.
  unfold __call__. intros Hrun. bind_inv Hrun. destruct a0 as [self1 msv1].
  bind_inv Hrun. injection Hrun as <- <- <-.
  destruct (loop_stops _ _ _ _ _ E0) as (n & Hn & Hafter & Hlast & Hearlier).
  exists n, self1. split; [done|]. split; [done|].
  split; [by apply derive_policy_keeps in E1 as (_ & _ & _ & -> & _)|]. done.
Qed.

(** X12. With [epsilon] at 0 or below Value Iteration never returns:
    [delta] starts each sweep at 0 and only grows, so the test
    [delta < epsilon] never holds. *)
Theorem value_iteration_needs_positive_epsilon (fuel : nat) self
    (out : t Env State * (dict State Z * list Qc)) :
  __call__ fuel self = Ok out -> (0 < eps self)%Qc.
Proof.
  destruct out as [self' [pol msv]]. unfold __call__. intros Hrun.
  bind_inv Hrun. destruct a0 as [self1 msv1].
  destruct (loop_stops _ _ _ _ _ E0) as (n & _ & _ & (d & _ & Hd0 & Hd) & _).
  by eapply Qcle_lt_trans.
Qed.
End ValueIterationStop.

Lemma value_iteration_stops_below_epsilon_witness :
  exists self,
    ValueIteration.__init__ TomAndJerry.init default_gamma default_epsilon = Ok self /\
    exists self' pol msv,
      ValueIteration.__call__ 20 self = Ok (self', (pol, msv)) /\
      exists (n : nat) self_n,
        sweeps_performed 20 self = Ok (S n) /\
        after_sweeps (S n) self = Ok self_n /\
        ValueIteration.V self' = ValueIteration.V self_n /\
        (exists d, sweep_delta n self = Ok d /\
                   ((0 <= d)%Qc /\ (d < ValueIteration.eps self)%Qc)) /\
        forall k, (k < n)%nat ->
          exists d, sweep_delta k self = Ok d /\ (ValueIteration.eps self <= d)%Qc.
Proof.
  eexists. split; [vm_compute; reflexivity|].
  do 3 eexists.
  match goal with
  | |- ?lhs = ?rhs /\ _ => assert (Hcall : lhs = rhs) by (vm_compute; reflexivity)
  end.
  split; [exact Hcall|].
  exact (value_iteration_stops_below_epsilon _ _ _ _ _ Hcall).
Defined.

Lemma value_iteration_needs_positive_epsilon_witness :
  exists self,
    ValueIteration.__init__ TomAndJerry.init default_gamma 1%Qc = Ok self /\
    exists out,
      ValueIteration.__call__ 5 self = Ok out /\ (0 < ValueIteration.eps self)%Qc.
Proof.
  eexists. split; [vm_compute; reflexivity|].
  eexists.
  match goal with
  | |- ?lhs = ?rhs /\ _ => assert (Hcall : lhs = rhs) by (vm_compute; reflexivity)
  end.
  split; [exact Hcall|].
  exact (value_iteration_needs_positive_epsilon _ _ _ Hcall).
Defined.

(** ** Value Iteration: what a sweep and the final pass compute *)

Section ValueIterationValues.
Context {Env State : Type} `{MDP Env State}.
Import ValueIteration.
Implicit Types (self : t Env State) (msv : list Qc).

Lemma VI_Q_is_action_value self s a :
  __Q self s a
  = action_value (mdp self) (allowed_states self) (gamma self) (V self) s a.
Proof. reflexivity. Qed.

(** X13. When the allowed states are pairwise different, the [delta] of a
    sweep of Value Iteration bounds the change of every allowed state's
    value in that sweep, and the sweep writes no other entry of [V]. *)
Theorem value_iteration_delta_bounds_changes self self' (delta : Qc) :
  NoDup (allowed_states self) ->
  sweep self = Ok (self', delta) ->
  (forall s, s ∉ allowed_states self -> dict_get s (V self') = dict_get s (V self)) /\
  forall s, s ∈ allowed_states self ->
    exists v v',
      dict_get s (V self) = Some v /\ dict_get s (V self') = Some v' /\
      (py_abs (v - v') <= delta)%Qc.
Proof.
  intros Hnd. unfold sweep. intros Hrun.
  apply (for_each_invariant_at (fun done b =>
    (forall s, s ∉ done -> dict_get s (V b.1) = dict_get s (V self)) /\
    forall s, s ∈ done ->
      exists v v',
        dict_get s (V self) = Some v /\ dict_get s (V b.1) = Some v' /\
        (py_abs (v - v') <= b.2)%Qc)) in Hrun; [exact Hrun| |].
  - split; [done|]. intros s Hs. by apply elem_of_nil in Hs.
  - intros done x rest [self1 d1] [self2 d2] Hl [Hout Hin] Hbody. cbn [fst snd] in *.
    bind_inv Hbody. injection Hbody as <- <-. cbn [V with_V] in *.
    rename a into old_v, a1 into m, a2 into v, E into Hold, E2 into Hv.
    apply dict_getitem_Ok in Hold, Hv.
    assert (Hx : x ∉ done).
    { rewrite Hl in Hnd. apply NoDup_app in Hnd as (_ & Hnd & _).
      intros Hx. apply (Hnd x Hx). by left. }
    split.
    + intros s Hs. rewrite not_elem_of_app, list_elem_of_singleton in Hs.
      destruct Hs as [Hs Hne]. rewrite dict_get_set_ne by congruence. by apply Hout.
    + intros s Hs. apply elem_of_app in Hs as [Hs|Hs].
      * destruct (Hin s Hs) as (v0 & v1 & H0 & H1 & Hle).
        exists v0, v1. split; [done|].
        split; [rewrite dict_get_set_ne; [done|congruence]|].
        eapply Qcle_trans; [exact Hle|]. apply py_max2_ge.
      * apply list_elem_of_singleton in Hs as ->.
        exists old_v, v. split; [by rewrite <- (Hout x Hx)|]. split; [done|].
        apply py_max2_ge.
Qed.

Lemma derive_policy_greedy self self' :
  derive_policy self = Ok self' ->
  forall s, s ∈ allowed_states self ->
    exists Q_s i,
      comprehension
        (action_value (mdp self) (allowed_states self) (gamma self) (V self) s)
        (allowed_actions self) = Ok Q_s /\
      dict_get s (policy self') = Some i /\ first_argmax Q_s i.
Proof.
  unfold derive_policy. intros Hrun.
  apply (for_each_invariant (fun done b =>
    (mdp b = mdp self /\ gamma b = gamma self /\ V b = V self /\
     allowed_states b = allowed_states self /\
     allowed_actions b = allowed_actions self) /\
    forall s, s ∈ done ->
      exists Q_s i,
        comprehension
          (action_value (mdp self) (allowed_states self) (gamma self) (V self) s)
          (allowed_actions self) = Ok Q_s /\
        dict_get s (policy b) = Some i /\ first_argmax Q_s i)) in Hrun.
  - exact (proj2 Hrun).
  - split; [done|]. intros s Hs. by apply elem_of_nil in Hs.
  - intros done s selfa selfb [Hf Hdone] Hbody. bind_inv Hbody.
    injection Hbody as <-. split; [exact Hf|]. cbn [policy with_policy].
    rename a into Q_s, a0 into m, a1 into i, E into HQ, E0 into Hmax, E1 into Hi.
    intros s' Hs'. destruct (decide (s = s')) as [<-|Hne].
    + exists Q_s, i. split.
      * destruct Hf as (Hm & Hg & HV & Hs & Ha).
        rewrite <- Ha, <- Hm, <- Hg, <- Hs, <- HV. exact HQ.
      * split; [apply dict_get_set_eq|]. by eapply argmax_first.
    + setoid_rewrite dict_get_set_ne; [|done]. apply Hdone.
      apply elem_of_app in Hs' as [Hs'|Hs']; [done|].
      apply list_elem_of_singleton in Hs'. congruence.
Qed.

(** X14. When Value Iteration returns, for every allowed state the
    returned policy holds the first action at which [Q(s, a)], computed
    from the value function the object is left with, is maximal.  The
    declared actions are [0 .. n-1], as in both environments, so that
    positions are actions. *)
Theorem value_iteration_policy_is_greedy (fuel : nat) self self'
    (pol : dict State Z) msv (n : Z) :
  allowed_actions self = seqZ 0 n ->
  __call__ fuel self = Ok (self', (pol, msv)) ->
  pol = policy self' /\
  forall s, s ∈ allowed_states self ->
    exists a q,
      dict_get s pol = Some a /\ a ∈ allowed_actions self /\
      action_value (mdp self) (allowed_states self) (gamma self) (V self') s a = Ok q /\
      forall a', a' ∈ allowed_actions self ->
        exists q',
          action_value (mdp self) (allowed_states self) (gamma self) (V self') s a'
            = Ok q' /\
          (q' <= q)%Qc /\ (a' < a -> (q' < q)%Qc).
Proof.
  intros Hacts. unfold __call__. intros Hrun. bind_inv Hrun.
  destruct a0 as [self1 msv1]. bind_inv Hrun. injection Hrun as <- <- <-.
  split; [done|].
  destruct (loop_stops _ _ _ _ _ E0) as (k & _ & Hafter & _).
  apply after_sweeps_keeps in Hafter as (Hm & Hga & _ & _ & Hst & Hac).
  pose proof (derive_policy_keeps _ _ E1) as (_ & _ & _ & HV & _).
  pose proof (derive_policy_greedy _ _ E1) as Hg.
  rewrite Hm, Hga, Hst, Hac, Hacts in Hg. rewrite HV.
  intros s Hs.
  destruct (Hg s Hs) as (Q_s & i & Hcomp & Hget & Hi0 & q & Hq & Hmax & Hfirst).
  apply comprehension_spec in Hcomp as [Hlen Hall].
  assert (Hin : Z.of_nat (Z.to_nat i) < n).
  { apply lookup_lt_Some in Hq. rewrite Hlen, length_seqZ in Hq. lia. }
  exists i, q. split; [done|]. rewrite Hacts.
  split; [apply elem_of_seqZ; lia|]. split.
  - destruct (Hall (Z.to_nat i) i) as (y & Hy & Hylook).
    { rewrite lookup_seqZ. lia. }
    congruence.
  - intros a' Ha'. apply elem_of_seqZ in Ha'.
    destruct (Hall (Z.to_nat a') a') as (y & Hy & Hylook).
    { rewrite lookup_seqZ. lia. }
    exists y. split; [done|]. split; [by eapply Hmax|].
    intros Hlt. eapply Hfirst; [|exact Hylook]. lia.
Qed.
End ValueIterationValues.

Section ValueIterationDeadStates.
Context {Env State : Type} `{MDP Env State}.
Import ValueIteration.
Implicit Types (self : t Env State) (msv : list Qc).

(** A sum of products with probability 0 is 0. *)
Lemma action_value_zero (e : Env) (sts : list State) (gamma : Qc)
    (Vf : dict State Qc) (s : State) (a : Z) (q : Qc) :
  (forall s', s' ∈ sts -> get_transition_prob e s a s' = Ok 0%Qc) ->
  action_value e sts gamma Vf s a = Ok q -> q = 0%Qc.
Proof.
  intros Hzero. unfold action_value. intros Hrun.
  apply (for_each_invariant_at (fun _ acc => acc = 0%Qc)) in Hrun; [done|done|].
  intros done x rest b b' Hl -> Hbody.
  rewrite Hzero in Hbody by (rewrite Hl; apply elem_of_app; right; by left).
  cbn [mbind res_bind] in Hbody. bind_inv Hbody. injection Hbody as <-. ring.
Qed.

Lemma zero_row (f : Z -> res Qc) (acts : list Z) (Q_s : list Qc) :
  (forall a q, a ∈ acts -> f a = Ok q -> q = 0%Qc) ->
  comprehension f acts = Ok Q_s ->
  forall q, q ∈ Q_s -> q = 0%Qc.
Proof.
  intros Hzero Hc q Hq. apply comprehension_spec in Hc as [Hlen Hall].
  apply list_elem_of_lookup in Hq as [j Hj].
  destruct (lookup_lt_is_Some_2 acts j) as [a Ha].
  { rewrite <- Hlen. by eapply lookup_lt_Some. }
  destruct (Hall j a Ha) as (y & Hy & Hlook).
  assert (y = q) as -> by congruence.
  eapply Hzero; [|exact Hy]. by eapply list_elem_of_lookup_2.
Qed.

Lemma sweep_zero self self' (delta : Qc) (s : State) :
  s ∈ allowed_states self ->
  (forall a s', a ∈ allowed_actions self -> s' ∈ allowed_states self ->
     get_transition_prob (mdp self) s a s' = Ok 0%Qc) ->
  sweep self = Ok (self', delta) ->
  dict_get s (V self') = Some 0%Qc.
Proof.
  intros Hs Hzero. unfold sweep. intros Hrun.
  apply (for_each_invariant (fun done b =>
    VI_keeps self b.1 /\ (s ∈ done -> dict_get s (V b.1) = Some 0%Qc))) in Hrun.
  - by apply Hrun.
  - split; [done|]. intros Hn. by apply elem_of_nil in Hn.
  - intros done x [self1 d1] [self2 d2] [Hf Hdone] Hbody. cbn [fst snd] in *.
    bind_inv Hbody. injection Hbody as <- _. cbn [V with_V].
    rename a0 into Q_s, a1 into m, E0 into HQ, E1 into Hmax.
    split; [exact Hf|]. intros Hin.
    destruct (decide (x = s)) as [->|Hne].
    + rewrite dict_get_set_eq. f_equal.
      apply py_max_spec in Hmax as [Hm _].
      destruct Hf as (Hm1 & Hg1 & _ & _ & Hs1 & Ha1).
      eapply zero_row; [|exact HQ|exact Hm].
      intros act q Ha Hq. rewrite VI_Q_is_action_value in Hq.
      eapply action_value_zero; [|exact Hq].
      intros s' Hs'. rewrite Hm1. rewrite Hs1 in Hs'. rewrite Ha1 in Ha. by apply Hzero.
    + rewrite dict_get_set_ne by done. apply Hdone.
      apply elem_of_app in Hin as [Hin|Hin]; [done|].
      apply list_elem_of_singleton in Hin. congruence.
Qed.

Lemma after_sweeps_zero (k : nat) self self' (s : State) :
  s ∈ allowed_states self ->
  (forall a s', a ∈ allowed_actions self -> s' ∈ allowed_states self ->
     get_transition_prob (mdp self) s a s' = Ok 0%Qc) ->
  after_sweeps (S k) self = Ok self' ->
  dict_get s (V self') = Some 0%Qc.
Proof.
  revert self. induction k as [|k IH]; intros self Hs Hzero Hafter.
  - simpl in Hafter. destruct (sweep self) as [[self2 d]| |] eqn:Hsw; try discriminate.
    cbn [mbind res_bind] in Hafter. injection Hafter as <-.
    by eapply sweep_zero.
  - change (after_sweeps (S (S k)) self)
      with ('(self, _) ← sweep self; after_sweeps (S k) self) in Hafter.
    destruct (sweep self) as [[self2 d]| |] eqn:Hsw; try discriminate.
    cbn [mbind res_bind] in Hafter.
    apply sweep_keeps in Hsw as [(Hm & _ & _ & _ & Hst & Hac) _].
    apply (IH self2); [by rewrite Hst| |done].
    rewrite Hm, Hst, Hac. exact Hzero.
Qed.

(** X15. A state from which every transition probability is 0, as from the
    terminal states of both environments, is left by Value Iteration with
    the value 0 and the policy entry 0. *)
Theorem value_iteration_zero_without_transitions (fuel : nat) self self'
    (pol : dict State Z) msv (s : State) :
  s ∈ allowed_states self ->
  (forall a s', a ∈ allowed_actions self -> s' ∈ allowed_states self ->
     get_transition_prob (mdp self) s a s' = Ok 0%Qc) ->
  __call__ fuel self = Ok (self', (pol, msv)) ->
  dict_get s (V self') = Some 0%Qc /\ dict_get s pol = Some 0.
Proof.
  intros Hs Hzero. unfold __call__. intros Hrun. bind_inv Hrun.
  destruct a0 as [self1 msv1]. bind_inv Hrun. injection Hrun as <- <- <-.
  destruct (loop_stops _ _ _ _ _ E0) as (k & _ & Hafter & _).
  pose proof (after_sweeps_keeps _ _ _ Hafter) as (Hm & Hga & _ & _ & Hst & Hac).
  pose proof (derive_policy_keeps _ _ E1) as (_ & _ & _ & HV & _).
  split.
  - rewrite HV. by eapply after_sweeps_zero.
  - destruct (derive_policy_greedy _ _ E1 s) as (Q_s & i & Hcomp & Hget & Hi0 & q & Hq & _ & Hfirst);
      [by rewrite Hst|].
    rewrite Hget. f_equal.
    assert (Hrow : forall q', q' ∈ Q_s -> q' = 0%Qc).
    { eapply zero_row; [|exact Hcomp]. intros act q' Ha Hq'.
      eapply action_value_zero; [|exact Hq'].
      intros s' Hs'. rewrite Hm. rewrite Hst in Hs'. rewrite Hac in Ha. by apply Hzero. }
    destruct (decide (i = 0)) as [->|Hne]; [done|]. exfalso.
    destruct (lookup_lt_is_Some_2 Q_s 0) as [q0 Hq0].
    { apply lookup_lt_Some in Hq. lia. }
    assert (Hlt : (q0 < q)%Qc) by (apply (Hfirst 0%nat); [lia|done]).
    rewrite (Hrow q0), (Hrow q) in Hlt by (by eapply list_elem_of_lookup_2).
    by apply Qclt_not_eq in Hlt.
Qed.
End ValueIterationDeadStates.

Lemma value_iteration_delta_bounds_changes_witness :
  exists self,
    ValueIteration.__init__ TomAndJerry.init default_gamma default_epsilon = Ok self /\
    NoDup (ValueIteration.allowed_states self) /\
    exists self' delta,
      ValueIteration.sweep self = Ok (self', delta) /\
      exists v v',
        dict_get (3, 3) (ValueIteration.V self) = Some v /\
        dict_get (3, 3) (ValueIteration.V self') = Some v' /\
        (py_abs (v - v') <= delta)%Qc.
Proof.
  eexists. split; [vm_compute; reflexivity|].
  match goal with
  | |- ?P /\ _ => assert (Hnd : P) by (apply (bool_decide_unpack _); vm_compute; exact I)
  end.
  split; [exact Hnd|].
  do 2 eexists.
  match goal with
  | |- ?lhs = ?rhs /\ _ => assert (Hsweep : lhs = rhs) by (vm_compute; reflexivity)
  end.
  split; [exact Hsweep|].
  apply (proj2 (value_iteration_delta_bounds_changes _ _ _ Hnd Hsweep)).
  compute_done.
Defined.

Lemma value_iteration_policy_is_greedy_witness :
  exists self,
    ValueIteration.__init__ TomAndJerry.init default_gamma 1%Qc = Ok self /\
    ValueIteration.allowed_actions self = seqZ 0 4 /\
    exists self' pol msv,
      ValueIteration.__call__ 5 self = Ok (self', (pol, msv)) /\
      exists a, dict_get (3, 3) pol = Some a /\ a ∈ ValueIteration.allowed_actions self.
Proof.
  eexists. split; [vm_compute; reflexivity|].
  match goal with
  | |- ?lhs = ?rhs /\ _ => assert (Hacts : lhs = rhs) by (vm_compute; reflexivity)
  end.
  split; [exact Hacts|].
  do 3 eexists.
  match goal with
  | |- ?lhs = ?rhs /\ _ => assert (Hcall : lhs = rhs) by (vm_compute; reflexivity)
  end.
  split; [exact Hcall|].
  destruct (proj2 (value_iteration_policy_is_greedy _ _ _ _ _ _ Hacts Hcall) (3, 3))
    as (a & q & Hget & Ha & _); [compute_done|].
  exists a. split; [exact Hget|exact Ha].
Defined.

Lemma value_iteration_zero_without_transitions_witness :
  exists self,
    ValueIteration.__init__ TomAndJerry.init default_gamma 1%Qc = Ok self /\
    exists self' pol msv,
      ValueIteration.__call__ 5 self = Ok (self', (pol, msv)) /\
      dict_get (1, 3) (ValueIteration.V self') = Some 0%Qc /\
      dict_get (1, 3) pol = Some 0.
Proof.
  eexists. split; [vm_compute; reflexivity|].
  do 3 eexists.
  match goal with
  | |- ?lhs = ?rhs /\ _ => assert (Hcall : lhs = rhs) by (vm_compute; reflexivity)
  end.
  split; [exact Hcall|].
  refine (value_iteration_zero_without_transitions _ _ _ _ _ (1, 3) _ _ Hcall).
  - compute_done.
  - intros a s' _ _. apply (TomAndJerry_terminal_prob TomAndJerry.init). compute_done.
Defined.

(** ** Policy Iteration: the constructor *)

Section PolicyIterationInit.
Context {Env State : Type} `{MDP Env State}.
Import PolicyIteration.
Implicit Types (self : t Env State) (g : Rng).

(** The constructor returns when the environment declares an action. *)
Lemma PolicyIteration_init_total (e : Env) (gamma epsilon : Qc) g
    (sts : list State) (acts : list Z) :
  get_allowed_states_and_actions e = Ok (sts, acts) ->
  acts <> [] ->
  exists self,
    __init__ e gamma epsilon g
      = (Ok self, {| tape := tape g; cursor := cursor g + length sts |}) /\
    mdp self = e /\ PolicyIteration.gamma self = gamma /\ eps self = epsilon /\
    allowed_states self = sts /\ allowed_actions self = acts /\ V self = [] /\
    policy_in_actions sts acts (policy self).
Proof.
  intros He Hacts. unfold __init__, bind, lift. rewrite He.
  set (self0 := {| mdp := e; gamma := gamma; eps := epsilon; allowed_states := sts;
                   allowed_actions := acts; V := []; policy := [] |}).
  assert (Hgen : forall l selfa g0,
    exists self,
      (fix init_policy (l : list State) (self : t Env State) {struct l}
           : M Rng (t Env State) :=
         match l with
         | [] => ret self
         | s :: l' =>
             fun s0 : Rng =>
               match random_choice acts s0 with
               | (Ok a, s') =>
                   init_policy l' (with_policy self (dict_set s a (policy self))) s'
               | (Raise e0, s') => (Raise e0, s')
               | (OutOfFuel, s') => (OutOfFuel, s')
               end
         end) l selfa g0
        = (Ok self, {| tape := tape g0; cursor := cursor g0 + length l |}) /\
      PI_frame selfa self /\ V self = V selfa /\
      (forall s, s ∈ l -> exists a, dict_get s (policy self) = Some a /\ a ∈ acts) /\
      (forall s, s ∉ l -> dict_get s (policy self) = dict_get s (policy selfa))).
  { induction l as [|s l IH]; intros selfa g0.
    - exists selfa. unfold ret. rewrite Nat.add_0_r. destruct g0 as [tp c].
      split; [done|]. split; [done|]. split; [done|].
      split; [|done]. intros s Hs. by apply elem_of_nil in Hs.
    - destruct (random_choice_spec acts g0 Hacts) as (a & Ha & ->).
      destruct (IH (with_policy selfa (dict_set s a (policy selfa))) (advance g0))
        as (self & Hrun & Hf & HV & Hin & Hout).
      exists self. rewrite Hrun. cbn [advance tape cursor length].
      split; [do 2 f_equal; lia|]. split; [exact Hf|]. split; [exact HV|]. split.
      + intros s' Hs'. destruct (decide (s' ∈ l)) as [Hl|Hl]; [by apply Hin|].
        apply elem_of_cons in Hs' as [->|Hs']; [|done].
        exists a. rewrite (Hout s Hl). cbn [policy with_policy].
        by rewrite dict_get_set_eq.
      + intros s' Hs'. apply not_elem_of_cons in Hs' as [Hne Hl].
        rewrite (Hout s' Hl). cbn [policy with_policy].
        by rewrite dict_get_set_ne. }
  destruct (Hgen sts self0 g) as (self & Hrun & Hf & HV & Hin & _).
  exists self. split; [exact Hrun|].
  destruct Hf as (Hm & Hg & Hep & Hs & Ha). done.
Qed.

(** X16. The constructor of Policy Iteration.  When the environment
    declares an action, it returns: it has drawn one random number for
    each declared state, the policy holds a declared action for every
    declared state and [V] is empty.  When the environment declares a
    state and no action, it raises [IndexError] at the first draw. *)
Theorem policy_iteration_constructor (e : Env) (gamma epsilon : Qc) g
    (sts : list State) (acts : list Z) :
  get_allowed_states_and_actions e = Ok (sts, acts) ->
  (acts <> [] ->
   exists self,
     __init__ e gamma epsilon g
       = (Ok self, {| tape := tape g; cursor := cursor g + length sts |}) /\
     mdp self = e /\ PolicyIteration.gamma self = gamma /\ eps self = epsilon /\
     allowed_states self = sts /\ allowed_actions self = acts /\ V self = [] /\
     policy_in_actions sts acts (policy self)) /\
  (acts = [] -> sts <> [] -> __init__ e gamma epsilon g = (Raise IndexError, g)).
Proof.
  intros He. split; [by apply PolicyIteration_init_total|].
  intros -> Hsts. unfold __init__, bind, lift. rewrite He.
  destruct sts as [|s sts]; [done|]. reflexivity.
Qed.
End PolicyIterationInit.

Lemma policy_iteration_constructor_witness :
  get_allowed_states_and_actions TomAndJerry.init
    = Ok (TomAndJerry_states, TomAndJerry.allowed_actions) /\
  TomAndJerry.allowed_actions <> [] /\
  exists self,
    PolicyIteration.__init__ TomAndJerry.init default_gamma default_epsilon tape_zero
      = (Ok self, {| tape := tape tape_zero; cursor := 14 |}) /\
    PolicyIteration.V self = [].
Proof.
  assert (He : get_allowed_states_and_actions TomAndJerry.init
               = Ok (TomAndJerry_states, TomAndJerry.allowed_actions)) by reflexivity.
  assert (Hacts : TomAndJerry.allowed_actions <> []) by discriminate.
  split; [exact He|]. split; [exact Hacts|].
  destruct (proj1 (policy_iteration_constructor TomAndJerry.init default_gamma
                     default_epsilon tape_zero _ _ He) Hacts)
    as (self & Hrun & _ & _ & _ & _ & _ & HV & _).
  exists self. split; [exact Hrun|exact HV].
Defined.

(** ** Policy Iteration: the stopping rule *)



Section PolicyIterationStop.
Context {Env State : Type} `{MDP Env State}.
Import PolicyIteration.
Implicit Types (self : t Env State).

(** The evaluation pass writes [V] and nothing else; each of its sweeps
    ends with a [delta] that is not negative. *)
Lemma evaluate_sweep_keeps self self' (delta : Qc) :
  evaluate_sweep self = Ok (self', delta) ->
  policy self' = policy self /\ eps self' = eps self /\ (0 <= delta)%Qc.
Proof.
  unfold evaluate_sweep. intros Hrun.
  apply (for_each_invariant (fun _ b =>
    policy b.1 = policy self /\ eps b.1 = eps self /\ (0 <= b.2)%Qc)) in Hrun;
    [exact Hrun|done|].
  intros _ s [self1 d1] [self2 d2] (Hp & He & Hd) Hbody. cbn [fst snd] in *.
  bind_inv Hbody. injection Hbody as <- <-. split; [exact Hp|]. split; [exact He|].
  eapply Qcle_trans; [exact Hd|]. apply py_max2_ge.
Qed.

Lemma evaluate_loop_keeps (fuel : nat) self self' :
  evaluate_loop fuel self = Ok self' ->
  policy self' = policy self /\ eps self' = eps self /\ (0 < eps self)%Qc.
Proof.
  revert self. induction fuel as [|fuel IH]; intros self; [discriminate|].
  cbn [evaluate_loop]. intros Hrun. bind_inv Hrun. destruct a as [self1 delta].
  apply evaluate_sweep_keeps in E as (Hp & He & Hd).
  destruct (py_lt delta (eps self1)) eqn:Hstop.
  - injection Hrun as <-. split; [done|]. split; [done|].
    apply py_lt_spec in Hstop. rewrite <- He. by eapply Qcle_lt_trans.
  - apply IH in Hrun as (Hp' & He' & Hpos). rewrite Hp', He', <- He. done.
Qed.

Lemma evaluate_policy_keeps (fuel : nat) self self' :
  __evaluate_policy fuel self = Ok self' ->
  policy self' = policy self /\ eps self' = eps self /\ (0 < eps self)%Qc.
Proof.
  unfold __evaluate_policy. intros Hrun. apply evaluate_loop_keeps in Hrun.
  assert (Hfill : forall l self0,
    policy (foldl (fun self s => with_V self (dict_set s 0%Qc (V self))) self0 l)
      = policy self0 /\
    eps (foldl (fun self s => with_V self (dict_set s 0%Qc (V self))) self0 l)
      = eps self0).
  { induction l as [|s l IH]; intros self0; simpl; [done|].
    destruct (IH (with_V self0 (dict_set s 0%Qc (V self0)))) as [-> ->]. done. }
  destruct (Hfill (allowed_states self) self) as [Hp He].
  rewrite Hp, He in Hrun. exact Hrun.
Qed.


Lemma loop_changes (fuel rounds : nat) self (mpc : list Qc) self' mpc' :
  loop fuel rounds self mpc = Ok (self', mpc') ->
  (0 < eps self)%Qc /\
  exists front,
    mpc' = mpc ++ front ++ [0%Qc] /\ Forall (fun c => c <> 0%Qc) front.
Proof.
  revert self mpc. induction rounds as [|rounds IH]; intros self mpc; [discriminate|].
  cbn [loop]. intros Hrun. bind_inv Hrun. destruct a0 as [self2 mean].
  apply evaluate_policy_keeps in E as (_ & _ & Hpos). split; [exact Hpos|].
  destruct (py_eq mean 0%Qc) eqn:Hstop.
  - injection Hrun as <- <-. apply py_eq_spec in Hstop as ->. by exists [].
  - destruct (IH _ _ Hrun) as (_ & front & -> & Hfront).
    exists (mean :: front). split; [by rewrite <- app_assoc|].
    constructor; [|done]. intros Hz. apply py_eq_spec in Hz. congruence.
Qed.


(** X18. With [epsilon] at 0 or below Policy Iteration never returns: the
    [delta] of an evaluation sweep is never negative, so the first
    evaluation pass never leaves its loop. *)
Theorem policy_iteration_needs_positive_epsilon (fuel : nat) self
    (out : t Env State * (dict State Z * list Qc * dict State Qc)) :
  __call__ fuel self = Ok out -> (0 < eps self)%Qc.
Proof.
  destruct out as [self' [[pol changes] Vret]]. unfold __call__. intros Hrun.
  bind_inv Hrun. destruct a as [self2 mpc]. by apply loop_changes in E as [? _].
Qed.
End PolicyIterationStop.


Lemma policy_iteration_needs_positive_epsilon_witness :
  exists self g',
    PolicyIteration.__init__ TomAndJerry.init default_gamma default_epsilon tape_zero
      = (Ok self, g') /\
    exists out,
      PolicyIteration.__call__ 100 self = Ok out /\
      (0 < PolicyIteration.eps self)%Qc.
Proof.
  do 2 eexists. split; [vm_compute; reflexivity|].
  eexists.
  match goal with
  | |- ?lhs = ?rhs /\ _ => assert (Hcall : lhs = rhs) by (vm_compute; reflexivity)
  end.
  split; [exact Hcall|].
  exact (policy_iteration_needs_positive_epsilon _ _ _ Hcall).
Defined.

(** ** Q-Learning: what a run changes *)

Section QLearningRun.
Context {Env State : Type} `{MDP Env State}.
Import QLearning.
Implicit Types (self : t Env State) (g : Rng) (s : State) (w : world Env State).

Lemma transition_summary s (msv : list Qc) self g (s2 : State) (d : bool)
    (msv' : list Qc) self' g' :
  transition s msv (self, g) = (Ok (s2, d, msv'), (self', g')) ->
  QL_keeps self self' /\ eps self' = eps self /\
  exists mv, mean_V self' = Ok mv /\ msv' = msv ++ [mv].
Proof.
  intros Hrun. apply transition_inv in Hrun
    as (a & r & g1 & e1 & row & q & row' & m & mv & _ & _ & _ & _ & _ & _ & _ & -> & Hmv & ->).
  split; [done|]. split; [done|]. by exists mv.
Qed.

Lemma episode_summary (fuel : nat) s (d : bool) (msv : list Qc) w (msv' : list Qc) w' :
  episode fuel s d msv w = (Ok msv', w') ->
  QL_keeps w.1 w'.1 /\ eps w'.1 = eps w.1 /\
  (exists ext, msv' = msv ++ ext) /\
  (last_is_mean msv w.1 -> last_is_mean msv' w'.1).
Proof.
  revert s d msv w. induction fuel as [|fuel IH]; intros s d msv w; cbn [episode];
    destruct d;
    try (unfold ret; intros [= <- <-]; split; [done|]; split; [done|];
         split; [exists []; by rewrite app_nil_r|done]).
  { discriminate. }
  intros Hrun.
  apply bind_Ok_inv in Hrun as ([[s2 d2] msv2] & w2 & Htr & Hrun).
  destruct w as [self g], w2 as [self2 g2].
  apply transition_summary in Htr as (Hk & He & mv & Hmv & ->).
  apply IH in Hrun as (Hk' & He' & [ext ->] & Hlast). cbn [fst] in *.
  split; [unfold QL_keeps in *; intuition congruence|].
  split; [congruence|].
  split; [exists ([mv] ++ ext); by rewrite app_assoc|].
  intros _. apply Hlast. exists mv. by rewrite last_snoc.
Qed.

Lemma episodes_summary (fuel : nat) (range : list Z) (msv : list Qc) w
    (msv' : list Qc) w' :
  episodes fuel range msv w = (Ok msv', w') ->
  QL_keeps w.1 w'.1 /\ eps w'.1 = decayed (length range) (eps w.1) /\
  (exists ext, msv' = msv ++ ext) /\
  (last_is_mean msv w.1 -> last_is_mean msv' w'.1).
Proof.
  revert msv w. induction range as [|x range IH]; intros msv w; cbn [episodes].
  { unfold ret. intros [= <- <-]. split; [done|]. split; [done|].
    split; [exists []; by rewrite app_nil_r|done]. }
  intros Hrun.
  apply bind_Ok_inv in Hrun as (self1 & w1 & Hget & Hrun).
  unfold on_fst, get in Hget. cbn [fst snd] in Hget. injection Hget as <- <-.
  apply bind_Ok_inv in Hrun as ([] & w2 & Hput & Hrun).
  unfold on_fst, put in Hput. cbn [fst snd] in Hput. injection Hput as <-.
  apply bind_Ok_inv in Hrun as ([[s0 r0] d0] & w3 & Hreset & Hrun).
  unfold mdp_reset in Hreset. cbn [fst snd] in Hreset.
  destruct (reset (mdp (with_eps w.1 _))) as [out e1]. injection Hreset as -> <-.
  apply bind_Ok_inv in Hrun as (msv1 & w4 & Hep & Hrun).
  apply episode_summary in Hep as (Hk & He & [ext ->] & Hlast).
  apply IH in Hrun as (Hk' & He' & [ext' ->] & Hlast'). cbn [fst] in *.
  split; [unfold QL_keeps in *; cbn in *; intuition congruence|].
  split.
  { rewrite He', He. cbn [length decayed Nat.iter eps with_mdp with_eps].
    unfold decayed. by rewrite <- Nat.iter_succ_r. }
  split; [exists (ext ++ ext'); by rewrite app_assoc|].
  intros Hl. by apply Hlast', Hlast.
Qed.

Lemma derive_policy_argmax self (pol : dict State Z) :
  derive_policy self = Ok pol ->
  forall s, s ∈ allowed_states self ->
    exists row i,
      dict_get s (Q self) = Some row /\ dict_get s pol = Some i /\ first_argmax row i.
Proof.
  unfold derive_policy. intros Hrun s0 Hs0.
  eapply (for_each_invariant (fun done p =>
    forall s, s ∈ done ->
      exists row i,
        dict_get s (Q self) = Some row /\ dict_get s p = Some i /\ first_argmax row i));
    [| |exact Hrun|exact Hs0].
  - intros s Hin. by apply elem_of_nil in Hin.
  - intros done s pa pb Hdone Hbody. bind_inv Hbody. injection Hbody as <-.
    rename a into row, a0 into m, a1 into i.
    intros s' Hs'. destruct (decide (s = s')) as [<-|Hne].
    + exists row, i. split; [by apply dict_getitem_Ok|].
      split; [apply dict_get_set_eq|]. by eapply argmax_first.
    + setoid_rewrite dict_get_set_ne; [|done]. apply Hdone.
      apply elem_of_app in Hs' as [Hs'|Hs']; [done|].
      apply list_elem_of_singleton in Hs'. congruence.
Qed.

Lemma call_summary (fuel : nat) (n : Z) self g (pol : dict State Z) (msv : list Qc)
    self' g' :
  __call__ fuel n (self, g) = (Ok (pol, msv), (self', g')) ->
  QL_keeps self self' /\ eps self' = decayed (Z.to_nat n) (eps self) /\
  (exists m0 rest, mean_V self = Ok m0 /\ msv = m0 :: rest) /\
  last_is_mean msv self' /\
  derive_policy self' = Ok pol.
Proof.
  unfold __call__. intros Hrun.
  apply bind_Ok_inv in Hrun as (self1 & w1 & Hget & Hrun).
  unfold on_fst, get in Hget. cbn [fst snd] in Hget. injection Hget as <- <-.
  apply bind_Ok_inv in Hrun as (m0 & w2 & Hm0 & Hrun).
  apply lift_Ok_inv in Hm0 as [Hm0 ->].
  apply bind_Ok_inv in Hrun as (msv1 & w3 & Hep & Hrun).
  apply episodes_summary in Hep as (Hk & He & [ext ->] & Hlast).
  apply bind_Ok_inv in Hrun as (self3 & w4 & Hget & Hrun).
  unfold on_fst, get in Hget. cbn [fst snd] in Hget. injection Hget as <- <-.
  apply bind_Ok_inv in Hrun as (pol1 & w5 & Hpol & Hrun).
  apply lift_Ok_inv in Hpol as [Hpol ->].
  unfold ret in Hrun. injection Hrun as <- <- <-. cbn [fst] in *.
  split; [exact Hk|]. split; [by rewrite He, length_seqZ|].
  split; [by exists m0, ext|]. split; [|exact Hpol].
  apply Hlast. by exists m0.
Qed.

(** X19. A run of Q-Learning that returns has multiplied [eps] by 0.9995
    once for every episode, none for a count of episodes that is 0 or
    negative, and has left [alpha], [gamma] and the lists of allowed
    states and actions as they were. *)
Theorem q_learning_epsilon_decay (fuel : nat) (n : Z) self g
    (pol : dict State Z) (msv : list Qc) self' g' :
  __call__ fuel n (self, g) = (Ok (pol, msv), (self', g')) ->
  eps self' = decayed (Z.to_nat n) (eps self) /\
  alpha self' = alpha self /\ gamma self' = gamma self /\
  allowed_states self' = allowed_states self /\
  allowed_actions self' = allowed_actions self.
Proof.
  intros Hrun. apply call_summary in Hrun as (Hk & He & _). by destruct Hk as (? & ? & ? & ?).
Qed.

(** X20. When Q-Learning returns, the first mean state value it reports
    is the mean for the table it started from and the last one is the
    mean for the table it leaves; the returned policy holds, for every
    allowed state, the first position of a maximal entry of that state's
    row of the table it leaves. *)
Theorem q_learning_returns_greedy_policy (fuel : nat) (n : Z) self g
    (pol : dict State Z) (msv : list Qc) self' g' :
  __call__ fuel n (self, g) = (Ok (pol, msv), (self', g')) ->
  (exists m0, head msv = Some m0 /\ mean_V self = Ok m0) /\
  (exists m, last msv = Some m /\ mean_V self' = Ok m) /\
  forall s, s ∈ allowed_states self ->
    exists row i,
      dict_get s (Q self') = Some row /\ dict_get s pol = Some i /\
      first_argmax row i.
Proof.
  intros Hrun.
  apply call_summary in Hrun as (Hk & _ & (m0 & rest & Hm0 & ->) & Hlast & Hpol).
  split; [by exists m0|]. split; [exact Hlast|].
  intros s Hs. destruct Hk as (_ & _ & Hst & _). rewrite <- Hst in Hs.
  by eapply derive_policy_argmax.
Qed.
End QLearningRun.

(** ** Q-Learning: the choice of an action *)



Section QLearningSelect.
Context {Env State : Type} `{MDP Env State}.
Import QLearning.
Implicit Types (self : t Env State) (g : Rng) (s : State).

End QLearningSelect.

(** ** Q-Learning: the calls an environment receives *)

Lemma count_resets_app (l1 l2 : list Logged.call) :
  count_resets (l1 ++ l2) = (count_resets l1 + count_resets l2)%nat.
Proof. induction l1 as [|[|a] l1 IH]; simpl; lia. Qed.

Lemma count_steps_app (l1 l2 : list Logged.call) :
  count_steps (l1 ++ l2) = (count_steps l1 + count_steps l2)%nat.
Proof. induction l1 as [|[|a] l1 IH]; simpl; lia. Qed.

Section QLearningCalls.
Context {Env State : Type} `{MDP Env State}.
Import QLearning.
Implicit Types (self : t (Logged.t Env) State) (g : Rng) (s : State).
Implicit Types (w : world (Logged.t Env) State).

Lemma transition_calls s (msv : list Qc) self g (s2 : State) (d : bool)
    (msv' : list Qc) self' g' :
  transition s msv (self, g) = (Ok (s2, d, msv'), (self', g')) ->
  (exists a, Logged.calls (mdp self') = Logged.calls (mdp self) ++ [Logged.StepCall a]) /\
  length msv' = S (length msv).
Proof.
  intros Hrun. apply transition_inv in Hrun
    as (a & r & g1 & e1 & row & q & row' & m & mv & _ & Hstep & _ & _ & _ & _ & _ & -> & _ & ->).
  split; [|rewrite length_app; simpl; lia].
  exists a. cbn [mdp with_Q with_mdp].
  cbn [step Logged.mdp] in Hstep. unfold Logged.logged_step, Logged.log in Hstep.
  cbn [Logged.inner Logged.calls fst snd] in Hstep.
  destruct (step a (Logged.inner (mdp self), g1)) as [out [i g2]].
  by injection Hstep as _ <- _.
Qed.

Lemma episode_calls (fuel : nat) s (d : bool) (msv : list Qc) w (msv' : list Qc) w' :
  episode fuel s d msv w = (Ok msv', w') ->
  exists new,
    Logged.calls (mdp w'.1) = Logged.calls (mdp w.1) ++ new /\
    count_resets new = 0%nat /\
    length msv' = (length msv + count_steps new)%nat.
Proof.
  revert s d msv w. induction fuel as [|fuel IH]; intros s d msv w; cbn [episode];
    destruct d;
    try (unfold ret; intros [= <- <-]; exists []; rewrite app_nil_r; simpl;
         split; [done|]; split; [done|lia]).
  { discriminate. }
  intros Hrun.
  apply bind_Ok_inv in Hrun as ([[s2 d2] msv2] & w2 & Htr & Hrun).
  destruct w as [self g], w2 as [self2 g2].
  apply transition_calls in Htr as ([a Hcalls] & Hlen).
  apply IH in Hrun as (new & Hnew & Hres & Hlen'). cbn [fst] in *.
  exists (Logged.StepCall a :: new). rewrite Hnew, Hcalls, <- app_assoc.
  split; [done|]. split; [done|]. simpl. lia.
Qed.

Lemma episodes_calls (fuel : nat) (range : list Z) (msv : list Qc) w
    (msv' : list Qc) w' :
  episodes fuel range msv w = (Ok msv', w') ->
  exists new,
    Logged.calls (mdp w'.1) = Logged.calls (mdp w.1) ++ new /\
    count_resets new = length range /\
    length msv' = (length msv + count_steps new)%nat /\
    (range <> [] -> head new = Some Logged.ResetCall).
Proof.
  revert msv w. induction range as [|x range IH]; intros msv w; cbn [episodes].
  { unfold ret. intros [= <- <-]. exists []. rewrite app_nil_r. simpl.
    split; [done|]. split; [done|]. split; [lia|done]. }
  intros Hrun.
  apply bind_Ok_inv in Hrun as (self1 & w1 & Hget & Hrun).
  unfold on_fst, get in Hget. cbn [fst snd] in Hget. injection Hget as <- <-.
  apply bind_Ok_inv in Hrun as ([] & w2 & Hput & Hrun).
  unfold on_fst, put in Hput. cbn [fst snd] in Hput. injection Hput as <-.
  apply bind_Ok_inv in Hrun as ([[s0 r0] d0] & w3 & Hreset & Hrun).
  unfold mdp_reset in Hreset. cbn [fst snd] in Hreset.
  cbn [reset Logged.mdp mdp with_eps] in Hreset.
  unfold Logged.logged_reset, Logged.log in Hreset.
  cbn [Logged.inner Logged.calls] in Hreset.
  destruct (reset (Logged.inner (mdp w.1))) as [out i]. injection Hreset as -> <-.
  apply bind_Ok_inv in Hrun as (msv1 & w4 & Hep & Hrun).
  apply episode_calls in Hep as (new1 & Hnew1 & Hres1 & Hlen1).
  apply IH in Hrun as (new2 & Hnew2 & Hres2 & Hlen2 & _).
  cbn [fst mdp with_mdp with_eps Logged.calls] in *.
  exists (Logged.ResetCall :: new1 ++ new2).
  rewrite Hnew2, Hnew1, <- !app_assoc. split; [done|].
  cbn [count_resets count_steps length]. rewrite count_resets_app, count_steps_app.
  split; [lia|]. split; [lia|done].
Qed.

(** X22. Run on an environment that records its calls, a run of
    Q-Learning that returns has called [reset] once for every episode,
    first of all when there is one, and the sequence of mean state values
    has one entry for the start and one for every call of [step]. *)
Theorem q_learning_calls_and_means (fuel : nat) (n : Z) self g
    (pol : dict State Z) (msv : list Qc) self' g' :
  __call__ fuel n (self, g) = (Ok (pol, msv), (self', g')) ->
  exists new,
    Logged.calls (mdp self') = Logged.calls (mdp self) ++ new /\
    count_resets new = Z.to_nat n /\
    length msv = S (count_steps new) /\
    (0 < n -> head new = Some Logged.ResetCall).
Proof.
  unfold __call__. intros Hrun.
  apply bind_Ok_inv in Hrun as (self1 & w1 & Hget & Hrun).
  unfold on_fst, get in Hget. cbn [fst snd] in Hget. injection Hget as <- <-.
  apply bind_Ok_inv in Hrun as (m0 & w2 & Hm0 & Hrun).
  apply lift_Ok_inv in Hm0 as [Hm0 ->].
  apply bind_Ok_inv in Hrun as (msv1 & w3 & Hep & Hrun).
  apply episodes_calls in Hep as (new & Hnew & Hres & Hlen & Hhead).
  apply bind_Ok_inv in Hrun as (self3 & w4 & Hget & Hrun).
  unfold on_fst, get in Hget. cbn [fst snd] in Hget. injection Hget as <- <-.
  apply bind_Ok_inv in Hrun as (pol1 & w5 & Hpol & Hrun).
  apply lift_Ok_inv in Hpol as [Hpol ->].
  unfold ret in Hrun. injection Hrun as <- <- <-. cbn [fst] in *.
  exists new. split; [exact Hnew|]. rewrite length_seqZ in Hres.
  split; [exact Hres|]. split; [simpl in Hlen; lia|].
  intros Hn. apply Hhead. intros Hnil.
  apply (f_equal length) in Hnil. rewrite length_seqZ in Hnil. simpl in Hnil. lia.
Qed.
End QLearningCalls.

(** One episode on the grid: right, right, right, down into Tom. *)
Lemma q_learning_epsilon_decay_witness :
  exists self pol msv self' g',
    QLearning.__init__ TomAndJerry.init default_alpha default_gamma 1%Qc = Ok self /\
    QLearning.__call__ 10 1 (self, tape_to_tom) = (Ok (pol, msv), (self', g')) /\
    QLearning.eps self' = decayed 1 (QLearning.eps self) /\
    QLearning.eps self' = Q2Qc (9995 # 10000).
Proof.
  do 5 eexists. split; [vm_compute; reflexivity|].
  match goal with
  | |- ?lhs = ?rhs /\ _ => assert (Hcall : lhs = rhs) by (vm_compute; reflexivity)
  end.
  split; [exact Hcall|].
  split; [exact (proj1 (q_learning_epsilon_decay _ _ _ _ _ _ _ _ Hcall))|].
  apply Qc_is_canon. reflexivity.
Defined.

Lemma q_learning_returns_greedy_policy_witness :
  exists self pol msv self' g',
    QLearning.__init__ TomAndJerry.init default_alpha default_gamma 1%Qc = Ok self /\
    QLearning.__call__ 10 1 (self, tape_to_tom) = (Ok (pol, msv), (self', g')) /\
    (exists m0, head msv = Some m0 /\ QLearning.mean_V self = Ok m0) /\
    (exists m, last msv = Some m /\ QLearning.mean_V self' = Ok m) /\
    forall s, s ∈ QLearning.allowed_states self ->
      exists row i,
        dict_get s (QLearning.Q self') = Some row /\ dict_get s pol = Some i /\
        first_argmax row i.
Proof.
  do 5 eexists. split; [vm_compute; reflexivity|].
  match goal with
  | |- ?lhs = ?rhs /\ _ => assert (Hcall : lhs = rhs) by (vm_compute; reflexivity)
  end.
  split; [exact Hcall|].
  exact (q_learning_returns_greedy_policy _ _ _ _ _ _ _ _ Hcall).
Defined.


(** The same episode on the recording grid. *)
Lemma q_learning_calls_and_means_witness :
  exists self pol msv self' g',
    QLearning.__init__ {| Logged.inner := TomAndJerry.init; Logged.calls := [] |}
      default_alpha default_gamma 1%Qc = Ok self /\
    QLearning.__call__ 10 1 (self, tape_to_tom) = (Ok (pol, msv), (self', g')) /\
    length msv = 5%nat /\
    exists new,
      Logged.calls (QLearning.mdp self') = Logged.calls (QLearning.mdp self) ++ new /\
      count_resets new = Z.to_nat 1 /\
      length msv = S (count_steps new) /\
      (0 < 1 -> head new = Some Logged.ResetCall).
Proof.
  do 5 eexists. split; [vm_compute; reflexivity|].
  match goal with
  | |- ?lhs = ?rhs /\ _ => assert (Hcall : lhs = rhs) by (vm_compute; reflexivity)
  end.
  split; [exact Hcall|]. split; [reflexivity|].
  exact (q_learning_calls_and_means _ _ _ _ _ _ _ _ Hcall).
Defined.

(** ** The dynamic-programming solvers raise no exception *)

(** A loop whose body returns on every element returns. *)
Lemma for_each_total {A B : Type} (I : B -> Prop) (l : list A) (acc : B)
    (body : B -> A -> res B) :
  I acc ->
  (forall x b, x ∈ l -> I b -> exists b', body b x = Ok b' /\ I b') ->
  exists out, for_each l acc body = Ok out /\ I out.
Proof.
  revert acc. induction l as [|x l IH]; intros acc Hacc Hbody; simpl; [eauto|].
  destruct (Hbody x acc) as (b' & -> & Hb'); [by left|done|]. simpl.
  apply IH; [done|]. intros y b Hy. apply Hbody. by right.
Qed.

Lemma comprehension_total {A B : Type} (f : A -> res B) (l : list A) :
  (forall x, x ∈ l -> exists y, f x = Ok y) ->
  exists ys, comprehension f l = Ok ys /\ length ys = length l.
Proof.
  induction l as [|x l IH]; intros Hf; simpl; [by exists []|].
  destruct (Hf x) as [y ->]; [by left|]. simpl.
  destruct IH as (ys & -> & Hlen); [intros z Hz; apply Hf; by right|]. simpl.
  exists (y :: ys). split; [done|]. simpl. by rewrite Hlen.
Qed.

Lemma returns_or_runs_never_raises {A : Type} (P : A -> Prop) (r : res A) :
  returns_or_runs P r -> never_raises r.
Proof. by destruct r. Qed.

Section DynamicProgrammingSafety.
Context {Env State : Type} `{MDP Env State}.
Variables (e : Env) (sts : list State) (acts : list Z).
Hypothesis Hdecl : get_allowed_states_and_actions e = Ok (sts, acts).
Hypothesis Hsts : sts <> [].
Hypothesis Hacts : acts <> [].
Hypothesis Hprob : forall s a s', s ∈ sts -> s' ∈ sts ->
  exists p, get_transition_prob e s a s' = Ok p.

Lemma action_value_total (gamma : Qc) (Vf : dict State Qc) (s : State) (a : Z) :
  s ∈ sts ->
  (forall s', s' ∈ sts -> exists v, dict_get s' Vf = Some v) ->
  exists q, action_value e sts gamma Vf s a = Ok q.
Proof.
  intros Hs HV. unfold action_value.
  destruct (for_each_total (fun _ => True) sts 0%Qc
    (fun acc s_prime =>
       p ← get_transition_prob e s a s_prime;
       v ← dict_getitem s_prime Vf;
       Ok (acc + p * (get_reward e s a s_prime + gamma * v))%Qc))
    as (q & Hq & _); [done| |by exists q].
  intros s' b Hs' _. destruct (Hprob s a s' Hs Hs') as [p ->].
  destruct (HV s' Hs') as [v Hv]. apply dict_getitem_Ok in Hv. rewrite Hv.
  cbn [mbind res_bind]. eauto.
Qed.

Lemma argmax_total (gamma : Qc) (Vf : dict State Qc) (s : State) :
  s ∈ sts ->
  (forall s', s' ∈ sts -> exists v, dict_get s' Vf = Some v) ->
  exists Q_s m i,
    comprehension (action_value e sts gamma Vf s) acts = Ok Q_s /\
    py_max Q_s = Ok m /\ py_index m Q_s = Ok i.
Proof.
  intros Hs HV.
  destruct (comprehension_total (action_value e sts gamma Vf s) acts)
    as (Q_s & HQ & Hlen); [intros a _; by apply action_value_total|].
  destruct (argmax_exists Q_s) as (m & i & Hm & Hi).
  { intros ->. destruct acts; [done|discriminate]. }
  by exists Q_s, m, i.
Qed.

(** *** Value Iteration *)

Lemma VI_init_ready (gamma epsilon : Qc) :
  exists self,
    ValueIteration.__init__ e gamma epsilon = Ok self /\ VI_ready e sts acts self.
Proof.
  unfold ValueIteration.__init__. rewrite Hdecl. cbn [mbind res_bind].
  eexists. split; [reflexivity|]. split; [done|]. split; [done|]. split; [done|].
  intros s Hs. exists 0%Qc. cbn [ValueIteration.V]. by apply dict_get_fill.
Qed.

Lemma VI_sweep_total (self : ValueIteration.t Env State) :
  VI_ready e sts acts self ->
  exists self' delta,
    ValueIteration.sweep self = Ok (self', delta) /\ VI_ready e sts acts self'.
Proof.
  intros Hready. unfold ValueIteration.sweep.
  destruct (for_each_total (fun b => VI_ready e sts acts b.1)
    (ValueIteration.allowed_states self) (self, 0%Qc)
    (fun '(self, delta) s =>
       old_v ← dict_getitem s (ValueIteration.V self);
       Q_s ← comprehension (ValueIteration.__Q self s)
               (ValueIteration.allowed_actions self);
       m ← py_max Q_s;
       let self := ValueIteration.with_V self
                     (dict_set s m (ValueIteration.V self)) in
       v ← dict_getitem s (ValueIteration.V self);
       Ok (self, py_max2 delta (py_abs (old_v - v)%Qc))))
    as ([self' delta] & Hrun & Hout); [done| |by exists self', delta].
  intros s [self1 d1] Hs (Hm & Hst & Hac & HV). cbn [fst] in *.
  rewrite (proj1 (proj2 Hready)) in Hs.
  destruct (HV s Hs) as [old_v Hold]. apply dict_getitem_Ok in Hold. rewrite Hold.
  cbn [mbind res_bind].
  destruct (argmax_total (ValueIteration.gamma self1) (ValueIteration.V self1) s Hs HV)
    as (Q_s & m & i & HQ & Hmax & _).
  assert (HQ' : comprehension (ValueIteration.__Q self1 s)
                  (ValueIteration.allowed_actions self1) = Ok Q_s).
  { rewrite Hac. rewrite <- HQ. apply comprehension_ext. intros a.
    unfold ValueIteration.__Q, action_value. by rewrite Hm, Hst. }
  rewrite HQ'. cbn [mbind res_bind]. rewrite Hmax. cbn [mbind res_bind].
  cbn [ValueIteration.V ValueIteration.with_V].
  unfold dict_getitem at 1. rewrite dict_get_set_eq. cbn [mbind res_bind].
  eexists. split; [reflexivity|]. cbn [fst]. split; [done|]. split; [done|].
  split; [done|]. cbn [ValueIteration.V ValueIteration.with_V].
  intros s' Hs'. destruct (decide (s = s')) as [<-|Hne].
  - exists m. apply dict_get_set_eq.
  - rewrite dict_get_set_ne by done. by apply HV.
Qed.

Lemma VI_mean_total (self : ValueIteration.t Env State) :
  VI_ready e sts acts self -> exists m, ValueIteration.__get_mean_V self = Ok m.
Proof.
  intros (_ & _ & _ & HV). unfold ValueIteration.__get_mean_V.
  destruct sts as [|s l]; [done|].
  destruct (HV s) as [v Hv]; [by left|].
  destruct (ValueIteration.V self) as [|kv d]; [discriminate|].
  cbn [length py_div_len]. eauto.
Qed.

Lemma VI_loop_safe (fuel : nat) (self : ValueIteration.t Env State) (msv : list Qc) :
  VI_ready e sts acts self ->
  returns_or_runs (fun out => VI_ready e sts acts out.1)
    (ValueIteration.loop fuel self msv).
Proof.
  revert self msv. induction fuel as [|fuel IH]; intros self msv Hready; [done|].
  cbn [ValueIteration.loop].
  destruct (VI_sweep_total self Hready) as (self1 & delta & -> & Hready1).
  cbn [mbind res_bind].
  destruct (VI_mean_total self1 Hready1) as [m ->]. cbn [mbind res_bind].
  destruct (py_lt delta (ValueIteration.eps self1)); [done|]. by apply IH.
Qed.

Lemma VI_derive_policy_total (self : ValueIteration.t Env State) :
  VI_ready e sts acts self ->
  exists self', ValueIteration.derive_policy self = Ok self'.
Proof.
  intros Hready. unfold ValueIteration.derive_policy.
  destruct (for_each_total (fun b => VI_ready e sts acts b)
    (ValueIteration.allowed_states self) self
    (fun self s =>
       Q_s ← comprehension (ValueIteration.__Q self s)
               (ValueIteration.allowed_actions self);
       m ← py_max Q_s;
       i ← py_index m Q_s;
       Ok (ValueIteration.with_policy self
             (dict_set s i (ValueIteration.policy self)))))
    as (self' & Hrun & _); [done| |by exists self'].
  intros s self1 Hs (Hm & Hst & Hac & HV).
  rewrite (proj1 (proj2 Hready)) in Hs.
  destruct (argmax_total (ValueIteration.gamma self1) (ValueIteration.V self1) s Hs HV)
    as (Q_s & m & i & HQ & Hmax & Hi).
  assert (HQ' : comprehension (ValueIteration.__Q self1 s)
                  (ValueIteration.allowed_actions self1) = Ok Q_s).
  { rewrite Hac. rewrite <- HQ. apply comprehension_ext. intros a.
    unfold ValueIteration.__Q, action_value. by rewrite Hm, Hst. }
  rewrite HQ'. cbn [mbind res_bind]. rewrite Hmax. cbn [mbind res_bind].
  rewrite Hi. cbn [mbind res_bind]. eexists. split; [reflexivity|]. done.
Qed.

Lemma VI_call_safe (gamma epsilon : Qc) (fuel : nat) :
  exists self,
    ValueIteration.__init__ e gamma epsilon = Ok self /\
    never_raises (ValueIteration.__call__ fuel self).
Proof.
  destruct (VI_init_ready gamma epsilon) as (self & Hinit & Hready).
  exists self. split; [done|]. unfold ValueIteration.__call__.
  destruct (VI_mean_total self Hready) as [m0 ->]. cbn [mbind res_bind].
  pose proof (VI_loop_safe fuel self [m0] Hready) as Hloop.
  destruct (ValueIteration.loop fuel self [m0]) as [[self1 msv]| |]; [|done|done].
  cbn [mbind res_bind]. cbn [returns_or_runs fst] in Hloop.
  destruct (VI_derive_policy_total self1 Hloop) as [self2 ->]. done.
Qed.
(** *** Policy Iteration *)

Lemma PI_fill (l : list State) (self : PolicyIteration.t Env State) :
  PI_frame self
    (foldl (fun self s => PolicyIteration.with_V self
                            (dict_set s 0%Qc (PolicyIteration.V self))) self l) /\
  PolicyIteration.policy
    (foldl (fun self s => PolicyIteration.with_V self
                            (dict_set s 0%Qc (PolicyIteration.V self))) self l)
    = PolicyIteration.policy self /\
  PolicyIteration.V
    (foldl (fun self s => PolicyIteration.with_V self
                            (dict_set s 0%Qc (PolicyIteration.V self))) self l)
    = foldl (fun d k => dict_set k 0%Qc d) (PolicyIteration.V self) l.
Proof.
  revert self. induction l as [|s l IH]; intros self; simpl; [done|].
  destruct (IH (PolicyIteration.with_V self (dict_set s 0%Qc (PolicyIteration.V self))))
    as (Hf & Hp & HV).
  split; [exact Hf|]. split; [exact Hp|exact HV].
Qed.

Lemma PI_evaluate_sweep_total (self : PolicyIteration.t Env State) :
  PI_ready e sts acts self -> PI_evaluated self ->
  exists self' delta,
    PolicyIteration.evaluate_sweep self = Ok (self', delta) /\
    PI_ready e sts acts self' /\ PI_evaluated self'.
Proof.
  intros Hready Hev. unfold PolicyIteration.evaluate_sweep.
  destruct (for_each_total (fun b => PI_ready e sts acts b.1 /\ PI_evaluated b.1)
    (PolicyIteration.allowed_states self) (self, 0%Qc)
    (fun '(self, delta) s =>
       old_v ← dict_getitem s (PolicyIteration.V self);
       a ← dict_getitem s (PolicyIteration.policy self);
       q ← PolicyIteration.__Q self s a;
       let self := PolicyIteration.with_V self
                     (dict_set s q (PolicyIteration.V self)) in
       v ← dict_getitem s (PolicyIteration.V self);
       Ok (self, py_max2 delta (py_abs (old_v - v)%Qc))))
    as ([self' delta] & Hrun & Hout); [done| |by exists self', delta].
  intros s [self1 d1] Hs [(Hm & Hst & Hac & Hpol) HV]. cbn [fst] in *.
  rewrite (proj1 (proj2 Hready)) in Hs. unfold PI_evaluated in HV. rewrite Hst in HV.
  destruct (HV s Hs) as [old_v Hold]. apply dict_getitem_Ok in Hold. rewrite Hold.
  cbn [mbind res_bind].
  destruct (Hpol s Hs) as [a Ha]. apply dict_getitem_Ok in Ha. rewrite Ha.
  cbn [mbind res_bind].
  destruct (action_value_total (PolicyIteration.gamma self1)
              (PolicyIteration.V self1) s a Hs HV) as [q Hq].
  rewrite Q_is_action_value, Hm, Hst, Hq. cbn [mbind res_bind].
  cbn [PolicyIteration.V PolicyIteration.with_V].
  unfold dict_getitem at 1. rewrite dict_get_set_eq. cbn [mbind res_bind].
  eexists. split; [reflexivity|]. cbn [fst]. split; [done|].
  unfold PI_evaluated. cbn [PolicyIteration.V PolicyIteration.with_V
                            PolicyIteration.allowed_states]. rewrite Hst.
  intros s' Hs'. destruct (decide (s = s')) as [<-|Hne].
  - exists q. apply dict_get_set_eq.
  - rewrite dict_get_set_ne by done. by apply HV.
Qed.

Lemma PI_evaluate_loop_safe (fuel : nat) (self : PolicyIteration.t Env State) :
  PI_ready e sts acts self -> PI_evaluated self ->
  returns_or_runs (fun self' => PI_ready e sts acts self' /\ PI_evaluated self')
    (PolicyIteration.evaluate_loop fuel self).
Proof.
  revert self. induction fuel as [|fuel IH]; intros self Hready Hev; [done|].
  cbn [PolicyIteration.evaluate_loop].
  destruct (PI_evaluate_sweep_total self Hready Hev) as (self1 & delta & -> & Hr1 & He1).
  cbn [mbind res_bind].
  destruct (py_lt delta (PolicyIteration.eps self1)); [done|]. by apply IH.
Qed.

Lemma PI_evaluate_policy_safe (fuel : nat) (self : PolicyIteration.t Env State) :
  PI_ready e sts acts self ->
  returns_or_runs (fun self' => PI_ready e sts acts self' /\ PI_evaluated self')
    (PolicyIteration.__evaluate_policy fuel self).
Proof.
  intros (Hm & Hst & Hac & Hpol). unfold PolicyIteration.__evaluate_policy.
  destruct (PI_fill (PolicyIteration.allowed_states self) self)
    as ((Hm' & _ & _ & Hst' & Hac') & Hp' & HV').
  apply PI_evaluate_loop_safe.
  - split; [congruence|]. split; [congruence|]. split; [congruence|].
    rewrite Hp'. exact Hpol.
  - unfold PI_evaluated. rewrite HV', Hst'. intros s Hs. exists 0%Qc.
    by apply dict_get_fill.
Qed.

Lemma PI_policy_update_total (self : PolicyIteration.t Env State) :
  PI_ready e sts acts self -> PI_evaluated self ->
  exists self' mean,
    PolicyIteration.__policy_update self = Ok (self', mean) /\
    PI_ready e sts acts self'.
Proof.
  intros Hready Hev. unfold PolicyIteration.__policy_update.
  destruct (for_each_total
    (fun b => PI_ready e sts acts b.1 /\ PI_evaluated b.1 /\
              PolicyIteration.allowed_states b.1 = sts)
    (PolicyIteration.allowed_states self) (self, 0)
    (fun '(self, total_policy_change) s =>
       old_a ← dict_getitem s (PolicyIteration.policy self);
       Q_s ← comprehension (PolicyIteration.__Q self s)
               (PolicyIteration.allowed_actions self);
       m ← py_max Q_s;
       i ← py_index m Q_s;
       let self := PolicyIteration.with_policy self
                     (dict_set s i (PolicyIteration.policy self)) in
       new_a ← dict_getitem s (PolicyIteration.policy self);
       Ok (self, total_policy_change + Z.abs (old_a - new_a))))
    as ([self' total] & Hrun & Hr' & _ & Hst').
  { split; [done|]. split; [done|]. by destruct Hready as (_ & ? & _). }
  - intros s [self1 t1] Hs [(Hm & Hst & Hac & Hpol) [HV _]]. cbn [fst] in *.
    rewrite (proj1 (proj2 Hready)) in Hs. unfold PI_evaluated in HV. rewrite Hst in HV.
    destruct (Hpol s Hs) as [old_a Ha]. apply dict_getitem_Ok in Ha. rewrite Ha.
    cbn [mbind res_bind].
    destruct (argmax_total (PolicyIteration.gamma self1) (PolicyIteration.V self1)
                s Hs HV) as (Q_s & m & i & HQ & Hmax & Hi).
    assert (HQ' : comprehension (PolicyIteration.__Q self1 s)
                    (PolicyIteration.allowed_actions self1) = Ok Q_s).
    { rewrite Hac. rewrite <- HQ. apply comprehension_ext. intros a.
      by rewrite Q_is_action_value, Hm, Hst. }
    rewrite HQ'. cbn [mbind res_bind]. rewrite Hmax. cbn [mbind res_bind].
    rewrite Hi. cbn [mbind res_bind].
    cbn [PolicyIteration.policy PolicyIteration.with_policy].
    unfold dict_getitem at 1. rewrite dict_get_set_eq. cbn [mbind res_bind].
    eexists. split; [reflexivity|]. cbn [fst].
    split; [|split; [|done]].
    + split; [done|]. split; [done|]. split; [done|].
      cbn [PolicyIteration.policy PolicyIteration.with_policy].
      intros s' Hs'. destruct (decide (s = s')) as [<-|Hne].
      * exists i. apply dict_get_set_eq.
      * rewrite dict_get_set_ne by done. by apply Hpol.
    + unfold PI_evaluated.
      cbn [PolicyIteration.V PolicyIteration.with_policy PolicyIteration.allowed_states].
      by rewrite Hst.
  - cbv zeta. cbv zeta in Hrun. rewrite Hrun.
    cbn [mbind res_bind]. cbn [fst] in Hst'. rewrite Hst'.
    destruct sts as [|s0 l]; [done|]. cbn [length py_div_len mbind res_bind].
    eexists _, _. split; [reflexivity|done].
Qed.

Lemma PI_loop_safe (fuel rounds : nat) (self : PolicyIteration.t Env State)
    (mpc : list Qc) :
  PI_ready e sts acts self ->
  never_raises (PolicyIteration.loop fuel rounds self mpc).
Proof.
  revert self mpc. induction rounds as [|rounds IH]; intros self mpc Hready; [done|].
  cbn [PolicyIteration.loop].
  pose proof (PI_evaluate_policy_safe fuel self Hready) as Hev.
  destruct (PolicyIteration.__evaluate_policy fuel self) as [self1| |]; [|done|done].
  cbn [mbind res_bind]. destruct Hev as [Hr1 He1].
  destruct (PI_policy_update_total self1 Hr1 He1) as (self2 & mean & -> & Hr2).
  cbn [mbind res_bind]. destruct (py_eq mean 0%Qc); [done|]. by apply IH.
Qed.

Lemma PI_call_safe (gamma epsilon : Qc) (fuel : nat) (g : Rng) :
  exists self g',
    PolicyIteration.__init__ e gamma epsilon g = (Ok self, g') /\
    never_raises (PolicyIteration.__call__ fuel self).
Proof.
  destruct (PolicyIteration_init_total e gamma epsilon g sts acts Hdecl Hacts)
    as (self & Hinit & Hm & _ & _ & Hst & Hac & _ & Hpol).
  exists self. eexists. split; [exact Hinit|]. unfold PolicyIteration.__call__.
  assert (Hready : PI_ready e sts acts self).
  { split; [done|]. split; [done|]. split; [done|].
    intros s Hs. destruct (Hpol s Hs) as (a & Ha & _). by exists a. }
  pose proof (PI_loop_safe fuel fuel self [] Hready) as Hloop.
  destruct (PolicyIteration.loop fuel fuel self []) as [[self1 mpc]| |]; done.
Qed.
End DynamicProgrammingSafety.

(** X23. On both environments, for any parameters, random draws and number
    of loop iterations allowed, the constructors of Value Iteration and of
    Policy Iteration return and the run that follows raises no exception:
    every dictionary entry and list position the two solvers read exists,
    every maximum is taken over a list that is not empty and every
    division is by a length that is not 0. *)
Theorem dynamic_programming_raises_nothing :
  (forall (e : TomAndJerry.t) (gamma epsilon : Qc) (fuel : nat) (g : Rng),
      (exists self,
          ValueIteration.__init__ e gamma epsilon = Ok self /\
          never_raises (ValueIteration.__call__ fuel self)) /\
      (exists self g',
          PolicyIteration.__init__ e gamma epsilon g = (Ok self, g') /\
          never_raises (PolicyIteration.__call__ fuel self))) /\
  (forall (e : BitStrings.t) (gamma epsilon : Qc) (fuel : nat) (g : Rng),
      (exists self,
          ValueIteration.__init__ e gamma epsilon = Ok self /\
          never_raises (ValueIteration.__call__ fuel self)) /\
      (exists self g',
          PolicyIteration.__init__ e gamma epsilon g = (Ok self, g') /\
          never_raises (PolicyIteration.__call__ fuel self))).
Proof.
  split.
  - intros e gamma epsilon fuel g.
    assert (Hprob : forall s a s', s ∈ TomAndJerry_states -> s' ∈ TomAndJerry_states ->
      exists p, get_transition_prob e s a s' = Ok p).
    { intros s a s' _ _.
      destruct (TomAndJerry_transition_prob_cases e s a s') as (p & Hp & _). eauto. }
    split.
    + apply (VI_call_safe e TomAndJerry_states TomAndJerry.allowed_actions);
        [apply TomAndJerry_declared|discriminate|discriminate|exact Hprob].
    + apply (PI_call_safe e TomAndJerry_states TomAndJerry.allowed_actions);
        [apply TomAndJerry_declared|discriminate|discriminate|exact Hprob].
  - intros e gamma epsilon fuel g.
    assert (Hprob : forall s a s', s ∈ BitStrings_states -> s' ∈ BitStrings_states ->
      exists p, get_transition_prob e s a s' = Ok p).
    { intros s a s' Hs _.
      destruct (BitStrings_transition_prob_cases e s a s') as (p & Hp & _); [|eauto].
      unfold declared_states. by rewrite BitStrings_declared. }
    split.
    + apply (VI_call_safe e BitStrings_states BitStrings_actions);
        [apply BitStrings_declared|apply (law_states _ _ _ _ BitStrings_laws)
        |discriminate|exact Hprob].
    + apply (PI_call_safe e BitStrings_states BitStrings_actions);
        [apply BitStrings_declared|apply (law_states _ _ _ _ BitStrings_laws)
        |discriminate|exact Hprob].
Qed.

(** ** The solvers on an environment without states or without actions *)

Section DegenerateEnvironments.
Context {Env State : Type} `{MDP Env State}.

(** X24. An environment that declares a state and no action.  Value
    Iteration is constructed and raises [ValueError] in its first sweep,
    at the maximum over an empty list; the constructor of Policy
    Iteration raises [IndexError]; Q-Learning is constructed and raises
    [ValueError] before the first episode, leaving the environment and
    the random generator untouched. *)
Theorem solvers_need_an_action (e : Env) (s : State) (sts : list State) :
  get_allowed_states_and_actions e = Ok (s :: sts, []) ->
  (forall gamma epsilon,
      exists self,
        ValueIteration.__init__ e gamma epsilon = Ok self /\
        forall fuel, ValueIteration.__call__ (S fuel) self = Raise ValueError) /\
  (forall gamma epsilon g,
      PolicyIteration.__init__ e gamma epsilon g = (Raise IndexError, g)) /\
  (forall alpha gamma eps,
      exists self,
        QLearning.__init__ e alpha gamma eps = Ok self /\
        forall fuel n g,
          QLearning.__call__ fuel n (self, g) = (Raise ValueError, (self, g))).
Proof.
  intros He. split; [|split].
  - intros gamma epsilon. unfold ValueIteration.__init__. rewrite He.
    cbn [mbind res_bind]. eexists. split; [reflexivity|]. intros fuel.
    set (Vf := foldl (fun V s => dict_set s 0%Qc V) [] (s :: sts)).
    assert (Hs : dict_get s Vf = Some 0%Qc) by (apply dict_get_fill; by left).
    unfold ValueIteration.__call__, ValueIteration.__get_mean_V.
    cbn [ValueIteration.V]. fold Vf.
    destruct Vf as [|kv d] eqn:HV; [discriminate|].
    cbn [length py_div_len mbind res_bind ValueIteration.loop].
    unfold ValueIteration.sweep.
    cbn [ValueIteration.allowed_states ValueIteration.allowed_actions
         ValueIteration.V for_each comprehension].
    unfold dict_getitem. rewrite Hs. reflexivity.
  - intros gamma epsilon g. unfold PolicyIteration.__init__, bind, lift.
    rewrite He. reflexivity.
  - intros alpha gamma eps. unfold QLearning.__init__. rewrite He.
    cbn [mbind res_bind]. eexists. split; [reflexivity|]. intros fuel n g.
    set (Qt := foldl (fun Q s => dict_set s (replicate (length (@nil Z)) 0%Qc) Q)
                 [] (s :: sts)).
    assert (Hs : dict_get s Qt = Some []) by (apply dict_get_fill; by left).
    unfold QLearning.__call__, bind, on_fst, get, lift. cbn [fst snd].
    unfold QLearning.mean_V, QLearning.__get_V.
    cbn [QLearning.allowed_states QLearning.Q for_each]. fold Qt.
    unfold dict_getitem. rewrite Hs. reflexivity.
Qed.

(** X25. An environment that declares no state.  All three solvers are
    constructed, Policy Iteration without a draw, and all three raise
    [ZeroDivisionError] at a mean over no states: Value Iteration and
    Q-Learning before their loops, Policy Iteration, for a positive
    [epsilon], at the end of its first round. *)
Theorem solvers_need_a_state (e : Env) (acts : list Z) :
  get_allowed_states_and_actions e = Ok ([], acts) ->
  (forall gamma epsilon,
      exists self,
        ValueIteration.__init__ e gamma epsilon = Ok self /\
        forall fuel, ValueIteration.__call__ fuel self = Raise ZeroDivisionError) /\
  (forall gamma epsilon g,
      exists self,
        PolicyIteration.__init__ e gamma epsilon g = (Ok self, g) /\
        ((0 < epsilon)%Qc ->
         forall fuel,
           PolicyIteration.__call__ (S fuel) self = Raise ZeroDivisionError)) /\
  (forall alpha gamma eps,
      exists self,
        QLearning.__init__ e alpha gamma eps = Ok self /\
        forall fuel n g,
          QLearning.__call__ fuel n (self, g)
            = (Raise ZeroDivisionError, (self, g))).
Proof.
  intros He. split; [|split].
  - intros gamma epsilon. unfold ValueIteration.__init__. rewrite He.
    cbn [mbind res_bind]. eexists. split; [reflexivity|]. reflexivity.
  - intros gamma epsilon g. unfold PolicyIteration.__init__, bind, lift.
    rewrite He. eexists. split; [reflexivity|]. intros Heps fuel.
    apply py_lt_spec in Heps.
    unfold PolicyIteration.__call__.
    cbn [PolicyIteration.loop PolicyIteration.__evaluate_policy
         PolicyIteration.allowed_states foldl PolicyIteration.evaluate_loop].
    unfold PolicyIteration.__evaluate_policy.
    cbn [PolicyIteration.allowed_states foldl PolicyIteration.evaluate_loop].
    unfold PolicyIteration.evaluate_sweep.
    cbn [PolicyIteration.allowed_states for_each mbind res_bind PolicyIteration.eps].
    rewrite Heps. reflexivity.
  - intros alpha gamma eps. unfold QLearning.__init__. rewrite He.
    cbn [mbind res_bind]. eexists. split; [reflexivity|]. reflexivity.
Qed.
End DegenerateEnvironments.

Lemma solvers_need_an_action_witness :
  @get_allowed_states_and_actions _ _ declaring_mdp ([7], []) = Ok ([7], []) /\
  exists self,
    @ValueIteration.__init__ _ _ declaring_mdp ([7], []) default_gamma default_epsilon
      = Ok self /\
    @ValueIteration.__call__ _ _ declaring_mdp 1 self = Raise ValueError.
Proof.
  assert (He : @get_allowed_states_and_actions _ _ declaring_mdp ([7], [])
               = Ok ([7], [])) by reflexivity.
  split; [exact He|].
  destruct (proj1 (@solvers_need_an_action _ _ declaring_mdp _ _ _ He)
              default_gamma default_epsilon) as (self & Hinit & Hcall).
  exists self. split; [exact Hinit|exact (Hcall 0%nat)].
Defined.

Lemma solvers_need_a_state_witness :
  @get_allowed_states_and_actions _ _ declaring_mdp ([], [0; 1]) = Ok ([], [0; 1]) /\
  exists self,
    @QLearning.__init__ _ _ declaring_mdp ([], [0; 1]) default_alpha default_gamma 1%Qc
      = Ok self /\
    @QLearning.__call__ _ _ declaring_mdp 10 1 (self, tape_zero)
      = (Raise ZeroDivisionError, (self, tape_zero)).
Proof.
  assert (He : @get_allowed_states_and_actions _ _ declaring_mdp ([], [0; 1])
               = Ok ([], [0; 1])) by reflexivity.
  split; [exact He|].
  destruct (proj2 (proj2 (@solvers_need_a_state _ _ declaring_mdp _ _ He))
              default_alpha default_gamma 1%Qc) as (self & Hinit & Hcall).
  exists self. split; [exact Hinit|exact (Hcall 10%nat 1 tape_zero)].
Defined.

(** ** The sum of the transition probabilities *)

(** A sum of probabilities that are [c] on the states of [T] and 0 on the
    others counts the states of [T]. *)
Lemma sum_over_states {State : Type} `{EqDecision State}
    (f : State -> res Qc) (c : Qc) (T l : list State) :
  (forall s, s ∈ l -> f s = Ok (if bool_decide (s ∈ T) then c else 0%Qc)) ->
  NoDup l -> NoDup T -> (forall s, s ∈ T -> s ∈ l) ->
  for_each l 0%Qc (fun acc s => p ← f s; Ok (acc + p)%Qc)
  = Ok (Qc_of_Z (Z.of_nat (length T)) * c)%Qc.
Proof.
  intros Hf Hl HT Hsub.
  assert (Hgen : forall l' acc,
    (forall s, s ∈ l' -> s ∈ l) ->
    for_each l' acc (fun acc s => p ← f s; Ok (acc + p)%Qc)
    = Ok (acc + Qc_of_Z (Z.of_nat (length (filter (.∈ T) l'))) * c)%Qc).
  { induction l' as [|x l' IH]; intros acc Hin.
    - cbn [for_each]. rewrite filter_nil. cbn [length].
      change (Z.of_nat 0) with 0. rewrite Z2Qc_inj_0. f_equal. ring.
    - cbn [for_each]. rewrite Hf by (apply Hin; by left). cbn [mbind res_bind].
      rewrite IH by (intros s Hs; apply Hin; by right). f_equal.
      rewrite filter_cons. case_bool_decide as Hx.
      + rewrite decide_True by done. cbn [length].
        rewrite Nat2Z.inj_succ, <- Z.add_1_r, Z2Qc_inj_add, Z2Qc_inj_1. ring.
      + rewrite decide_False by done. ring. }
  rewrite Hgen by done. f_equal.
  assert (Hperm : filter (.∈ T) l ≡ₚ T).
  { apply NoDup_Permutation; [by apply NoDup_filter|done|].
    intros s. rewrite list_elem_of_filter. split; [by intros [? _]|]. auto. }
  rewrite Hperm. ring.
Qed.

(** The grid, checked on every declared state and action. *)
Lemma TomAndJerry_sums :
  forallb (fun s =>
    forallb (fun a =>
      match transition_prob_sum TomAndJerry.init s a with
      | Ok q =>
          bool_decide
            (q = if bool_decide (s ∈ TomAndJerry.get_terminal_states TomAndJerry.init)
                 then 0%Qc
                 else (Qc_of_Z (Z.of_nat (length
                         (List.filter (TomAndJerry_open s) (TomAndJerry_candidates a))))
                       / Qc_of_Z 3)%Qc)
      | _ => false
      end) TomAndJerry.allowed_actions) TomAndJerry_states = true.
Proof. vm_compute. reflexivity. Qed.

(** Flipping a bit and flipping the next one give different strings. *)
Lemma neighbouring_flips_differ :
  forallb (fun s =>
    forallb (fun c =>
      match BitStrings.flip s c, BitStrings.flip s (c + 1) with
      | Ok s1, Ok s2 => bool_decide (s1 <> s2)
      | _, _ => false
      end) (seqZ 0 8)) BitStrings_states = true.
Proof. vm_compute. reflexivity. Qed.

Lemma BitStrings_states_NoDup : NoDup BitStrings_states.
Proof. apply (bool_decide_unpack _). vm_compute. exact I. Qed.

(** X26. The sum of [get_transition_prob] over the declared next states,
    for every declared state and action.  It is 0 on a terminal state.  On
    the grid it is a third of the number of directions, among the action
    and its two perpendicular ones, in which the next cell is on the board
    and not a trap: 1 only when none of the three is blocked.  On the bit
    strings it is 1 for the actions 0 to 7 and 1/2 for the action 8. *)
Theorem transition_prob_sum_exact :
  (forall (e : TomAndJerry.t) s a,
      s ∈ declared_states e -> a ∈ declared_actions e ->
      transition_prob_sum e s a
      = Ok (if bool_decide (s ∈ get_terminal_states e) then 0%Qc
            else (Qc_of_Z (Z.of_nat (length
                    (List.filter (TomAndJerry_open s) (TomAndJerry_candidates a))))
                  / Qc_of_Z 3)%Qc)) /\
  (forall (e : BitStrings.t) s a,
      s ∈ declared_states e -> a ∈ declared_actions e ->
      transition_prob_sum e s a
      = Ok (if bool_decide (s ∈ get_terminal_states e) then 0%Qc
            else if a <? 8 then 1%Qc else Q2Qc (1 # 2))).
Proof.
  split.
  - intros e s a Hs Ha.
    change (declared_states e) with TomAndJerry_states in Hs.
    change (declared_actions e) with TomAndJerry.allowed_actions in Ha.
    change (transition_prob_sum e s a) with (transition_prob_sum TomAndJerry.init s a).
    change (@get_terminal_states _ _ TomAndJerry_mdp e)
      with (TomAndJerry.get_terminal_states TomAndJerry.init).
    pose proof TomAndJerry_sums as Hall.
    rewrite forallb_forall in Hall. apply list_elem_of_In in Hs.
    specialize (Hall s Hs). cbv beta in Hall.
    rewrite forallb_forall in Hall. apply list_elem_of_In in Ha.
    specialize (Hall a Ha). cbv beta in Hall.
    destruct (transition_prob_sum TomAndJerry.init s a) as [q| |]; try discriminate.
    f_equal. by apply bool_decide_eq_true_1 in Hall.
  - intros e s a Hs0 Ha0.
    assert (Hs : s ∈ BitStrings_states).
    { unfold declared_states in Hs0. by rewrite BitStrings_declared in Hs0. }
    pose proof Ha0 as Ha. rewrite BitStrings_declared_actions in Ha.
    case_bool_decide as Ht.
    { by apply (proj2 terminal_transition_prob_sum). }
    change (@get_terminal_states _ _ BitStrings_mdp e)
      with (BitStrings.get_terminal_states e) in Ht.
    unfold transition_prob_sum. rewrite BitStrings_declared. cbn [mbind res_bind].
    pose proof (BitStrings_range a) as Hrange. apply Hrange in Ha as Hr.
    destruct (BitStrings_flip_closed s a Hs Ha) as (s1 & Hs1 & Hin1).
    destruct (Z.ltb_spec a 8) as [Hlt|Hge].
    + destruct (BitStrings_flip_closed s (a + 1) Hs) as (s2 & Hs2 & Hin2).
      { unfold BitStrings_actions in *. rewrite elem_of_seqZ in *. lia. }
      assert (Hne : s1 <> s2).
      { pose proof neighbouring_flips_differ as Hall.
        rewrite forallb_forall in Hall. apply list_elem_of_In in Hs.
        specialize (Hall s Hs). cbv beta in Hall.
        rewrite forallb_forall in Hall.
        assert (Hc : In a (seqZ 0 8)).
        { apply list_elem_of_In, elem_of_seqZ.
          unfold BitStrings_actions in Ha. rewrite elem_of_seqZ in Ha. lia. }
        specialize (Hall a Hc). cbv beta in Hall. rewrite Hs1, Hs2 in Hall.
        by apply bool_decide_eq_true_1 in Hall. }
      rewrite (sum_over_states _ (Q2Qc (1 # 2)) [s1; s2]).
      * f_equal; try (apply Qc_is_canon; reflexivity).
      * intros s' _.
        change (@get_transition_prob _ _ BitStrings_mdp) with BitStrings.get_transition_prob.
        unfold BitStrings.get_transition_prob. rewrite Hr.
        rewrite bool_decide_eq_false_2 by done. rewrite Hs1. cbn [mbind res_bind].
        destruct (Z.ltb_spec a 8); [|lia]. rewrite Hs2. cbn [mbind res_bind app].
        by repeat case_bool_decide.
      * exact BitStrings_states_NoDup.
      * apply NoDup_cons. split; [by intros ->%list_elem_of_singleton|].
        apply NoDup_singleton.
      * intros s' Hs'. elem_cases Hs'; done.
    + rewrite (sum_over_states _ (Q2Qc (1 # 2)) [s1]).
      * f_equal; try (apply Qc_is_canon; reflexivity).
      * intros s' _.
        change (@get_transition_prob _ _ BitStrings_mdp) with BitStrings.get_transition_prob.
        unfold BitStrings.get_transition_prob. rewrite Hr.
        rewrite bool_decide_eq_false_2 by done. rewrite Hs1. cbn [mbind res_bind].
        destruct (Z.ltb_spec a 8); [lia|]. cbn [mbind res_bind app].
        by repeat case_bool_decide.
      * exact BitStrings_states_NoDup.
      * apply NoDup_singleton.
      * intros s' Hs'. elem_cases Hs'; done.
Qed.

Lemma transition_prob_sum_exact_witness :
  (0, 1) ∈ declared_states TomAndJerry.init /\
  2 ∈ declared_actions TomAndJerry.init /\
  transition_prob_sum TomAndJerry.init (0, 1) 2 = Ok 1%Qc.
Proof.
  assert (Hs : (0, 1) ∈ declared_states TomAndJerry.init) by compute_done.
  assert (Ha : 2 ∈ declared_actions TomAndJerry.init) by compute_done.
  split; [exact Hs|]. split; [exact Ha|].
  etransitivity; [exact (proj1 transition_prob_sum_exact TomAndJerry.init (0, 1) 2 Hs Ha)|].
  vm_compute. f_equal. apply Qc_is_canon. reflexivity.
Defined.

(** ** Q-Learning: the shape of the table *)

Section QLearningTable.
Context {Env State : Type} `{MDP Env State}.
Import QLearning.
Implicit Types (self : t Env State) (g : Rng).

(** X27. The table of Q-Learning keeps its shape.  The constructor builds
    one row for every declared state with one entry, 0, for every
    declared action, and a run that returns leaves one row for every
    declared state with one entry for every declared action, whatever
    the environment returned. *)
Theorem q_learning_table_shape (e : Env) (alpha gamma eps : Qc)
    (sts : list State) (acts : list Z) :
  get_allowed_states_and_actions e = Ok (sts, acts) ->
  exists self,
    __init__ e alpha gamma eps = Ok self /\
    (forall s, s ∈ sts ->
       dict_get s (Q self) = Some (replicate (length acts) 0%Qc)) /\
    forall fuel n g pol msv self' g',
      __call__ fuel n (self, g) = (Ok (pol, msv), (self', g')) ->
      forall s, s ∈ sts ->
        exists row, dict_get s (Q self') = Some row /\ length row = length acts.
Proof.
  intros He. rewrite (init_spec sts acts e alpha gamma eps He).
  eexists. split; [reflexivity|]. split.
  { intros s Hs. cbn [Q]. by apply dict_get_fill. }
  intros fuel n g pol msv self' g' Hrun.
  assert (Hwf : QL_wf sts acts
    {| mdp := e; alpha := alpha; gamma := gamma; eps := eps;
       Q := foldl (fun Q s => dict_set s (replicate (length acts) 0%Qc) Q) [] sts;
       allowed_states := sts; allowed_actions := acts |}).
  { split; [done|]. split; [done|]. cbn [Q]. intros s Hs.
    exists (replicate (length acts) 0%Qc).
    split; [by apply dict_get_fill|apply length_replicate]. }
  unfold __call__ in Hrun.
  apply bind_Ok_inv in Hrun as (self1 & w1 & Hget & Hrun).
  unfold on_fst, get in Hget. cbn [fst snd] in Hget. injection Hget as <- <-.
  apply bind_Ok_inv in Hrun as (m0 & w2 & Hm0 & Hrun).
  apply lift_Ok_inv in Hm0 as [_ ->].
  apply bind_Ok_inv in Hrun as (msv1 & w3 & Hep & Hrun).
  apply (episodes_wf sts acts) in Hep; [|done].
  apply bind_Ok_inv in Hrun as (self3 & w4 & Hget & Hrun).
  unfold on_fst, get in Hget. cbn [fst snd] in Hget. injection Hget as <- <-.
  apply bind_Ok_inv in Hrun as (pol1 & w5 & Hpol & Hrun).
  apply lift_Ok_inv in Hpol as [_ ->].
  unfold ret in Hrun. injection Hrun as _ _ <- _. cbn [fst] in Hep.
  exact (proj2 (proj2 Hep)).
Qed.
End QLearningTable.

Lemma q_learning_table_shape_witness :
  get_allowed_states_and_actions TomAndJerry.init
    = Ok (TomAndJerry_states, TomAndJerry.allowed_actions) /\
  exists self,
    QLearning.__init__ TomAndJerry.init default_alpha default_gamma 1%Qc = Ok self /\
    dict_get (0, 0) (QLearning.Q self) = Some [0%Qc; 0%Qc; 0%Qc; 0%Qc].
Proof.
  assert (He : get_allowed_states_and_actions TomAndJerry.init
               = Ok (TomAndJerry_states, TomAndJerry.allowed_actions)) by reflexivity.
  split; [exact He|].
  destruct (q_learning_table_shape TomAndJerry.init default_alpha default_gamma 1%Qc
              _ _ He) as (self & Hinit & Hrows & _).
  exists self. split; [exact Hinit|]. apply Hrows. compute_done.
Defined.
